(** * The coin view of bcoin: CoinEntry, Coins, UndoCoins, CoinView

    A shallow embedding of lib/coins/coinentry.js, lib/coins/coins.js,
    lib/coins/undocoins.js and lib/coins/coinview.js, and the properties
    the specification states about them. *)

From Stdlib Require Import ZArith Lia.
From Stdlib.Strings Require Import Byte.
From stdpp Require Import gmap strings list.

Local Open Scope Z_scope.

(** ** Values that leave a call

    A JavaScript call either returns or throws.  [AssertionError] is the
    failure of [assert], [TypeError] a property access on [undefined] or
    [null], [DecodeError] a read past the end of a buffer. *)

Inductive exn := AssertionError | TypeError | DecodeError.

Inductive outcome (A : Type) :=
| Ret (a : A)
| Throw (e : exn).
Arguments Ret {A} a.
Arguments Throw {A} e.

(** ** Bytes, writer and reader *)

Definition byte_of_Z (z : Z) : byte :=
  default Byte.x00 (Byte.of_N (Z.to_N (z mod 256))).

Definition Z_of_byte (b : byte) : Z := Z.of_N (Byte.to_N b).

(** Modelled from the spec: utils/staticwriter and utils/reader are not
    among the sources.  Section 6 has a [uint8] and a [uint32] field; a
    writer is the list of bytes written so far, a reader the list of bytes
    still to read, a 32-bit word is stored least significant byte first and
    a read past the end fails. *)
Definition writeU8 (v : Z) (bw : list byte) : list byte :=
  bw ++ [byte_of_Z v].

Definition readU8 (br : list byte) : option (Z * list byte) :=
  match br with
  | b :: rest => Some (Z_of_byte b, rest)
  | [] => None
  end.

Definition writeU32 (v : Z) (bw : list byte) : list byte :=
  bw ++ [byte_of_Z v; byte_of_Z (Z.shiftr v 8);
         byte_of_Z (Z.shiftr v 16); byte_of_Z (Z.shiftr v 24)].

Definition readU32 (br : list byte) : option (Z * list byte) :=
  match br with
  | b0 :: b1 :: b2 :: b3 :: rest =>
      Some (Z_of_byte b0 + Z.shiftl (Z_of_byte b1) 8
            + Z.shiftl (Z_of_byte b2) 16 + Z.shiftl (Z_of_byte b3) 24, rest)
  | _ => None
  end.

Definition writeBytes (data : list byte) (bw : list byte) : list byte :=
  bw ++ data.

(** ** 32-bit operators of JavaScript

    [|], [&] and [<<] work on the operands taken as signed 32-bit integers
    and give a signed 32-bit integer; [>>>] takes its left operand as an
    unsigned 32-bit integer. *)

Definition to_uint32 (z : Z) : Z := z mod 2 ^ 32.
Definition to_int32 (z : Z) : Z := (z + 2 ^ 31) mod 2 ^ 32 - 2 ^ 31.

Definition js_or (a b : Z) : Z := to_int32 (Z.lor (to_int32 a) (to_int32 b)).
Definition js_and (a b : Z) : Z := to_int32 (Z.land (to_int32 a) (to_int32 b)).
Definition js_shl (a n : Z) : Z := to_int32 (Z.shiftl (to_int32 a) (n mod 32)).
Definition js_ushr (a n : Z) : Z := Z.shiftr (to_uint32 a) (n mod 32).

(** ** Data model *)

Record Output := mkOutput {
  value : Z;
  script : list byte
}.

Record Outpoint := mkOutpoint {
  hash : string;
  index : nat
}.

#[global] Instance Outpoint_eq_dec : EqDecision Outpoint.
Proof. solve_decision. Defined.

Record Input := mkInput {
  prevout : Outpoint
}.

(** A transaction, as far as the coin view reads it: [tx_hash] is
    [tx.hash('hex')] and [tx_coinbase] is [tx.isCoinbase()]. *)
Record TX := mkTX {
  tx_version : Z;
  tx_hash : string;
  tx_coinbase : bool;
  inputs : list Input;
  outputs : list Output
}.

(** primitives/coin: the coin handed out of the view. *)
Record Coin := mkCoin {
  coin_version : Z;
  coin_height : Z;
  coin_coinbase : bool;
  coin_script : list byte;
  coin_value : Z;
  coin_hash : string;
  coin_index : nat
}.

Record CoinEntry := mkCoinEntry {
  version : Z;
  height : Z;
  coinbase : bool;
  output : Output;
  spent : bool;
  raw : option (list byte)
}.

(** The collaborators of section 6, none of which is among the sources:
    the script predicate, the null hash, the varint of utils/encoding and
    the output codec of coins/compress. *)
Class Collaborators := {
  isUnspendable : list byte -> bool;
  NULL_HASH : string;
  sizeVarint : Z -> nat;
  writeVarint : Z -> list byte -> list byte;
  readVarint : list byte -> option (Z * list byte);
  compress_size : Output -> nat;
  compress_output : Output -> list byte -> list byte;
  decompress_output : list byte -> option (Output * list byte);
  encodable : Output -> Prop
}.

(** What the coin view relies on: a writer appends, a reader gives back what
    the writer wrote and stops where the record ends, and the sizes are the
    numbers of bytes written.  [encodable] is the domain of the codec. *)
Class CollaboratorLaws `{Collaborators} := {
  writeVarint_app v bw : writeVarint v bw = bw ++ writeVarint v [];
  readVarint_writeVarint v rest :
    0 <= v < 2 ^ 32 -> readVarint (writeVarint v [] ++ rest) = Some (v, rest);
  sizeVarint_length v : sizeVarint v = length (writeVarint v []);
  compress_output_app o bw : compress_output o bw = bw ++ compress_output o [];
  decompress_compress o rest :
    encodable o ->
    decompress_output (compress_output o [] ++ rest) = Some (o, rest);
  compress_size_length o : compress_size o = length (compress_output o [])
}.

Section CoinEntry.
Context `{Collaborators}.

(** [new CoinEntry()]; the output is [new Output()]. *)
Definition CoinEntry_new : CoinEntry :=
  {| version := 1; height := -1; coinbase := false;
     output := {| value := 0; script := [] |};
     spent := false; raw := None |}.

Definition toOutput (e : CoinEntry) : Output := output e.

Definition toCoin (e : CoinEntry) (hash : string) (index : nat) : Coin :=
  {| coin_version := version e; coin_height := height e;
     coin_coinbase := coinbase e; coin_script := script (output e);
     coin_value := value (output e); coin_hash := hash;
     coin_index := index |}.

Definition CoinEntry_fromOutput (o : Output) : CoinEntry :=
  {| version := version CoinEntry_new; height := height CoinEntry_new;
     coinbase := coinbase CoinEntry_new; output := o;
     spent := false; raw := None |}.

Definition CoinEntry_fromCoin (c : Coin) : CoinEntry :=
  {| version := coin_version c; height := coin_height c;
     coinbase := coin_coinbase c;
     output := {| value := coin_value c; script := coin_script c |};
     spent := false; raw := None |}.

(** [CoinEntry.fromTX(tx, index, height)]: the assertion on [index] throws
    when there is no such output. *)
Definition CoinEntry_fromTX (tx : TX) (index : nat) (h : Z) : outcome CoinEntry :=
  match outputs tx !! index with
  | None => Throw AssertionError
  | Some o =>
      Ret {| version := tx_version tx; height := h;
             coinbase := tx_coinbase tx; output := o;
             spent := false; raw := None |}
  end.

Definition getSize (e : CoinEntry) : nat :=
  match raw e with
  | Some r => length r
  | None => (sizeVarint (version e) + 4 + compress_size (output e))%nat
  end.

Definition toWriter (e : CoinEntry) (bw : list byte) : list byte :=
  match raw e with
  | Some r => writeBytes r bw
  | None =>
      let code := 0 in
      let height := height e in
      let height := if height =? -1 then 0x1fffffff else height in
      let code := if coinbase e then js_or code 1 else code in
      let height := js_or height (js_shl code 29) in
      let bw := writeVarint (version e) bw in
      let bw := writeU32 height bw in
      compress_output (output e) bw
  end.

(** [toRaw] returns the bytes and leaves them cached on the entry. *)
Definition toRaw (e : CoinEntry) : list byte * CoinEntry :=
  match raw e with
  | Some r => (r, e)
  | None =>
      let r := toWriter e [] in
      (r, {| version := version e; height := height e;
             coinbase := coinbase e; output := output e;
             spent := spent e; raw := Some r |})
  end.

(** [CoinEntry.fromReader(br)], on a new entry: [None] is a read that
    throws. *)
Definition fromReader (br : list byte) : option (CoinEntry * list byte) :=
  '(version, br) ← readVarint br;
  '(height, br) ← readU32 br;
  let code := js_ushr height 29 in
  let height := js_and height 0x1fffffff in
  let height := if height =? 0x1fffffff then -1 else height in
  '(output, br) ← decompress_output br;
  Some ({| version := version; height := height;
           coinbase := negb (js_and code 1 =? 0);
           output := output; spent := false; raw := None |}, br).

Definition fromRaw (data : list byte) : option CoinEntry :=
  '(e, _) ← fromReader data;
  Some {| version := version e; height := height e;
          coinbase := coinbase e; output := output e;
          spent := spent e; raw := Some data |}.

End CoinEntry.

(** ** The packed word of a CoinEntry record

    [pack_height] and [unpack_height] are the lines of [toWriter] and
    [fromReader] between the version and the output. *)

Definition pack_height (h : Z) (cb : bool) : Z :=
  let code := 0 in
  let height := if h =? -1 then 0x1fffffff else h in
  let code := if cb then js_or code 1 else code in
  js_or height (js_shl code 29).

Definition unpack_height (w : Z) : Z * bool :=
  let code := js_ushr w 29 in
  let height := js_and w 0x1fffffff in
  let height := if height =? 0x1fffffff then -1 else height in
  (height, negb (js_and code 1 =? 0)).

(** The entry without its cached bytes, and without its in-memory flag: what
    [fromReader] builds from the record of an entry. *)
Definition uncached (e : CoinEntry) : CoinEntry :=
  {| version := version e; height := height e; coinbase := coinbase e;
     output := output e; spent := spent e; raw := None |}.

Definition decoded (e : CoinEntry) : CoinEntry :=
  {| version := version e; height := height e; coinbase := coinbase e;
     output := output e; spent := false; raw := None |}.

(** The entries the record format is made for: a height of 29 bits or the
    sentinel, a 32-bit version, an output of the codec, and cached bytes
    (when there are some) that are the record of the entry. *)
Definition serialisable `{Collaborators} (e : CoinEntry) : Prop :=
  -1 <= height e <= 2 ^ 29 - 2 /\
  0 <= version e < 2 ^ 32 /\
  encodable (output e) /\
  (forall r, raw e = Some r -> r = toWriter (uncached e) []).

(** ** Objects and state

    A [CoinEntry] is an object that a bucket slot and the undo stack can both
    hold, and [Coins.spend] writes its [spent] field in place: entries live
    in a store and are referred to by their address.  A [Coins] object is
    reached through the map of the view (a variable [coins] of the source is
    the bucket under the key it was fetched or installed with), so the map
    holds the buckets themselves and a write to [coins] is a write under
    that key. *)

Definition loc := nat.

(** What a JavaScript expression for an entry evaluates to. *)
Inductive ref := undefined | null | obj (l : loc).

Definition truthy (r : ref) : bool :=
  match r with obj _ => true | _ => false end.

Record Coins := mkCoins {
  c_hash : string;
  c_outputs : list (option loc)
}.

Record State := mkState {
  store : list CoinEntry;
  view_map : gmap string Coins;
  undo : list loc
}.

(** A call on the view: it returns or throws, and leaves a state. *)
Definition M (A : Type) : Type := State -> outcome A * State.

Definition ret {A} (a : A) : M A := fun st => (Ret a, st).
Definition throw {A} (e : exn) : M A := fun st => (Throw e, st).
Definition bind {A B} (m : M A) (k : A -> M B) : M B :=
  fun st =>
    match m st with
    | (Ret a, st') => k a st'
    | (Throw e, st') => (Throw e, st')
    end.

#[global] Instance M_ret : MRet M := @ret.
#[global] Instance M_bind : MBind M := fun A B k m => bind m k.

(** The entry at an address; every address a bucket or the undo stack holds
    is in the store, and an address outside it reads as a new entry so that
    the functions are total. *)
Definition deref (s : list CoinEntry) (l : loc) : CoinEntry :=
  default CoinEntry_new (s !! l).

Definition set_spent (e : CoinEntry) : CoinEntry :=
  {| version := version e; height := height e; coinbase := coinbase e;
     output := output e; spent := true; raw := raw e |}.

Definition with_store (st : State) (s : list CoinEntry) : State :=
  {| store := s; view_map := view_map st; undo := undo st |}.

Definition with_map (st : State) (m : gmap string Coins) : State :=
  {| store := store st; view_map := m; undo := undo st |}.

Definition with_undo (st : State) (u : list loc) : State :=
  {| store := store st; view_map := view_map st; undo := u |}.

(** [new CoinView()] over a store. *)
Definition CoinView_new (s : list CoinEntry) : State :=
  {| store := s; view_map := ∅; undo := [] |}.

(** ** coins.js *)

Section Coins.
Context `{Collaborators}.

Definition Coins_new : Coins := {| c_hash := NULL_HASH; c_outputs := [] |}.

(** [Coins.add(index, coin)]: the index is a natural number, so
    [assert(index >= 0)] holds; the loop pads with [null] up to [index]; the
    second assertion throws on an occupied slot, after the padding. *)
Definition Coins_add (index : nat) (coin : loc) (c : Coins)
  : outcome unit * Coins :=
  let outs := c_outputs c
              ++ replicate (S index - length (c_outputs c)) None in
  match outs !! index with
  | Some (Some _) =>
      (Throw AssertionError, {| c_hash := c_hash c; c_outputs := outs |})
  | _ =>
      (Ret tt, {| c_hash := c_hash c; c_outputs := <[index := Some coin]> outs |})
  end.

Definition Coins_has (index : nat) (c : Coins) : bool :=
  if decide (length (c_outputs c) <= index)%nat then false
  else match c_outputs c !! index with
       | Some (Some _) => true
       | _ => false
       end.

Definition Coins_isUnspent (s : list CoinEntry) (index : nat) (c : Coins) : bool :=
  if decide (length (c_outputs c) <= index)%nat then false
  else match c_outputs c !! index with
       | Some (Some l) => negb (spent (deref s l))
       | _ => false
       end.

Definition Coins_get (index : nat) (c : Coins) : ref :=
  if decide (length (c_outputs c) <= index)%nat then undefined
  else match c_outputs c !! index with
       | Some (Some l) => obj l
       | _ => null
       end.

(** [this.outputs[index].toOutput()]: a call on [null] throws. *)
Definition Coins_getOutput (s : list CoinEntry) (index : nat) (c : Coins)
  : outcome (option Output) :=
  if decide (length (c_outputs c) <= index)%nat then Ret None
  else match c_outputs c !! index with
       | Some (Some l) => Ret (Some (toOutput (deref s l)))
       | _ => Throw TypeError
       end.

(** [Coins.getCoin(index)].  The argument is a number or, as
    [CoinView.getCoin] calls it, an [Outpoint] object.  With an object,
    [index >= this.outputs.length] compares NaN (an outpoint has no
    [valueOf] and no [toString] that gives a number) and is false, and
    [this.outputs[index]] reads the property named by the string of the
    object, which is no element of the array: it is [undefined], and
    [.toCoin] on it throws. *)
Definition Coins_getCoin (s : list CoinEntry) (index : nat + Outpoint) (c : Coins)
  : outcome (option Coin) :=
  match index with
  | inl index =>
      if decide (length (c_outputs c) <= index)%nat then Ret None
      else match c_outputs c !! index with
           | Some (Some l) => Ret (Some (toCoin (deref s l) (c_hash c) index))
           | _ => Throw TypeError
           end
  | inr _ => Throw TypeError
  end.

(** [Coins.spend(index)]: the entry is marked in the store and returned. *)
Definition Coins_spend (s : list CoinEntry) (index : nat) (c : Coins)
  : option loc * list CoinEntry :=
  match Coins_get index c with
  | obj l =>
      if spent (deref s l) then (None, s)
      else (Some l, <[l := set_spent (deref s l)]> s)
  | _ => (None, s)
  end.

Fixpoint cleanup_loop (outs : list (option loc)) (len : nat) : nat :=
  match len with
  | O => O
  | S n => match outs !! n with
           | Some (Some _) => S n
           | _ => cleanup_loop outs n
           end
  end.

Definition Coins_cleanup (c : Coins) : Coins :=
  let len := cleanup_loop (c_outputs c) (length (c_outputs c)) in
  {| c_hash := c_hash c; c_outputs := take len (c_outputs c) |}.

(** [Coins.remove(index)]: [None] is the [false] of the source. *)
Definition Coins_remove (index : nat) (c : Coins) : option loc * Coins :=
  match Coins_get index c with
  | obj l =>
      (Some l,
       Coins_cleanup {| c_hash := c_hash c;
                        c_outputs := <[index := None]> (c_outputs c) |})
  | _ => (None, c)
  end.

Fixpoint length_loop (s : list CoinEntry) (c : Coins) (len : nat) : nat :=
  match len with
  | O => O
  | S n => if Coins_isUnspent s n c then S n else length_loop s c n
  end.

Definition Coins_length (s : list CoinEntry) (c : Coins) : nat :=
  length_loop s c (length (c_outputs c)).

Definition Coins_isEmpty (s : list CoinEntry) (c : Coins) : bool :=
  Nat.eqb (Coins_length s c) 0.

Definition Coins_push (c : Coins) (slot : option loc) : Coins :=
  {| c_hash := c_hash c; c_outputs := c_outputs c ++ [slot] |}.

(** Modelled from the spec: coins/rawcoin is not among the sources.
    Sections 3 and 4.2 have the slots of a [Coins] hold [CoinEntry] objects
    built by [fromTX], [fromOutput] and [fromCoin], so [RawCoin] is read as
    the [CoinEntry] of coinentry.js. *)
Definition RawCoin_fromTX := CoinEntry_fromTX.
Definition RawCoin_fromOutput := CoinEntry_fromOutput.
Definition RawCoin_fromCoin := CoinEntry_fromCoin.

(** The loop of [Coins.fromTX]: [outs] are the outputs from index [i] on. *)
Fixpoint fromTX_loop (tx : TX) (h : Z) (outs : list Output) (i : nat)
    (c : Coins) (s : list CoinEntry) : outcome Coins * list CoinEntry :=
  match outs with
  | [] => (Ret c, s)
  | output :: rest =>
      if isUnspendable (script output) then
        fromTX_loop tx h rest (S i) (Coins_push c None) s
      else
        match RawCoin_fromTX tx i h with
        | Throw e => (Throw e, s)
        | Ret e =>
            fromTX_loop tx h rest (S i)
              (Coins_push c (Some (length s))) (s ++ [e])
        end
  end.

(** [Coins.fromTX(tx, height)], on [new Coins()]. *)
Definition Coins_fromTX (tx : TX) (h : Z) (s : list CoinEntry)
  : outcome Coins * list CoinEntry :=
  let c := {| c_hash := tx_hash tx; c_outputs := c_outputs Coins_new |} in
  match fromTX_loop tx h (outputs tx) 0 c s with
  | (Ret c, s) => (Ret (Coins_cleanup c), s)
  | (Throw e, s) => (Throw e, s)
  end.

(** [Coins.addOutput] and [Coins.addCoin] build the entry and add it. *)
Definition Coins_addOutput (index : nat) (output : Output) (c : Coins)
    (s : list CoinEntry) : outcome unit * Coins * list CoinEntry :=
  if isUnspendable (script output) then (Throw AssertionError, c, s)
  else
    let '(r, c) := Coins_add index (length s) c in
    (r, c, s ++ [RawCoin_fromOutput output]).

Definition Coins_addCoin (coin : Coin) (c : Coins) (s : list CoinEntry)
  : outcome unit * Coins * list CoinEntry :=
  if isUnspendable (coin_script coin) then (Throw AssertionError, c, s)
  else
    let '(r, c) := Coins_add (coin_index coin) (length s) c in
    (r, c, s ++ [RawCoin_fromCoin coin]).

End Coins.

(** ** coinview.js *)

Section CoinView.
Context `{Collaborators}.

Definition view_get (hash : string) (st : State) : option Coins :=
  view_map st !! hash.

Definition view_has (hash : string) (st : State) : bool :=
  bool_decide (is_Some (view_map st !! hash)).

Definition view_add (hash : string) (coins : Coins) : M Coins :=
  fun st => (Ret coins, with_map st (<[hash := coins]> (view_map st))).

Definition view_remove (hash : string) : M bool :=
  fun st =>
    match view_map st !! hash with
    | None => (Ret false, st)
    | Some _ => (Ret true, with_map st (delete hash (view_map st)))
    end.

Definition addTX (tx : TX) (h : Z) : M Coins :=
  fun st =>
    match Coins_fromTX tx h (store st) with
    | (Ret coins, s) => view_add (tx_hash tx) coins (with_store st s)
    | (Throw e, s) => (Throw e, with_store st s)
    end.

(** The loop of [removeTX]: [coin.spent = true] on a [null] slot throws. *)
Fixpoint removeTX_loop (outs : list (option loc)) (s : list CoinEntry)
  : outcome unit * list CoinEntry :=
  match outs with
  | [] => (Ret tt, s)
  | None :: _ => (Throw TypeError, s)
  | Some l :: rest => removeTX_loop rest (<[l := set_spent (deref s l)]> s)
  end.

Definition removeTX (tx : TX) (h : Z) : M Coins :=
  fun st =>
    match Coins_fromTX tx h (store st) with
    | (Throw e, s) => (Throw e, with_store st s)
    | (Ret coins, s) =>
        match removeTX_loop (c_outputs coins) s with
        | (Throw e, s) => (Throw e, with_store st s)
        | (Ret _, s) => view_add (tx_hash tx) coins (with_store st s)
        end
    end.

(** What [addEntry] can be called with: [UndoCoins.apply] passes a hash for
    [prevout] and an index for [coin]. *)
Inductive jsarg :=
| AStr (s : string)
| ANum (n : nat)
| AOutpoint (p : Outpoint)
| AEntry (l : loc).

(** [this.map[prevout.hash]]: a string or a number has no property [hash],
    and the key [undefined] is the string of that name. *)
Definition key_of_hash (prevout : jsarg) : string :=
  match prevout with
  | AOutpoint p => hash p
  | _ => "undefined"
  end.

(** [addEntry(prevout, coin)].  [coin.output] is [undefined] unless [coin]
    is an entry, and [.script] on it throws; [prevout.index] is [undefined]
    unless [prevout] is an outpoint, then [coins.has] is false and the first
    assertion of [coins.add] fails. *)
Definition addEntry_js (prevout coin : jsarg) : M (option Coins) :=
  fun st =>
    let key := key_of_hash prevout in
    let '(coins, st) :=
      match view_get key st with
      | Some coins => (coins, st)
      | None => (Coins_new, with_map st (<[key := Coins_new]> (view_map st)))
      end in
    match coin with
    | AEntry l =>
        if isUnspendable (script (output (deref (store st) l))) then
          (Ret None, st)
        else
          match prevout with
          | AOutpoint p =>
              if Coins_has (index p) coins then (Ret (Some coins), st)
              else
                let '(r, coins) := Coins_add (index p) l coins in
                let st := with_map st (<[key := coins]> (view_map st)) in
                match r with
                | Ret _ => (Ret (Some coins), st)
                | Throw e => (Throw e, st)
                end
          | _ => (Throw AssertionError, st)
          end
    | _ => (Throw TypeError, st)
    end.

Definition addEntry (prevout : Outpoint) (coin : loc) : M (option Coins) :=
  addEntry_js (AOutpoint prevout) (AEntry coin).

Definition addCoin (coin : Coin) : M (option Coins) :=
  fun st =>
    let '(coins, st) :=
      match view_get (coin_hash coin) st with
      | Some coins => (coins, st)
      | None =>
          (Coins_new,
           with_map st (<[coin_hash coin := Coins_new]> (view_map st)))
      end in
    if isUnspendable (coin_script coin) then (Ret None, st)
    else if Coins_has (coin_index coin) coins then (Ret (Some coins), st)
    else
      let '(r, coins, s) := Coins_addCoin coin coins (store st) in
      let st := with_store (with_map st (<[coin_hash coin := coins]> (view_map st))) s in
      match r with
      | Ret _ => (Ret (Some coins), st)
      | Throw e => (Throw e, st)
      end.

Definition addOutput (prevout : Outpoint) (output : Output) : M unit :=
  fun st =>
    let '(coins, st) :=
      match view_get (hash prevout) st with
      | Some coins => (coins, st)
      | None =>
          (Coins_new,
           with_map st (<[hash prevout := Coins_new]> (view_map st)))
      end in
    if isUnspendable (script output) then (Ret tt, st)
    else if Coins_has (index prevout) coins then (Ret tt, st)
    else
      let '(r, coins, s) := Coins_addOutput (index prevout) output coins (store st) in
      (r, with_store (with_map st (<[hash prevout := coins]> (view_map st))) s).

(** [spendFrom(coins, index)]. *)
Definition spendFrom (coins : Coins) (index : nat) : M bool :=
  fun st =>
    match Coins_spend (store st) index coins with
    | (None, s) => (Ret false, with_store st s)
    | (Some coin, s) => (Ret true, with_undo (with_store st s) (undo st ++ [coin]))
    end.

Definition spendOutput (prevout : Outpoint) : M bool :=
  fun st =>
    match view_get (hash prevout) st with
    | None => (Ret false, st)
    | Some coins => spendFrom coins (index prevout) st
    end.

Definition removeOutput (prevout : Outpoint) : M (option loc) :=
  fun st =>
    match view_get (hash prevout) st with
    | None => (Ret None, st)
    | Some coins =>
        let '(r, coins) := Coins_remove (index prevout) coins in
        (Ret r, with_map st (<[hash prevout := coins]> (view_map st)))
    end.

Definition getEntry (input : Input) (st : State) : ref :=
  match view_get (hash (prevout input)) st with
  | None => undefined
  | Some coins => Coins_get (index (prevout input)) coins
  end.

(** [getCoin] hands [input.prevout] itself to [Coins.getCoin]. *)
Definition getCoin (input : Input) (st : State) : outcome (option Coin) :=
  match view_get (hash (prevout input)) st with
  | None => Ret None
  | Some coins => Coins_getCoin (store st) (inr (prevout input)) coins
  end.

Definition getOutput (input : Input) (st : State) : outcome (option Output) :=
  match view_get (hash (prevout input)) st with
  | None => Ret None
  | Some coins => Coins_getOutput (store st) (index (prevout input)) coins
  end.

Definition hasEntry (input : Input) (st : State) : bool :=
  match view_get (hash (prevout input)) st with
  | None => false
  | Some coins => Coins_has (index (prevout input)) coins
  end.

Definition getHeight (input : Input) (st : State) : Z :=
  match getEntry input st with
  | obj l => height (deref (store st) l)
  | _ => -1
  end.

Definition isCoinbase (input : Input) (st : State) : bool :=
  match getEntry input st with
  | obj l => coinbase (deref (store st) l)
  | _ => false
  end.

(** The backing store: [db.readCoin(prevout)] gives a new entry or nothing. *)
Definition ChainDB := Outpoint -> option CoinEntry.

Definition readCoin (db : ChainDB) (input : Input) : M (option Coins) :=
  fun st =>
    let prevout := prevout input in
    if hasEntry input st then (Ret (view_get (hash prevout) st), st)
    else
      match db prevout with
      | None => (Ret None, st)
      | Some coin =>
          addEntry prevout (length (store st))
            (with_store st (store st ++ [coin]))
      end.

Fixpoint ensureInputs_loop (db : ChainDB) (ins : list Input) (found : bool)
  : M bool :=
  match ins with
  | [] => ret found
  | input :: rest =>
      coins ← readCoin db input;
      ensureInputs_loop db rest (if coins is Some _ then found else false)
  end.

Definition ensureInputs (db : ChainDB) (tx : TX) : M bool :=
  ensureInputs_loop db (inputs tx) true.

Fixpoint spendInputs_loop (db : ChainDB) (ins : list Input) : M bool :=
  match ins with
  | [] => ret true
  | input :: rest =>
      coins ← readCoin db input;
      match coins with
      | None => ret false
      | Some coins =>
          ok ← spendFrom coins (index (prevout input));
          if ok : bool then spendInputs_loop db rest else ret false
      end
  end.

Definition spendInputs (db : ChainDB) (tx : TX) : M bool :=
  spendInputs_loop db (inputs tx).

End CoinView.

(** ** The fast form of a view, and undocoins.js *)

Section FastForm.
Context `{Collaborators}.

Fixpoint getFastSize_loop (ins : list Input) (st : State) (size : nat) : nat :=
  match ins with
  | [] => size
  | input :: rest =>
      match getEntry input st with
      | obj coin =>
          getFastSize_loop rest st (size + getSize (deref (store st) coin))
      | _ => getFastSize_loop rest st size
      end
  end.

Definition getFastSize (tx : TX) (st : State) : nat :=
  getFastSize_loop (inputs tx) st (0 + length (inputs tx)).

Fixpoint toFast_loop (ins : list Input) (st : State) (bw : list byte)
  : list byte :=
  match ins with
  | [] => bw
  | input :: rest =>
      match getEntry input st with
      | obj coin =>
          toFast_loop rest st (toWriter (deref (store st) coin) (writeU8 1 bw))
      | _ => toFast_loop rest st (writeU8 0 bw)
      end
  end.

Definition toFast (bw : list byte) (tx : TX) (st : State) : list byte :=
  toFast_loop (inputs tx) st bw.

(** The loop of [fromFast]; the value returned is what is left of the
    reader.  Any flag other than 0 is followed by a record. *)
Fixpoint fromFast_loop (ins : list Input) (br : list byte) : M (list byte) :=
  match ins with
  | [] => ret br
  | input :: rest =>
      let prevout := prevout input in
      match readU8 br with
      | None => throw DecodeError
      | Some (flag, br) =>
          if flag =? 0 then fromFast_loop rest br
          else
            match fromReader br with
            | None => throw DecodeError
            | Some (coin, br) =>
                fun st =>
                  match addEntry prevout (length (store st))
                          (with_store st (store st ++ [coin])) with
                  | (Ret _, st) => fromFast_loop rest br st
                  | (Throw e, st) => (Throw e, st)
                  end
            end
      end
  end.

Definition fromFast (br : list byte) (tx : TX) : M (list byte) :=
  fromFast_loop (inputs tx) br.

(** [CoinView.fromFast(br, tx)]: a new view, over the store there is. *)
Definition CoinView_fromFast (br : list byte) (tx : TX) (s : list CoinEntry)
  : outcome (list byte) * State :=
  fromFast br tx (CoinView_new s).

(** [UndoCoins]: [items] is a list of entries, the last one on top. *)
Definition UndoCoins_push (coin : loc) (items : list loc) : list loc :=
  items ++ [coin].

Definition UndoCoins_isEmpty (items : list loc) : bool :=
  Nat.eqb (length items) 0.

Definition UndoCoins_top (items : list loc) : option loc := last items.

(** [UndoCoins.apply(view, outpoint)]: [pop], the assertion, and the call
    [view.addEntry(outpoint.hash, outpoint.index, undo)], in which the
    popped entry is a third argument that [addEntry] does not read. *)
Definition UndoCoins_apply (items : list loc) (outpoint : Outpoint) (view : State)
  : outcome unit * list loc * State :=
  match last items with
  | None => (Throw AssertionError, items, view)
  | Some undo =>
      let items := removelast items in
      match addEntry_js (AStr (hash outpoint)) (ANum (index outpoint)) view with
      | (Ret _, view) => (Ret tt, items, view)
      | (Throw e, view) => (Throw e, items, view)
      end
  end.

(** [view.undo.apply(view, outpoint)]: the stack applied is the one of the
    view, so what is left of it is the stack of the view afterwards. *)
Definition undo_apply (outpoint : Outpoint) : M unit :=
  fun st =>
    let '(r, items, st) := UndoCoins_apply (undo st) outpoint st in
    (r, with_undo st items).

End FastForm.

(** ** An instance of the collaborators

    A fixed-width stand-in for the varint and a length-prefixed stand-in for
    the output codec, to run the definitions on concrete views; a script is
    unspendable when it starts with OP_RETURN (0x6a). *)

Module Demo.

Definition demo_isUnspendable (s : list byte) : bool :=
  match s with
  | b :: _ => Byte.eqb b Byte.x6a
  | [] => false
  end.

Definition demo_compress (o : Output) (bw : list byte) : list byte :=
  writeBytes (script o)
    (writeU32 (Z.of_nat (length (script o))) (writeU32 (value o) bw)).

Definition demo_decompress (br : list byte) : option (Output * list byte) :=
  '(v, br) ← readU32 br;
  '(n, br) ← readU32 br;
  if decide (Z.to_nat n <= length br)%nat
  then Some ({| value := v; script := take (Z.to_nat n) br |},
             drop (Z.to_nat n) br)
  else None.

Definition demo : Collaborators := {|
  isUnspendable := demo_isUnspendable;
  NULL_HASH := "0000000000000000000000000000000000000000000000000000000000000000";
  sizeVarint := fun _ => 4%nat;
  writeVarint := writeU32;
  readVarint := readU32;
  compress_size := fun o => (8 + length (script o))%nat;
  compress_output := demo_compress;
  decompress_output := demo_decompress;
  encodable := fun o =>
    0 <= value o < 2 ^ 32 /\ Z.of_nat (length (script o)) < 2 ^ 32
|}.

End Demo.

(** The entry a slot holds, whether the index is past the end or the slot
    is [null]. *)
Definition slot (c : Coins) (i : nat) : option loc :=
  default None (c_outputs c !! i).

(** Spending the final unspent index, [n] times over or until nothing is
    left unspent. *)
Fixpoint spend_final (n : nat) (s : list CoinEntry) (c : Coins)
  : list CoinEntry :=
  match n with
  | O => s
  | S n =>
      match Coins_length s c with
      | O => s
      | S k => spend_final n (snd (Coins_spend s k c)) c
      end
  end.

(** Every entry that a slot of the bucket holds is in the store. *)
Definition slots_in_store (s : list CoinEntry) (c : Coins) : Prop :=
  forall i l, slot c i = Some l -> (l < length s)%nat.


(** A view to run the definitions on: two transactions, the second with an
    unspendable first output, and a transaction spending from both. *)
Module Scenario.
Import Demo.

Definition pay : Output := {| value := 5; script := [Byte.x51] |}.
Definition burn : Output := {| value := 0; script := [Byte.x6a] |}.

Definition entry1 : CoinEntry :=
  {| version := 1; height := 100; coinbase := true; output := pay;
     spent := false; raw := None |}.

Definition tx_a : TX :=
  {| tx_version := 1; tx_hash := "aa"; tx_coinbase := false;
     inputs := []; outputs := [pay; pay] |}.

Definition tx_b : TX :=
  {| tx_version := 1; tx_hash := "bb"; tx_coinbase := false;
     inputs := []; outputs := [burn; pay] |}.

Definition tx_c : TX :=
  {| tx_version := 1; tx_hash := "cc"; tx_coinbase := false;
     inputs := [mkInput (mkOutpoint "aa" 1); mkInput (mkOutpoint "zz" 0);
                mkInput (mkOutpoint "bb" 1)];
     outputs := [pay] |}.

Definition tx_d : TX :=
  {| tx_version := 1; tx_hash := "dd"; tx_coinbase := false;
     inputs := []; outputs := [pay; burn; pay] |}.

(** Three outputs of which the second is unspendable: the bucket of
    [addTX] has a hole in the middle. *)
Definition bucket_d : Coins := {| c_hash := "dd"; c_outputs := [Some 0; None; Some 1]%nat |}.
Definition store_d : list CoinEntry :=
  [ {| version := 1; height := 1; coinbase := false; output := pay;
       spent := false; raw := None |};
    {| version := 1; height := 1; coinbase := false; output := pay;
       spent := false; raw := None |} ].

(** The view after [addTX(tx_a, 1)] and a spend of its first output. *)
Definition store_a : list CoinEntry :=
  [ {| version := 1; height := 1; coinbase := false; output := pay;
       spent := false; raw := None |};
    {| version := 1; height := 1; coinbase := false; output := pay;
       spent := false; raw := None |} ].
Definition bucket_a : Coins :=
  {| c_hash := "aa"; c_outputs := [Some 0; Some 1]%nat |}.
Definition view_a : State :=
  {| store := store_a; view_map := {[ "aa" := bucket_a ]}; undo := [] |}.

(** A coin of the backing store with an unspendable script. *)
Definition burnt : CoinEntry :=
  {| version := 1; height := 7; coinbase := false; output := burn;
     spent := false; raw := None |}.

End Scenario.

(** ** Views as the properties see them *)

(** The entry cached for an outpoint, if there is one. *)
Definition cached (st : State) (p : Outpoint) : option loc :=
  match view_map st !! hash p with
  | Some c => slot c (index p)
  | None => None
  end.

(** Every entry that a bucket of the view holds is in the store. *)
Definition view_in_store (st : State) : Prop :=
  forall h c, view_map st !! h = Some c -> slots_in_store (store st) c.

(** From [st] to [st']: the store has grown at its end, what was cached still
    is, and what was spent still is. *)
Definition extends (st st' : State) : Prop :=
  (length (store st) <= length (store st'))%nat /\
  (forall q l, cached st q = Some l -> cached st' q = Some l) /\
  (forall l, (l < length (store st))%nat ->
     spent (deref (store st) l) = true -> spent (deref (store st') l) = true).



(** The value of the entry cached for an outpoint. *)
Definition cached_entry (st : State) (p : Outpoint) : option CoinEntry :=
  deref (store st) <$> cached st p.

(** The fast form as section 6 lays it out, to compare [toFast] with: for
    each input in order, the flag byte 0 when the map of the view holds no
    coin at the outpoint of the input, and the flag byte 1 and the record of
    the coin when it holds one.  What the map holds is read off [view_map]
    and the outputs of the bucket, not through the accessors of the view. *)
Definition fast_chunk `{Collaborators} (st : State) (input : Input) : list byte :=
  match cached st (prevout input) with
  | Some coin => writeU8 1 [] ++ toWriter (deref (store st) coin) []
  | None => writeU8 0 []
  end.

Definition fast_form_spec `{Collaborators} (st : State) (tx : TX) : list byte :=
  concat (fast_chunk st <$> inputs tx).

(** The coins that the map holds for the inputs are of the record format and
    can be spent, as every coin is that the view took in through [addTX],
    [addEntry], [addCoin], [addOutput] or [readCoin]. *)
Definition fast_encodable `{Collaborators} (st : State) (ins : list Input) : Prop :=
  forall input l, input ∈ ins -> cached st (prevout input) = Some l ->
    serialisable (deref (store st) l) /\
    isUnspendable (script (output (deref (store st) l))) = false.

(** ** The rest of undocoins.js *)

Section UndoCoinsRaw.
Context `{Collaborators}.

Fixpoint UndoCoins_getSize_loop (s : list CoinEntry) (items : list loc)
    (size : nat) : nat :=
  match items with
  | [] => size
  | coin :: rest =>
      UndoCoins_getSize_loop s rest (size + getSize (deref s coin))
  end.

Definition UndoCoins_getSize (s : list CoinEntry) (items : list loc) : nat :=
  UndoCoins_getSize_loop s items (0 + 4).

Fixpoint UndoCoins_toRaw_loop (s : list CoinEntry) (items : list loc)
    (bw : list byte) : list byte :=
  match items with
  | [] => bw
  | coin :: rest => UndoCoins_toRaw_loop s rest (toWriter (deref s coin) bw)
  end.

(** [UndoCoins.toRaw()]: the count, then the record of each entry. *)
Definition UndoCoins_toRaw (s : list CoinEntry) (items : list loc) : list byte :=
  UndoCoins_toRaw_loop s items (writeU32 (Z.of_nat (length items)) []).

(** Modelled from the spec: coins/rawcoin is not among the sources.  As
    for [RawCoin_fromTX], the [RawCoin.fromReader] that [UndoCoins.fromRaw]
    calls is read as the [fromReader] of coinentry.js. *)
Definition RawCoin_fromReader (br : list byte) : option (CoinEntry * list byte) :=
  fromReader br.

(** The loop of [UndoCoins.fromRaw]: each entry read is a new object,
    pushed on [items]. *)
Fixpoint UndoCoins_fromRaw_loop (count : nat) (br : list byte)
    (items : list loc) (s : list CoinEntry)
  : outcome (list loc) * list CoinEntry :=
  match count with
  | O => (Ret items, s)
  | S count =>
      match RawCoin_fromReader br with
      | None => (Throw DecodeError, s)
      | Some (coin, br) =>
          UndoCoins_fromRaw_loop count br
            (UndoCoins_push (length s) items) (s ++ [coin])
      end
  end.

(** [UndoCoins.fromRaw(data)], on [new UndoCoins()]. *)
Definition UndoCoins_fromRaw (data : list byte) (s : list CoinEntry)
  : outcome (list loc) * list CoinEntry :=
  match readU32 data with
  | None => (Throw DecodeError, s)
  | Some (count, br) => UndoCoins_fromRaw_loop (Z.to_nat count) br [] s
  end.

(** [UndoCoins.commit()]: the bytes, and the stack left empty. *)
Definition UndoCoins_commit (s : list CoinEntry) (items : list loc)
  : list byte * list loc :=
  let raw := UndoCoins_toRaw s items in
  (raw, []).

(** [view.undo.commit()]. *)
Definition undo_commit : M (list byte) :=
  fun st =>
    let '(raw, items) := UndoCoins_commit (store st) (undo st) in
    (Ret raw, with_undo st items).

End UndoCoinsRaw.

(** ** The helpers of the test suite

    [reserialize] and [deepCoinsEqual] of test/coins-test.js.  [toRaw]
    leaves its bytes cached on the entry it is called on, so [reserialize]
    also gives back the entry it was handed. *)

Section TestHelpers.
Context `{Collaborators}.

Definition reserialize (coin : CoinEntry) : option (CoinEntry * CoinEntry) :=
  let '(raw, coin) := toRaw coin in
  entry ← fromRaw raw;
  let entry := uncached entry in
  let '(raw, entry) := toRaw entry in
  r ← fromRaw raw;
  Some (r, coin).

Definition deepCoinsEqual (a b : CoinEntry) : Prop :=
  version a = version b /\ height a = height b /\
  coinbase a = coinbase b /\ raw a = raw b.

End TestHelpers.

(** ** Inputs that can be resolved

    What [ensureInputs] is compared with: the backing store has a coin for
    the outpoint that can be spent, and the input has its coin cached or
    the backing store has one that can be spent. *)

Definition db_spendable `{Collaborators} (db : ChainDB) (q : Outpoint) : bool :=
  match db q with
  | Some e => negb (isUnspendable (script (output e)))
  | None => false
  end.

Definition resolvable `{Collaborators} (db : ChainDB) (st : State)
    (input : Input) : bool :=
  bool_decide (is_Some (cached st (prevout input)))
  || db_spendable db (prevout input).
(** * Properties *)

(** ** Bytes and 32-bit words *)

Lemma Z_of_byte_of_Z (z : Z) : Z_of_byte (byte_of_Z z) = z mod 256.
Proof.
  unfold Z_of_byte, byte_of_Z.
  assert (Hr : 0 <= z mod 256 < 256) by (apply Z.mod_pos_bound; lia).
  destruct (Byte.of_N (Z.to_N (z mod 256))) as [b|] eqn:E.
  - apply Byte.to_of_N in E. simpl. rewrite E. lia.
  - apply Byte.of_N_None_iff in E. lia.
Qed.

Lemma Z_of_byte_range (b : byte) : 0 <= Z_of_byte b < 256.
Proof.
  unfold Z_of_byte. pose proof (Byte.to_N_bounded b). lia.
Qed.

Lemma byte_of_Z_of_byte (b : byte) : byte_of_Z (Z_of_byte b) = b.
Proof.
  unfold byte_of_Z. rewrite Z.mod_small by apply Z_of_byte_range.
  unfold Z_of_byte. rewrite N2Z.id, Byte.of_to_N. reflexivity.
Qed.

Lemma writeU32_app (v : Z) (bw : list byte) :
  writeU32 v bw = bw ++ writeU32 v [].
Proof. reflexivity. Qed.

Lemma writeU32_length (v : Z) : length (writeU32 v []) = 4%nat.
Proof. reflexivity. Qed.

Lemma readU32_writeU32 (v : Z) (rest : list byte) :
  0 <= v < 2 ^ 32 -> readU32 (writeU32 v [] ++ rest) = Some (v, rest).
Proof.
  intros Hv. unfold writeU32, readU32. cbn [app].
  rewrite !Z_of_byte_of_Z, !Z.shiftr_div_pow2, !Z.shiftl_mul_pow2 by lia.
  f_equal. f_equal.
  change (2 ^ 8) with 256. change (2 ^ 16) with 65536.
  change (2 ^ 24) with 16777216. change (2 ^ 32) with 4294967296 in Hv.
  Z.div_mod_to_equations. lia.
Qed.

Lemma readU8_writeU8 (v : Z) (rest : list byte) :
  0 <= v < 256 -> readU8 (writeU8 v [] ++ rest) = Some (v, rest).
Proof.
  intros Hv. unfold writeU8, readU8. simpl.
  rewrite Z_of_byte_of_Z, Z.mod_small by lia. reflexivity.
Qed.

Lemma to_int32_small (z : Z) : - 2 ^ 31 <= z < 2 ^ 31 -> to_int32 z = z.
Proof.
  intros Hz. unfold to_int32. rewrite Z.mod_small; lia.
Qed.

Lemma to_uint32_small (z : Z) : 0 <= z < 2 ^ 32 -> to_uint32 z = z.
Proof. intros Hz. apply Z.mod_small. exact Hz. Qed.

Lemma lor_bit29 (h : Z) : 0 <= h < 2 ^ 29 -> Z.lor h (2 ^ 29) = h + 2 ^ 29.
Proof.
  intros Hh.
  assert (Hd : Z.land h (2 ^ 29) = 0).
  { apply Z.bits_inj'. intros n Hn.
    rewrite Z.land_spec, Z.bits_0, Z.pow2_bits_eqb by lia.
    destruct (Z.eqb_spec 29 n) as [<-|Hne].
    - rewrite <- (Z.mod_small h (2 ^ 29)) by lia.
      rewrite Z.mod_pow2_bits_high by lia. reflexivity.
    - apply andb_false_r. }
  rewrite <- Z.lxor_lor by exact Hd.
  symmetry. apply Z.add_nocarry_lxor. exact Hd.
Qed.

(** ** The packed word of a CoinEntry record *)

Lemma pack_height_eq (h : Z) (cb : bool) :
  -1 <= h <= 2 ^ 29 - 2 ->
  pack_height h cb
  = (if h =? -1 then 2 ^ 29 - 1 else h) + (if cb then 2 ^ 29 else 0).
Proof.
  intros Hh. unfold pack_height.
  change 0x1fffffff with (2 ^ 29 - 1).
  set (h' := if h =? -1 then 2 ^ 29 - 1 else h).
  assert (Hh' : 0 <= h' < 2 ^ 29).
  { subst h'. destruct (Z.eqb_spec h (-1)); lia. }
  destruct cb.
  - change (js_shl (js_or 0 1) 29) with (2 ^ 29).
    unfold js_or. rewrite (to_int32_small h') by lia.
    change (to_int32 (2 ^ 29)) with (2 ^ 29).
    rewrite lor_bit29 by lia. apply to_int32_small. lia.
  - change (js_shl 0 29) with 0.
    unfold js_or. rewrite (to_int32_small h') by lia.
    change (to_int32 0) with 0. rewrite Z.lor_0_r.
    rewrite to_int32_small by lia. lia.
Qed.

Lemma pack_height_range (h : Z) (cb : bool) :
  -1 <= h <= 2 ^ 29 - 2 -> 0 <= pack_height h cb < 2 ^ 30.
Proof.
  intros Hh. rewrite pack_height_eq by exact Hh.
  destruct (Z.eqb_spec h (-1)), cb; lia.
Qed.

Lemma unpack_pack_height (h : Z) (cb : bool) :
  -1 <= h <= 2 ^ 29 - 2 -> unpack_height (pack_height h cb) = (h, cb).
Proof.
  intros Hh. pose proof (pack_height_range h cb Hh) as Hr.
  pose proof (pack_height_eq h cb Hh) as He.
  set (w := pack_height h cb) in *.
  set (h' := if h =? -1 then 2 ^ 29 - 1 else h) in He.
  assert (Hh' : 0 <= h' < 2 ^ 29).
  { subst h'. destruct (Z.eqb_spec h (-1)); lia. }
  set (c := if cb then 2 ^ 29 else 0) in He.
  assert (Hlow : js_and w 0x1fffffff = h').
  { unfold js_and. rewrite (to_int32_small w) by lia.
    change (to_int32 0x1fffffff) with (Z.ones 29).
    rewrite Z.land_ones by lia.
    assert (Hm : w mod 2 ^ 29 = h').
    { rewrite He. subst c. destruct cb.
      - rewrite <- (Z.mul_1_l (2 ^ 29)) at 1.
        rewrite Z.mod_add by lia. apply Z.mod_small. lia.
      - rewrite Z.add_0_r. apply Z.mod_small. lia. }
    rewrite Hm. apply to_int32_small. lia. }
  assert (Hhigh : js_ushr w 29 = if cb then 1 else 0).
  { unfold js_ushr. rewrite to_uint32_small by lia.
    change (29 mod 32) with 29. rewrite Z.shiftr_div_pow2 by lia.
    rewrite He. subst c. destruct cb.
    - rewrite <- (Z.mul_1_l (2 ^ 29)) at 1.
      rewrite Z.div_add by lia. rewrite Z.div_small by lia. reflexivity.
    - rewrite Z.add_0_r. apply Z.div_small. lia. }
  unfold unpack_height. rewrite Hlow, Hhigh. f_equal.
  - subst h'. change 0x1fffffff with (2 ^ 29 - 1).
    destruct (Z.eqb_spec h (-1)) as [->|Hne]; [reflexivity|].
    destruct (Z.eqb_spec h (2 ^ 29 - 1)); [lia | reflexivity].
  - destruct cb; reflexivity.
Qed.


(** ** The CoinEntry record round-trips *)

Section RoundTrip.
Context `{CollaboratorLaws}.

Lemma toWriter_uncached (e : CoinEntry) (bw : list byte) :
  toWriter (uncached e) bw
  = bw ++ writeVarint (version e) []
       ++ writeU32 (pack_height (height e) (coinbase e)) []
       ++ compress_output (output e) [].
Proof.
  unfold toWriter. cbn [raw uncached version height coinbase output].
  fold (pack_height (height e) (coinbase e)).
  rewrite compress_output_app, writeU32_app, writeVarint_app.
  rewrite <- !app_assoc. reflexivity.
Qed.

Lemma toWriter_app (e : CoinEntry) (bw : list byte) :
  serialisable e -> toWriter e bw = bw ++ toWriter (uncached e) [].
Proof.
  intros (_ & _ & _ & Hraw). destruct (raw e) as [r|] eqn:Er.
  - unfold toWriter at 1. rewrite Er. unfold writeBytes.
    rewrite (Hraw r eq_refl). reflexivity.
  - assert (Hu : uncached e = e) by (destruct e; cbn in Er; subst; reflexivity).
    rewrite <- Hu at 1. rewrite !toWriter_uncached. reflexivity.
Qed.

Lemma fromReader_unpack (br : list byte) :
  fromReader br
  = '(v, br) ← readVarint br;
    '(w, br) ← readU32 br;
    '(o, br) ← decompress_output br;
    Some ({| version := v; height := fst (unpack_height w);
             coinbase := snd (unpack_height w);
             output := o; spent := false; raw := None |}, br).
Proof. reflexivity. Qed.

Lemma fromReader_toWriter (e : CoinEntry) (rest : list byte) :
  serialisable e ->
  fromReader (toWriter e [] ++ rest) = Some (decoded e, rest).
Proof.
  intros He. pose proof He as (Hh & Hv & Ho & _).
  rewrite toWriter_app by exact He. rewrite toWriter_uncached.
  cbn [app]. rewrite <- !app_assoc. rewrite fromReader_unpack.
  rewrite readVarint_writeVarint by exact Hv. cbn [mbind option_bind].
  pose proof (pack_height_range (height e) (coinbase e) Hh) as Hr.
  rewrite readU32_writeU32 by lia. cbn [mbind option_bind].
  rewrite decompress_compress by exact Ho. cbn [mbind option_bind].
  rewrite (unpack_pack_height (height e) (coinbase e) Hh).
  reflexivity.
Qed.

Lemma serialisable_decoded (e : CoinEntry) :
  serialisable e -> serialisable (decoded e).
Proof.
  intros (Hh & Hv & Ho & _). repeat split; try assumption; cbn; try lia.
  intros r Hr. discriminate Hr.
Qed.

Lemma getSize_toWriter (e : CoinEntry) :
  serialisable e -> getSize e = length (toWriter e []).
Proof.
  intros He. pose proof He as (_ & _ & _ & Hraw).
  unfold getSize. destruct (raw e) as [r|] eqn:Er.
  - unfold toWriter. rewrite Er. reflexivity.
  - rewrite toWriter_app by exact He. rewrite toWriter_uncached.
    cbn [app]. rewrite !length_app, writeU32_length.
    rewrite sizeVarint_length, compress_size_length. lia.
Qed.

End RoundTrip.

(** ** The instance satisfies the laws *)

Module DemoLaws.
Import Demo.
#[local] Existing Instance demo.

Lemma demo_compress_app (o : Output) (bw : list byte) :
  demo_compress o bw
  = bw ++ writeU32 (value o) []
       ++ writeU32 (Z.of_nat (length (script o))) [] ++ script o.
Proof.
  unfold demo_compress, writeBytes.
  rewrite (writeU32_app _ (writeU32 _ _)), (writeU32_app _ bw).
  rewrite <- !app_assoc. reflexivity.
Qed.

Lemma demo_decompress_compress (o : Output) (rest : list byte) :
  0 <= value o < 2 ^ 32 /\ Z.of_nat (length (script o)) < 2 ^ 32 ->
  demo_decompress (demo_compress o [] ++ rest) = Some (o, rest).
Proof.
  intros [Hv Hl]. rewrite demo_compress_app. unfold demo_decompress.
  cbn [app]. rewrite <- !app_assoc.
  rewrite readU32_writeU32 by exact Hv. cbn [mbind option_bind].
  rewrite readU32_writeU32 by lia. cbn [mbind option_bind].
  rewrite Nat2Z.id. rewrite decide_True by (rewrite length_app; lia).
  rewrite take_app_length, drop_app_length. destruct o; reflexivity.
Qed.

Lemma demo_laws : @CollaboratorLaws demo.
Proof.
  split.
  - intros v bw. reflexivity.
  - intros v rest Hv. apply readU32_writeU32. exact Hv.
  - intros v. reflexivity.
  - intros o bw. change (demo_compress o bw = bw ++ demo_compress o []).
    rewrite !demo_compress_app. reflexivity.
  - intros o rest Ho. apply demo_decompress_compress. exact Ho.
  - intros o.
    change ((8 + length (script o))%nat = length (demo_compress o [])).
    rewrite demo_compress_app. cbn [app].
    rewrite !length_app, !writeU32_length. lia.
Qed.

End DemoLaws.

(** ** Slots of a bucket *)

Section CoinsFacts.
Context `{Collaborators}.

Lemma Coins_get_slot (i : nat) (c : Coins) :
  Coins_get i c = match slot c i with
                  | Some l => obj l
                  | None => if decide (length (c_outputs c) <= i)%nat
                            then undefined else null
                  end.
Proof.
  unfold Coins_get, slot. destruct (decide _) as [Hge|Hlt].
  - rewrite lookup_ge_None_2 by lia. reflexivity.
  - destruct (c_outputs c !! i) as [[l|]|]; reflexivity.
Qed.

Lemma Coins_get_obj (i : nat) (c : Coins) (l : loc) :
  Coins_get i c = obj l <-> slot c i = Some l.
Proof.
  rewrite Coins_get_slot. destruct (slot c i); [|destruct (decide _)];
    split; congruence.
Qed.

Lemma Coins_get_nothing (i : nat) (c : Coins) :
  truthy (Coins_get i c) = false <-> slot c i = None.
Proof.
  rewrite Coins_get_slot. destruct (slot c i); [|destruct (decide _)];
    split; cbn; congruence.
Qed.

Lemma Coins_has_slot (i : nat) (c : Coins) :
  Coins_has i c = bool_decide (is_Some (slot c i)).
Proof.
  unfold Coins_has, slot. destruct (decide _) as [Hge|Hlt].
  - rewrite lookup_ge_None_2 by lia. reflexivity.
  - destruct (c_outputs c !! i) as [[l|]|]; reflexivity.
Qed.

Lemma Coins_isUnspent_slot (s : list CoinEntry) (i : nat) (c : Coins) :
  Coins_isUnspent s i c = match slot c i with
                          | Some l => negb (spent (deref s l))
                          | None => false
                          end.
Proof.
  unfold Coins_isUnspent, slot. destruct (decide _) as [Hge|Hlt].
  - rewrite lookup_ge_None_2 by lia. reflexivity.
  - destruct (c_outputs c !! i) as [[l|]|]; reflexivity.
Qed.

Lemma slot_ge (c : Coins) (i : nat) :
  (length (c_outputs c) <= i)%nat -> slot c i = None.
Proof. intros Hge. unfold slot. rewrite lookup_ge_None_2 by lia. reflexivity. Qed.

(** [Coins.add] on a free slot: it takes the entry, the others keep
    theirs. *)
Lemma Coins_add_free (i : nat) (l : loc) (c : Coins) :
  slot c i = None ->
  exists c', Coins_add i l c = (Ret tt, c') /\ c_hash c' = c_hash c /\
    forall j, slot c' j = if decide (j = i) then Some l else slot c j.
Proof.
  intros Hfree. unfold Coins_add.
  set (outs := c_outputs c ++ replicate (S i - length (c_outputs c)) None).
  assert (Hlen : (i < length outs)%nat).
  { subst outs. rewrite length_app, length_replicate. lia. }
  assert (Houts : forall j, default None (outs !! j) = slot c j).
  { intros j. subst outs. unfold slot.
    destruct (decide (j < length (c_outputs c))%nat) as [Hj|Hj].
    - rewrite lookup_app_l by exact Hj. reflexivity.
    - rewrite lookup_app_r by lia.
      rewrite (lookup_ge_None_2 (c_outputs c)) by lia.
      destruct (replicate _ _ !! _) as [x|] eqn:E; [|reflexivity].
      apply lookup_replicate in E as [-> _]. reflexivity. }
  assert (Hi : outs !! i = Some None).
  { destruct (lookup_lt_is_Some_2 outs i Hlen) as [x Hx].
    specialize (Houts i). rewrite Hx, Hfree in Houts. cbn in Houts.
    rewrite Hx. congruence. }
  rewrite Hi. eexists. split; [reflexivity|]. split; [reflexivity|].
  intros j. unfold slot at 1. cbn [c_outputs].
  destruct (decide (j = i)) as [->|Hne].
  - rewrite list_lookup_insert_eq by exact Hlen. reflexivity.
  - rewrite list_lookup_insert_ne by congruence. apply Houts.
Qed.

Lemma deref_lookup (s : list CoinEntry) (l : loc) (e : CoinEntry) :
  s !! l = Some e -> deref s l = e.
Proof. intros Hl. unfold deref. rewrite Hl. reflexivity. Qed.

Lemma deref_insert_eq (s : list CoinEntry) (l : loc) (e : CoinEntry) :
  (l < length s)%nat -> deref (<[l := e]> s) l = e.
Proof.
  intros Hl. unfold deref. rewrite list_lookup_insert_eq by exact Hl.
  reflexivity.
Qed.

Lemma deref_insert_ne (s : list CoinEntry) (l l' : loc) (e : CoinEntry) :
  l <> l' -> deref (<[l := e]> s) l' = deref s l'.
Proof.
  intros Hne. unfold deref. rewrite list_lookup_insert_ne by exact Hne.
  reflexivity.
Qed.

Lemma deref_app_l (s : list CoinEntry) (e : CoinEntry) (l : loc) :
  (l < length s)%nat -> deref (s ++ [e]) l = deref s l.
Proof.
  intros Hl. unfold deref. rewrite lookup_app_l by exact Hl. reflexivity.
Qed.

Lemma deref_app_new (s : list CoinEntry) (e : CoinEntry) :
  deref (s ++ [e]) (length s) = e.
Proof.
  unfold deref. rewrite lookup_app_r by lia.
  rewrite Nat.sub_diag. reflexivity.
Qed.

(** [Coins.spend], by cases on the slot. *)
Lemma Coins_spend_unspent (s : list CoinEntry) (i : nat) (c : Coins) (l : loc) :
  slot c i = Some l -> spent (deref s l) = false ->
  Coins_spend s i c = (Some l, <[l := set_spent (deref s l)]> s).
Proof.
  intros Hs Hu. unfold Coins_spend.
  rewrite (proj2 (Coins_get_obj i c l) Hs), Hu. reflexivity.
Qed.

Lemma Coins_spend_fail (s : list CoinEntry) (i : nat) (c : Coins) :
  Coins_isUnspent s i c = false -> Coins_spend s i c = (None, s).
Proof.
  rewrite Coins_isUnspent_slot. unfold Coins_spend. rewrite Coins_get_slot.
  destruct (slot c i) as [l|].
  - intros Hs. apply negb_false_iff in Hs. rewrite Hs. reflexivity.
  - intros _. destruct (decide _); reflexivity.
Qed.

End CoinsFacts.

(** ** The unspent length of a bucket *)

Section Length.
Context `{Collaborators}.

Lemma length_loop_le (s : list CoinEntry) (c : Coins) (n : nat) :
  (length_loop s c n <= n)%nat.
Proof.
  induction n as [|n IH]; cbn; [lia|]. destruct (Coins_isUnspent s n c); lia.
Qed.

Lemma length_loop_above (s : list CoinEntry) (c : Coins) (n j : nat) :
  (length_loop s c n <= j < n)%nat -> Coins_isUnspent s j c = false.
Proof.
  induction n as [|n IH]; cbn; [lia|].
  destruct (Coins_isUnspent s n c) eqn:E; [lia|]. intros Hj.
  destruct (decide (j = n)) as [->|Hne]; [exact E|]. apply IH. lia.
Qed.

Lemma length_loop_top (s : list CoinEntry) (c : Coins) (n k : nat) :
  length_loop s c n = S k -> Coins_isUnspent s k c = true.
Proof.
  induction n as [|n IH]; cbn; [discriminate|].
  destruct (Coins_isUnspent s n c) eqn:E; [|exact IH].
  intros [= <-]. exact E.
Qed.

Lemma length_loop_intro (s : list CoinEntry) (c : Coins) (n m : nat) :
  (m <= n)%nat ->
  (forall k, m = S k -> Coins_isUnspent s k c = true) ->
  (forall j, (m <= j < n)%nat -> Coins_isUnspent s j c = false) ->
  length_loop s c n = m.
Proof.
  intros Hle Htop Habove. induction n as [|n IH]; cbn; [lia|].
  destruct (decide (m = S n)) as [->|Hne].
  - rewrite (Htop n eq_refl). reflexivity.
  - rewrite (Habove n) by lia. apply IH; [lia|]. intros j Hj. apply Habove. lia.
Qed.

Lemma Coins_isUnspent_length (s : list CoinEntry) (c : Coins) (i : nat) :
  Coins_isUnspent s i c = true -> (S i <= Coins_length s c)%nat.
Proof.
  intros Hu. unfold Coins_length.
  destruct (decide (S i <= length_loop s c (length (c_outputs c)))%nat)
    as [Hle|Hgt]; [exact Hle|].
  assert (Hi : (i < length (c_outputs c))%nat).
  { destruct (decide (i < length (c_outputs c))%nat) as [Hi|Hi]; [exact Hi|].
    rewrite Coins_isUnspent_slot, slot_ge in Hu by lia. discriminate. }
  rewrite (length_loop_above s c (length (c_outputs c)) i) in Hu by lia.
  discriminate.
Qed.

(** The flags after a spend, when the entry spent sits in one slot only. *)
Lemma Coins_isUnspent_spend (s : list CoinEntry) (c : Coins) (i j : nat) (l : loc) :
  slot c i = Some l -> (l < length s)%nat ->
  (forall k, k <> i -> slot c k <> Some l) ->
  Coins_isUnspent (<[l := set_spent (deref s l)]> s) j c
  = if decide (j = i) then false else Coins_isUnspent s j c.
Proof.
  intros Hs Hl Hone. rewrite !Coins_isUnspent_slot.
  destruct (decide (j = i)) as [->|Hne].
  - rewrite Hs, deref_insert_eq by exact Hl. reflexivity.
  - destruct (slot c j) as [l'|] eqn:E; [|reflexivity].
    rewrite deref_insert_ne; [reflexivity|].
    intros ->. exact (Hone j Hne E).
Qed.

Lemma Coins_isUnspent_spend_le (s : list CoinEntry) (c : Coins) (j : nat) (l : loc) :
  Coins_isUnspent s j c = false ->
  Coins_isUnspent (<[l := set_spent (deref s l)]> s) j c = false.
Proof.
  rewrite !Coins_isUnspent_slot. destruct (slot c j) as [l'|]; [|done].
  intros Hs. apply negb_false_iff in Hs. apply negb_false_iff.
  destruct (decide (l = l')) as [->|Hne].
  - destruct (decide (l' < length s)%nat) as [Hl|Hl].
    + rewrite deref_insert_eq by exact Hl. reflexivity.
    + rewrite list_insert_ge by lia. exact Hs.
  - rewrite deref_insert_ne by exact Hne. exact Hs.
Qed.

Lemma Coins_length_spec (s : list CoinEntry) (c : Coins) :
  (forall k, Coins_length s c = S k -> Coins_isUnspent s k c = true) /\
  (forall j, (Coins_length s c <= j)%nat -> Coins_isUnspent s j c = false).
Proof.
  split.
  - intros k. apply length_loop_top.
  - intros j Hj.
    destruct (decide (j < length (c_outputs c))%nat) as [Hlt|Hge].
    + apply (length_loop_above s c (length (c_outputs c))).
      unfold Coins_length in Hj. lia.
    + rewrite Coins_isUnspent_slot, slot_ge by lia. reflexivity.
Qed.

Lemma Coins_length_spend_final_lt (s : list CoinEntry) (c : Coins) (k : nat) :
  slots_in_store s c -> Coins_length s c = S k ->
  (Coins_length (snd (Coins_spend s k c)) c <= k)%nat.
Proof.
  intros Hin Hlen.
  pose proof (proj1 (Coins_length_spec s c) k Hlen) as Hk.
  pose proof Hk as Hk'. rewrite Coins_isUnspent_slot in Hk'.
  destruct (slot c k) as [l|] eqn:Es; [|discriminate].
  apply negb_true_iff in Hk'.
  rewrite (Coins_spend_unspent s k c l Es Hk'). cbn [snd].
  set (s' := <[l := set_spent (deref s l)]> s).
  destruct (decide (Coins_length s' c <= k)%nat) as [Hle|Hgt]; [exact Hle|].
  destruct (Coins_length s' c) as [|m] eqn:Em; [lia|].
  pose proof (proj1 (Coins_length_spec s' c) m Em) as Hm.
  destruct (decide (m = k)) as [->|Hne].
  - rewrite Coins_isUnspent_slot, Es in Hm. subst s'.
    rewrite deref_insert_eq in Hm by (eapply Hin; exact Es). discriminate.
  - assert (Hf : Coins_isUnspent s m c = false).
    { apply (proj2 (Coins_length_spec s c)). lia. }
    subst s'. rewrite (Coins_isUnspent_spend_le s c m l Hf) in Hm. discriminate.
Qed.

Lemma slots_in_store_spend (s : list CoinEntry) (c : Coins) (k : nat) :
  slots_in_store s c -> slots_in_store (snd (Coins_spend s k c)) c.
Proof.
  intros Hin i l Hs. specialize (Hin i l Hs). unfold Coins_spend.
  destruct (Coins_get k c) as [| |l']; cbn; try exact Hin.
  destruct (spent (deref s l')); cbn; [exact Hin|].
  rewrite length_insert. exact Hin.
Qed.

Lemma spend_final_empty (n : nat) (s : list CoinEntry) (c : Coins) :
  slots_in_store s c -> (Coins_length s c <= n)%nat ->
  Coins_length (spend_final n s c) c = 0%nat.
Proof.
  revert s. induction n as [|n IH]; intros s Hin Hle; cbn.
  - lia.
  - destruct (Coins_length s c) as [|k] eqn:Ek; [exact Ek|].
    apply IH.
    + apply slots_in_store_spend. exact Hin.
    + pose proof (Coins_length_spend_final_lt s c k Hin Ek). lia.
Qed.

End Length.


(** ** The record of a CoinEntry *)

Lemma unpack_height_small (w : Z) :
  0 <= w < 2 ^ 30 ->
  unpack_height w
  = (if w mod 2 ^ 29 =? 2 ^ 29 - 1 then -1 else w mod 2 ^ 29,
     negb (w / 2 ^ 29 =? 0)).
Proof.
  intros Hw. unfold unpack_height.
  assert (Hlow : js_and w 0x1fffffff = w mod 2 ^ 29).
  { unfold js_and. rewrite (to_int32_small w) by lia.
    change (to_int32 0x1fffffff) with (Z.ones 29).
    rewrite Z.land_ones by lia. apply to_int32_small.
    pose proof (Z.mod_pos_bound w (2 ^ 29)). lia. }
  assert (Hhigh : js_ushr w 29 = w / 2 ^ 29).
  { unfold js_ushr. rewrite to_uint32_small by lia.
    change (29 mod 32) with 29. apply Z.shiftr_div_pow2. lia. }
  rewrite Hlow, Hhigh. change 0x1fffffff with (2 ^ 29 - 1). f_equal.
  assert (Hc : w / 2 ^ 29 = 0 \/ w / 2 ^ 29 = 1).
  { assert (0 <= w / 2 ^ 29 < 2); [|lia]. split.
    - apply Z.div_pos; lia.
    - apply Z.div_lt_upper_bound; lia. }
  destruct Hc as [-> | ->]; reflexivity.
Qed.

Lemma pack_unpack_height (w : Z) :
  0 <= w < 2 ^ 30 ->
  -1 <= fst (unpack_height w) <= 2 ^ 29 - 2 /\
  pack_height (fst (unpack_height w)) (snd (unpack_height w)) = w.
Proof.
  intros Hw. rewrite unpack_height_small by exact Hw. cbn [fst snd].
  pose proof (Z.mod_pos_bound w (2 ^ 29) ltac:(lia)) as Hm.
  pose proof (Z.div_mod w (2 ^ 29) ltac:(lia)) as Hd.
  assert (Hc : w / 2 ^ 29 = 0 \/ w / 2 ^ 29 = 1).
  { assert (0 <= w / 2 ^ 29 < 2); [|lia]. split.
    - apply Z.div_pos; lia.
    - apply Z.div_lt_upper_bound; lia. }
  set (h := if w mod 2 ^ 29 =? 2 ^ 29 - 1 then -1 else w mod 2 ^ 29).
  assert (Hh : -1 <= h <= 2 ^ 29 - 2).
  { subst h. destruct (Z.eqb_spec (w mod 2 ^ 29) (2 ^ 29 - 1)); lia. }
  split; [exact Hh|]. rewrite pack_height_eq by exact Hh.
  assert (Hh' : (if h =? -1 then 2 ^ 29 - 1 else h) = w mod 2 ^ 29).
  { subst h. destruct (Z.eqb_spec (w mod 2 ^ 29) (2 ^ 29 - 1)) as [E|E].
    - rewrite E. reflexivity.
    - destruct (Z.eqb_spec (w mod 2 ^ 29) (-1)); [lia|reflexivity]. }
  rewrite Hh'. destruct Hc as [Hc|Hc]; rewrite Hc in *; cbn [Z.eqb negb]; lia.
Qed.

Lemma pack_height_bits (h : Z) (cb : bool) :
  -1 <= h <= 2 ^ 29 - 2 ->
  pack_height h cb mod 2 ^ 29 = (if h =? -1 then 0x1fffffff else h) /\
  Z.testbit (pack_height h cb) 29 = cb.
Proof.
  intros Hh. rewrite pack_height_eq by exact Hh.
  change 0x1fffffff with (2 ^ 29 - 1).
  set (h' := if h =? -1 then 2 ^ 29 - 1 else h).
  assert (Hh' : 0 <= h' < 2 ^ 29).
  { subst h'. destruct (Z.eqb_spec h (-1)); lia. }
  split.
  - destruct cb.
    + rewrite <- (Z.mul_1_l (2 ^ 29)) at 1.
      rewrite Z.mod_add by lia. apply Z.mod_small. lia.
    + rewrite Z.add_0_r. apply Z.mod_small. lia.
  - rewrite Z.testbit_odd, Z.shiftr_div_pow2 by lia. destruct cb.
    + rewrite <- (Z.mul_1_l (2 ^ 29)) at 1.
      rewrite Z.div_add by lia. rewrite Z.div_small by lia. reflexivity.
    + rewrite Z.add_0_r, Z.div_small by lia. reflexivity.
Qed.

Section Record.
Context `{CollaboratorLaws}.

Lemma toWriter_decoded (e : CoinEntry) (bw : list byte) :
  toWriter (decoded e) bw = toWriter (uncached e) bw.
Proof. reflexivity. Qed.

(** C2.  For an entry of the record format (height between -1 and 2^29-2,
    either coinbase flag), [toWriter] writes the varint of the version, then
    the 32-bit word with the height in bits 0 to 28 (0x1fffffff for -1) and
    the coinbase flag in bit 29, then the output of the codec; [fromReader]
    reads the same version, height and coinbase back and stops at the end
    of the record, and writing the entry read gives the same bytes.  The
    packing is one-to-one on that domain and every 30-bit word is the
    packing of a height and a flag of the domain. *)
Theorem CoinEntry_record_roundtrip (e : CoinEntry) (rest : list byte) :
  serialisable e ->
  let w := pack_height (height e) (coinbase e) in
  (0 <= w < 2 ^ 30 /\
   w mod 2 ^ 29 = (if height e =? -1 then 0x1fffffff else height e) /\
   Z.testbit w 29 = coinbase e) /\
  unpack_height w = (height e, coinbase e) /\
  (forall h cb, -1 <= h <= 2 ^ 29 - 2 ->
     pack_height h cb = w -> h = height e /\ cb = coinbase e) /\
  (forall w', 0 <= w' < 2 ^ 30 ->
     -1 <= fst (unpack_height w') <= 2 ^ 29 - 2 /\
     pack_height (fst (unpack_height w')) (snd (unpack_height w')) = w') /\
  toWriter (uncached e) []
  = writeVarint (version e) [] ++ writeU32 w [] ++ compress_output (output e) [] /\
  exists e',
    fromReader (toWriter e [] ++ rest) = Some (e', rest) /\
    version e' = version e /\ height e' = height e /\
    coinbase e' = coinbase e /\ output e' = output e /\
    toWriter e' [] = toWriter e [].
Proof.
  intros He w. pose proof He as (Hh & _).
  pose proof (pack_height_bits (height e) (coinbase e) Hh) as [Hlow Hbit].
  pose proof (unpack_pack_height (height e) (coinbase e) Hh) as Hu.
  split; [|split; [|split; [|split; [|split]]]].
  - split; [apply pack_height_range; exact Hh|]. split; assumption.
  - exact Hu.
  - intros h cb Hr Hp.
    pose proof (unpack_pack_height h cb Hr) as Hu'.
    rewrite Hp in Hu'. fold w in Hu. rewrite Hu in Hu'.
    split; congruence.
  - apply pack_unpack_height.
  - apply (toWriter_uncached e []).
  - exists (decoded e). split; [apply fromReader_toWriter; exact He|].
    repeat split.
    rewrite toWriter_decoded. symmetry. apply (toWriter_app e []). exact He.
Qed.

End Record.

Section RecordExample.
Import Demo DemoLaws Scenario.
#[local] Existing Instance demo.
#[local] Existing Instance demo_laws.

Lemma entry1_serialisable : serialisable entry1.
Proof.
  unfold serialisable, entry1, pay. cbn [height version output raw].
  split; [lia|]. split; [lia|]. split.
  - unfold encodable, demo. cbn [value script length]. lia.
  - intros r Hr. discriminate Hr.
Qed.

Lemma CoinEntry_record_roundtrip_witness :
  serialisable entry1 /\
  unpack_height (pack_height (height entry1) (coinbase entry1))
  = (height entry1, coinbase entry1) /\
  exists e',
    fromReader (toWriter entry1 [] ++ [Byte.x00]) = Some (e', [Byte.x00]) /\
    version e' = version entry1 /\ height e' = height entry1 /\
    coinbase e' = coinbase entry1 /\ output e' = output entry1 /\
    toWriter e' [] = toWriter entry1 [].
Proof.
  split; [exact entry1_serialisable|].
  destruct (CoinEntry_record_roundtrip entry1 [Byte.x00] entry1_serialisable)
    as (_ & Hu & _ & _ & _ & Hex).
  split; [exact Hu | exact Hex].
Defined.

End RecordExample.

(** ** Spending from a bucket *)

Section Spend.
Context `{Collaborators}.

Lemma with_store_same (st : State) : with_store st (store st) = st.
Proof. destruct st; reflexivity. Qed.

Lemma with_map_same (st : State) : with_map st (view_map st) = st.
Proof. destruct st; reflexivity. Qed.

Lemma spendFrom_fail (st : State) (coins : Coins) (index : nat) :
  Coins_isUnspent (store st) index coins = false ->
  spendFrom coins index st = (Ret false, st).
Proof.
  intros Hu. unfold spendFrom. rewrite Coins_spend_fail by exact Hu.
  rewrite with_store_same. reflexivity.
Qed.

(** C3.  [spendFrom(coins, index)] on a slot that is missing (past the end
    or [null]) or whose entry is already spent returns false and leaves the
    state as it is: the store of entries, the map and the undo stack.  On a
    slot that holds an unspent entry it returns true, writes the spent flag
    of that entry and of no other, and pushes that one entry on the undo
    stack of the view. *)
Theorem spendFrom_spec (st : State) (coins : Coins) (index : nat) :
  (truthy (Coins_get index coins) = false ->
     spendFrom coins index st = (Ret false, st)) /\
  (forall l, Coins_get index coins = obj l ->
     spent (deref (store st) l) = true ->
     spendFrom coins index st = (Ret false, st)) /\
  (forall l e, Coins_get index coins = obj l ->
     store st !! l = Some e -> spent e = false ->
     exists st',
       spendFrom coins index st = (Ret true, st') /\
       store st' = <[l := set_spent e]> (store st) /\
       store st' !! l = Some (set_spent e) /\
       (forall l', l' <> l -> store st' !! l' = store st !! l') /\
       view_map st' = view_map st /\
       undo st' = undo st ++ [l] /\
       Coins_isUnspent (store st') index coins = false).
Proof.
  split; [|split].
  - intros Hn. apply spendFrom_fail. rewrite Coins_isUnspent_slot.
    rewrite (proj1 (Coins_get_nothing index coins) Hn). reflexivity.
  - intros l Hg Hs. apply spendFrom_fail. rewrite Coins_isUnspent_slot.
    rewrite (proj1 (Coins_get_obj index coins l) Hg), Hs. reflexivity.
  - intros l e Hg Hl Hs. apply Coins_get_obj in Hg.
    pose proof (deref_lookup _ _ _ Hl) as Hd.
    assert (Hlt : (l < length (store st))%nat) by (eapply lookup_lt_Some; exact Hl).
    unfold spendFrom. rewrite (Coins_spend_unspent _ _ _ l Hg) by congruence.
    rewrite Hd. eexists. split; [reflexivity|]. cbn [store view_map undo with_store with_undo].
    split; [reflexivity|]. split; [apply list_lookup_insert_eq; exact Hlt|].
    split; [intros l' Hne; apply list_lookup_insert_ne; congruence|].
    split; [reflexivity|]. split; [reflexivity|].
    rewrite Coins_isUnspent_slot, Hg, deref_insert_eq by exact Hlt. reflexivity.
Qed.

End Spend.

(** ** Reading a bucket *)

Section Read.
Context `{Collaborators}.

(** Past the end of the outputs the three accessors return nothing. *)
Lemma Coins_read_past_end (s : list CoinEntry) (c : Coins) (i : nat) :
  (length (c_outputs c) <= i)%nat ->
  Coins_get i c = undefined /\ Coins_getOutput s i c = Ret None /\
  Coins_getCoin s (inl i) c = Ret None.
Proof.
  intros Hge. unfold Coins_get, Coins_getOutput, Coins_getCoin.
  rewrite !decide_True by exact Hge. auto.
Qed.

(** On a slot that holds an entry they return it, its output and its coin. *)
Lemma Coins_read_entry (s : list CoinEntry) (c : Coins) (i : nat) (l : loc) :
  c_outputs c !! i = Some (Some l) ->
  Coins_get i c = obj l /\
  Coins_getOutput s i c = Ret (Some (output (deref s l))) /\
  Coins_getCoin s (inl i) c = Ret (Some (toCoin (deref s l) (c_hash c) i)).
Proof.
  intros Hs. pose proof (lookup_lt_Some _ _ _ Hs) as Hlt.
  unfold Coins_get, Coins_getOutput, Coins_getCoin.
  rewrite !decide_False by lia. rewrite Hs. auto.
Qed.

(** C7.  On an interior hole, a [null] slot with an entry after it, [get]
    returns [null], and both [getOutput] and [getCoin] throw a TypeError:
    they call a method on the [null] slot. *)
Theorem Coins_accessors_on_hole (s : list CoinEntry) (h : string) (l : loc)
    (rest : list (option loc)) :
  let c := {| c_hash := h; c_outputs := None :: Some l :: rest |} in
  Coins_get 0 c = null /\
  Coins_getOutput s 0 c = Throw TypeError /\
  Coins_getCoin s (inl 0%nat) c = Throw TypeError.
Proof. cbn. auto. Qed.

Lemma view_read_absent (st : State) (input : Input) :
  view_get (hash (prevout input)) st = None ->
  getEntry input st = undefined /\ getCoin input st = Ret None /\
  getOutput input st = Ret None.
Proof.
  intros Hn. unfold getEntry, getCoin, getOutput. rewrite Hn. auto.
Qed.

Lemma view_getEntry_cached (st : State) (input : Input) (coins : Coins) (l : loc) :
  view_get (hash (prevout input)) st = Some coins ->
  c_outputs coins !! index (prevout input) = Some (Some l) ->
  getEntry input st = obj l /\
  getOutput input st = Ret (Some (output (deref (store st) l))).
Proof.
  intros Hc Hs. unfold getEntry, getOutput. rewrite Hc.
  destruct (Coins_read_entry (store st) coins _ l Hs) as (-> & -> & _). auto.
Qed.

(** C6.  With a bucket cached for the hash of the input, [getCoin(input)]
    throws a TypeError whatever the bucket holds: it passes the outpoint
    where [Coins.getCoin] takes an index.  [getOutput(input)] throws a
    TypeError when the slot of the input is a hole of a cached bucket. *)
Theorem view_getCoin_throws (st : State) (input : Input) (coins : Coins)
    (h : string) (l : loc) (rest : list (option loc)) :
  getCoin input
    (with_map st (<[hash (prevout input) := coins]> (view_map st)))
  = Throw TypeError /\
  getOutput (mkInput (mkOutpoint h 0))
    (with_map st (<[h := {| c_hash := h; c_outputs := None :: Some l :: rest |}]>
                    (view_map st)))
  = Throw TypeError.
Proof.
  unfold getCoin, getOutput, view_get. cbn [view_map with_map prevout hash index].
  rewrite !lookup_insert_eq. cbn. auto.
Qed.

End Read.

(** ** Spending and the unspent length *)

Section LengthSpend.

Lemma slot_lt (c : Coins) (i : nat) (l : loc) :
  slot c i = Some l -> (i < length (c_outputs c))%nat.
Proof.
  intros Hs. destruct (decide (i < length (c_outputs c))%nat) as [Hi|Hi];
    [exact Hi|]. rewrite slot_ge in Hs by lia. discriminate.
Qed.

(** C8, as the code has it.  For every bucket [length()] is one past the
    highest index that holds an unspent entry, and 0 if there is none.
    Spending an unspent entry that no other slot of the bucket holds leaves
    [length()] as it is when the index is below the final unspent one; at
    the final unspent index it brings [length()] down to what the loop of
    [length()] finds below that index, one past the highest unspent index
    that is left: a shrink by at least one, and by exactly one when the
    slot just below holds an unspent entry.  Spending the final unspent
    index again and again empties the bucket. *)
Theorem Coins_length_spend (s : list CoinEntry) (c : Coins) :
  ((forall k, Coins_length s c = S k -> Coins_isUnspent s k c = true) /\
   (forall j, (Coins_length s c <= j)%nat -> Coins_isUnspent s j c = false) /\
   ((forall j, Coins_isUnspent s j c = false) -> Coins_length s c = 0%nat)) /\
  (forall i l e,
     Coins_get i c = obj l -> s !! l = Some e -> spent e = false ->
     (forall k, k <> i -> slot c k <> Some l) ->
     let s' := snd (Coins_spend s i c) in
     (S i <= Coins_length s c)%nat /\
     ((S i < Coins_length s c)%nat ->
        Coins_length s' c = Coins_length s c) /\
     (S i = Coins_length s c ->
        Coins_length s' c = length_loop s c i /\
        (Coins_length s' c < Coins_length s c)%nat /\
        (forall k, Coins_length s' c = S k ->
           (k < i)%nat /\ Coins_isUnspent s' k c = true) /\
        (forall j, (Coins_length s' c <= j)%nat ->
           Coins_isUnspent s' j c = false) /\
        (forall k, i = S k -> Coins_isUnspent s k c = true ->
           S (Coins_length s' c) = Coins_length s c))) /\
  (slots_in_store s c ->
   Coins_length (spend_final (Coins_length s c) s c) c = 0%nat).
Proof.
  pose proof (Coins_length_spec s c) as [Htop Habove].
  pose proof (length_loop_le s c (length (c_outputs c))) as Hle.
  fold (Coins_length s c) in Hle.
  split; [|split].
  - split; [exact Htop|]. split; [exact Habove|].
    intros Hnone. destruct (Coins_length s c) as [|k] eqn:Ek; [reflexivity|].
    specialize (Htop k eq_refl). rewrite (Hnone k) in Htop. discriminate.
  - intros i l e Hg Hl Hu Hone s'. apply Coins_get_obj in Hg.
    pose proof (deref_lookup _ _ _ Hl) as Hd.
    pose proof (lookup_lt_Some _ _ _ Hl) as Hlt.
    pose proof (slot_lt c i l Hg) as Hi.
    assert (Hs' : s' = <[l := set_spent (deref s l)]> s).
    { subst s'. rewrite (Coins_spend_unspent s i c l Hg) by congruence.
      reflexivity. }
    assert (Hflag : forall j, Coins_isUnspent s' j c
                              = if decide (j = i) then false
                                else Coins_isUnspent s j c).
    { intros j. rewrite Hs'. apply Coins_isUnspent_spend; assumption. }
    assert (Hiu : Coins_isUnspent s i c = true).
    { rewrite Coins_isUnspent_slot, Hg, Hd, Hu. reflexivity. }
    split; [apply Coins_isUnspent_length; exact Hiu|]. split.
    + intros Hlow. unfold Coins_length at 1. apply length_loop_intro.
      * exact Hle.
      * intros k Hk. rewrite Hflag, decide_False by lia. apply Htop. exact Hk.
      * intros j Hj. rewrite Hflag. destruct (decide (j = i)); [reflexivity|].
        apply Habove. lia.
    + intros Hfin.
      assert (Hloop : Coins_length s' c = length_loop s c i).
      { pose proof (length_loop_le s c i) as Hle'.
        unfold Coins_length at 1. apply length_loop_intro.
        - lia.
        - intros k Hk. rewrite Hflag, decide_False by lia.
          apply (length_loop_top s c i). exact Hk.
        - intros j Hj. rewrite Hflag. destruct (decide (j = i)); [reflexivity|].
          destruct (decide (j < i)%nat) as [Hji|Hji].
          + apply (length_loop_above s c i). lia.
          + apply Habove. lia. }
      pose proof (length_loop_le s c i) as Hle'.
      pose proof (Coins_length_spec s' c) as [Htop' Habove'].
      split; [exact Hloop|]. split; [lia|]. split; [|split].
      * intros k Hk. split; [lia|]. apply Htop'. exact Hk.
      * exact Habove'.
      * intros k -> Hk. rewrite Hloop. cbn [length_loop]. rewrite Hk.
        exact Hfin.
  - intros Hin. apply spend_final_empty; [exact Hin | lia].
Qed.

End LengthSpend.

Section LengthExample.
Import Demo Scenario.
#[local] Existing Instance demo.

Lemma addTX_tx_d :
  addTX tx_d 1 (CoinView_new [])
  = (Ret bucket_d,
     {| store := store_d; view_map := {[ "dd" := bucket_d ]}; undo := [] |}).
Proof. vm_compute. reflexivity. Qed.

(** C8 fails as stated: with outputs at 0 and 2 unspent and a hole at 1,
    [length()] is 3, the entry at the final unspent index 2 is spent, and
    [length()] is then 1, not 2. *)
Lemma Coins_length_spend_final_counterexample :
  Coins_length store_d bucket_d = 3%nat /\
  Coins_isUnspent store_d 2 bucket_d = true /\
  fst (Coins_spend store_d 2 bucket_d) = Some 1%nat /\
  Coins_length (snd (Coins_spend store_d 2 bucket_d)) bucket_d = 1%nat /\
  Coins_length (snd (Coins_spend store_d 2 bucket_d)) bucket_d
  <> (Coins_length store_d bucket_d - 1)%nat.
Proof. vm_compute. repeat split; discriminate. Qed.

(** The restriction to an entry that no other slot holds is needed: with
    one entry in both slots, spending index 0, which is not the final
    unspent index, takes [length()] from 2 to 0. *)
Lemma Coins_length_shared_entry :
  let c := {| c_hash := "aa"; c_outputs := [Some 0; Some 0]%nat |} in
  let s := [ {| version := 1; height := 1; coinbase := false; output := pay;
                spent := false; raw := None |} ] in
  Coins_length s c = 2%nat /\
  fst (Coins_spend s 0 c) = Some 0%nat /\
  Coins_length (snd (Coins_spend s 0 c)) c = 0%nat.
Proof. vm_compute. repeat split. Qed.

(** On the bucket with a hole in the middle and on the bucket of [tx_a]:
    no unspent entry gives 0; a spend below the final unspent index keeps
    the length; a spend of the final index over the hole goes from 3 to 1;
    over an unspent slot it shrinks by one; repeated it empties. *)
Lemma Coins_length_spend_witness :
  Coins_length store_d bucket_d = 3%nat /\
  length_loop store_d bucket_d 2 = 1%nat /\
  Coins_length store_a bucket_a = 2%nat /\
  Coins_length (set_spent <$> store_d) bucket_d = 0%nat /\
  Coins_length (snd (Coins_spend store_d 0 bucket_d)) bucket_d
  = Coins_length store_d bucket_d /\
  Coins_length (snd (Coins_spend store_d 2 bucket_d)) bucket_d
  = length_loop store_d bucket_d 2 /\
  (Coins_length (snd (Coins_spend store_d 2 bucket_d)) bucket_d
   < Coins_length store_d bucket_d)%nat /\
  S (Coins_length (snd (Coins_spend store_a 1 bucket_a)) bucket_a)
  = Coins_length store_a bucket_a /\
  Coins_length (spend_final (Coins_length store_d bucket_d) store_d bucket_d)
    bucket_d = 0%nat.
Proof.
  pose (e := {| version := 1; height := 1; coinbase := false; output := pay;
                spent := false; raw := None |}).
  assert (Hin : slots_in_store store_d bucket_d).
  { intros [|[|[|[|k]]]] l; vm_compute; intros [= <-]; lia. }
  destruct (Coins_length_spend (set_spent <$> store_d) bucket_d)
    as ((_ & _ & Hzero) & _ & _).
  destruct (Coins_length_spend store_d bucket_d) as (_ & Hspend & Hempty).
  destruct (Coins_length_spend store_a bucket_a) as (_ & Hspend_a & _).
  split; [reflexivity|]. split; [reflexivity|]. split; [reflexivity|].
  split.
  { apply Hzero. intros j. rewrite Coins_isUnspent_slot.
    destruct j as [|[|[|j]]]; reflexivity. }
  destruct (Hspend 0%nat 0%nat e eq_refl eq_refl eq_refl) as (_ & Hkeep & _).
  { intros [|[|[|[|k]]]] Hk; vm_compute; congruence. }
  destruct (Hspend 2%nat 1%nat e eq_refl eq_refl eq_refl) as (_ & _ & Hfin).
  { intros [|[|[|[|k]]]] Hk; vm_compute; congruence. }
  destruct (Hspend_a 1%nat 1%nat e eq_refl eq_refl eq_refl) as (_ & _ & Hfin_a).
  { intros [|[|[|k]]] Hk; vm_compute; congruence. }
  destruct (Hfin eq_refl) as (Hloop & Hlt & _).
  destruct (Hfin_a eq_refl) as (_ & _ & _ & _ & Hone).
  split; [apply Hkeep; vm_compute; lia|].
  split; [exact Hloop|]. split; [exact Hlt|].
  split; [apply (Hone 0%nat eq_refl); reflexivity|].
  apply Hempty. exact Hin.
Defined.

End LengthExample.

(** ** Adding to a view *)

Section Add.
Context `{Collaborators}.

Lemma view_has_get (h : string) (st : State) :
  view_has h st = false <-> view_get h st = None.
Proof.
  unfold view_has, view_get. destruct (view_map st !! h) as [c|].
  - rewrite bool_decide_eq_false. split; [intros Hn; destruct Hn; eauto|discriminate].
  - rewrite bool_decide_eq_false. split; [reflexivity|]. intros _ [c Hc]. discriminate.
Qed.

Lemma hasEntry_Coins_new (st : State) (m : gmap string Coins) (p : Outpoint) :
  m !! hash p = Some Coins_new ->
  hasEntry (mkInput p) (with_map st m) = false /\
  truthy (getEntry (mkInput p) (with_map st m)) = false.
Proof.
  intros Hm. unfold hasEntry, getEntry, view_get.
  cbn [prevout view_map with_map]. rewrite Hm.
  unfold Coins_has, Coins_get. cbn [c_outputs Coins_new length].
  rewrite !decide_True by lia. auto.
Qed.

(** C10.  In a view with no bucket for the hash of the outpoint, [addEntry],
    [addOutput] and [addCoin] with an unspendable script install an empty
    bucket under that hash and then return nothing: afterwards [has(hash)]
    is true and the bucket holds no entry.  [readCoin] on an input whose
    coin the backing store supplies with an unspendable script returns
    nothing too, and has installed the same empty bucket. *)
Theorem unspendable_add_installs_bucket (st : State) (p : Outpoint) :
  view_has (hash p) st = false ->
  let m' := <[hash p := Coins_new]> (view_map st) in
  (view_has (hash p) (with_map st m') = true /\
   forall i, hasEntry (mkInput (mkOutpoint (hash p) i)) (with_map st m') = false) /\
  (forall coin,
     isUnspendable (script (output (deref (store st) coin))) = true ->
     addEntry p coin st = (Ret None, with_map st m')) /\
  (forall o,
     isUnspendable (script o) = true ->
     addOutput p o st = (Ret tt, with_map st m')) /\
  (forall coin,
     coin_hash coin = hash p -> isUnspendable (coin_script coin) = true ->
     addCoin coin st = (Ret None, with_map st m')) /\
  (forall (db : ChainDB) input e,
     prevout input = p -> db p = Some e ->
     isUnspendable (script (output e)) = true ->
     readCoin db input st
     = (Ret None, with_map (with_store st (store st ++ [e])) m')).
Proof.
  intros Hhas m'. apply view_has_get in Hhas.
  split; [|split; [|split; [|split]]].
  - split.
    + unfold view_has. cbn [view_map with_map]. subst m'.
      rewrite lookup_insert_eq. apply bool_decide_eq_true. eauto.
    + intros i. apply hasEntry_Coins_new. subst m'. cbn [hash].
      apply lookup_insert_eq.
  - intros coin Hu. unfold addEntry, addEntry_js. cbn [key_of_hash].
    rewrite Hhas. cbn [store with_map]. rewrite Hu. reflexivity.
  - intros o Hu. unfold addOutput. rewrite Hhas, Hu. reflexivity.
  - intros coin Hc Hu. unfold addCoin. rewrite Hc, Hhas, Hu. reflexivity.
  - intros db input e Hp Hdb Hu. unfold readCoin, hasEntry. rewrite Hp, Hhas, Hdb.
    unfold addEntry, addEntry_js. cbn [key_of_hash].
    unfold view_get in *. cbn [view_map with_store store with_map].
    rewrite Hhas. cbn [store with_map with_store]. rewrite deref_app_new, Hu. reflexivity.
Qed.

(** An occupied slot is left as it is: [addEntry] is first-write-wins. *)
Lemma addEntry_occupied (st : State) (p : Outpoint) (coins : Coins) (coin : loc) :
  view_get (hash p) st = Some coins ->
  Coins_has (index p) coins = true ->
  isUnspendable (script (output (deref (store st) coin))) = false ->
  addEntry p coin st = (Ret (Some coins), st).
Proof.
  intros Hc Hh Hu. unfold addEntry, addEntry_js. cbn [key_of_hash].
  rewrite Hc, Hu, Hh. reflexivity.
Qed.

End Add.

(** ** Undoing a spend *)

Section Undo.
Context `{Collaborators}.

(** On an empty stack the assertion of [apply] fails. *)
Lemma undo_apply_empty (st : State) (outpoint : Outpoint) :
  undo st = [] -> undo_apply outpoint st = (Throw AssertionError, st).
Proof.
  intros Hu. unfold undo_apply, UndoCoins_apply. rewrite Hu. cbn [last].
  destruct st; cbn in *; subst; reflexivity.
Qed.

(** C1.  [view.undo.apply(view, outpoint)] on a stack with an entry on top
    pops that entry and then throws a TypeError inside [addEntry], which it
    calls with the hash, the index and the entry where [addEntry] takes an
    outpoint and an entry.  The store of entries is as before the call, so
    no spent flag is cleared, and the map has gained an empty bucket under
    the key "undefined" unless it had one. *)
Theorem undo_apply_throws (st : State) (items : list loc) (l : loc)
    (outpoint : Outpoint) :
  let r := undo_apply outpoint (with_undo st (items ++ [l])) in
  fst r = Throw TypeError /\
  store (snd r) = store st /\
  undo (snd r) = items /\
  view_map (snd r)
  = match view_map st !! "undefined" with
    | Some _ => view_map st
    | None => <["undefined" := Coins_new]> (view_map st)
    end.
Proof.
  unfold undo_apply, UndoCoins_apply. cbn [undo with_undo].
  rewrite last_snoc, removelast_last.
  unfold addEntry_js, view_get. cbn [key_of_hash view_map with_undo].
  destruct (view_map st !! "undefined") as [c|]; cbn; auto.
Qed.

End Undo.

(** ** Removing a transaction *)

Section RemoveTX.

Lemma spent_insert_set_spent (s : list CoinEntry) (l0 l : loc) :
  spent (deref s l) = true ->
  spent (deref (<[l0 := set_spent (deref s l0)]> s) l) = true.
Proof.
  intros Hs. destruct (decide (l0 = l)) as [->|Hne].
  - destruct (decide (l < length s)%nat) as [Hl|Hl].
    + rewrite deref_insert_eq by exact Hl. reflexivity.
    + rewrite list_insert_ge by lia. exact Hs.
  - rewrite deref_insert_ne by exact Hne. exact Hs.
Qed.

Lemma removeTX_loop_keeps_spent (outs : list (option loc)) (s : list CoinEntry)
    (l : loc) :
  spent (deref s l) = true ->
  spent (deref (snd (removeTX_loop outs s)) l) = true.
Proof.
  revert s. induction outs as [|o outs IH]; intros s Hs; [exact Hs|].
  destruct o as [l0|]; [|exact Hs]. cbn [removeTX_loop].
  apply IH. apply spent_insert_set_spent. exact Hs.
Qed.

(** The loop throws on a bucket with a hole. *)
Lemma removeTX_loop_hole (outs : list (option loc)) (s : list CoinEntry) :
  None ∈ outs -> fst (removeTX_loop outs s) = Throw TypeError.
Proof.
  revert s. induction outs as [|o outs IH]; intros s Hin.
  - apply elem_of_nil in Hin. destruct Hin.
  - destruct o as [l|]; [|reflexivity]. cbn [removeTX_loop].
    apply IH. apply elem_of_cons in Hin as [Hin|Hin]; [discriminate|exact Hin].
Qed.

(** On a bucket without holes it marks every entry spent. *)
Lemma removeTX_loop_full (outs : list (option loc)) (s : list CoinEntry) :
  None ∉ outs ->
  fst (removeTX_loop outs s) = Ret tt /\
  length (snd (removeTX_loop outs s)) = length s /\
  forall l, Some l ∈ outs -> (l < length s)%nat ->
    spent (deref (snd (removeTX_loop outs s)) l) = true.
Proof.
  revert s. induction outs as [|o outs IH]; intros s Hno.
  - cbn. split; [reflexivity|]. split; [reflexivity|].
    intros l Hin. apply elem_of_nil in Hin. destruct Hin.
  - destruct o as [l0|]; [|exfalso; apply Hno; left].
    cbn [removeTX_loop].
    assert (Hno' : None ∉ outs) by (intros Hin; apply Hno; right; exact Hin).
    destruct (IH (<[l0 := set_spent (deref s l0)]> s) Hno') as (Hr & Hlen & Hsp).
    rewrite length_insert in Hlen.
    split; [exact Hr|]. split; [exact Hlen|].
    intros l Hin Hl. apply elem_of_cons in Hin as [[= ->]|Hin].
    + apply removeTX_loop_keeps_spent.
      rewrite deref_insert_eq by exact Hl. reflexivity.
    + apply Hsp; [exact Hin|]. rewrite length_insert. exact Hl.
Qed.

End RemoveTX.

Section RemoveTXExample.
Import Demo Scenario.
#[local] Existing Instance demo.

(** C9.  For a transaction whose first output is unspendable and whose
    second is not, [addTX] installs the bucket with a hole at index 0, and
    [removeTX] throws a TypeError on that hole and installs nothing. *)
Theorem removeTX_hole_throws :
  fst (addTX tx_b 1 (CoinView_new []))
  = Ret {| c_hash := "bb"; c_outputs := [None; Some 0%nat] |} /\
  fst (removeTX tx_b 1 (CoinView_new [])) = Throw TypeError /\
  view_has "bb" (snd (removeTX tx_b 1 (CoinView_new []))) = false.
Proof. vm_compute. auto. Qed.

(** Without a hole [removeTX] installs the bucket of [addTX], all spent. *)
Lemma removeTX_tx_a :
  removeTX tx_a 1 (CoinView_new [])
  = (Ret bucket_a,
     {| store := map set_spent store_a; view_map := {[ "aa" := bucket_a ]};
        undo := [] |}).
Proof. vm_compute. reflexivity. Qed.

End RemoveTXExample.

Section Witnesses.
Import Demo Scenario.
#[local] Existing Instance demo.

Lemma addTX_tx_a : addTX tx_a 1 (CoinView_new []) = (Ret bucket_a, view_a).
Proof. vm_compute. reflexivity. Qed.

Lemma spendFrom_spec_witness :
  spendFrom bucket_a 5 view_a = (Ret false, view_a) /\
  exists st',
    spendFrom bucket_a 0 view_a = (Ret true, st') /\
    view_map st' = view_map view_a /\ undo st' = [0%nat] /\
    Coins_isUnspent (store st') 0 bucket_a = false.
Proof.
  destruct (spendFrom_spec view_a bucket_a 5) as (Hmiss & _ & _).
  destruct (spendFrom_spec view_a bucket_a 0) as (_ & _ & Hok).
  split; [apply Hmiss; reflexivity|].
  destruct (Hok 0%nat
              {| version := 1; height := 1; coinbase := false; output := pay;
                 spent := false; raw := None |}
              eq_refl eq_refl eq_refl)
    as (st' & Hs & _ & _ & _ & Hm & Hu & Hf).
  exists st'. split; [exact Hs|]. split; [exact Hm|]. split; [exact Hu|exact Hf].
Defined.

(** After [addTX] and a spend, [apply] throws and the entry stays spent. *)
Lemma undo_apply_after_spend :
  exists st1 st2,
    spendOutput (mkOutpoint "aa" 0) view_a = (Ret true, st1) /\
    undo st1 = [0%nat] /\
    undo_apply (mkOutpoint "aa" 0) st1 = (Throw TypeError, st2) /\
    undo st2 = [] /\
    Coins_isUnspent (store st2) 0 bucket_a = false /\
    view_has "undefined" st2 = true.
Proof. do 2 eexists. vm_compute. repeat split. Qed.

Lemma unspendable_add_installs_bucket_witness :
  let st := CoinView_new [burnt] in
  let p := mkOutpoint "zz" 0 in
  let m' := <[ "zz" := Coins_new ]> (view_map st) in
  view_has "zz" (with_map st m') = true /\
  addEntry p 0%nat st = (Ret None, with_map st m') /\
  addOutput p burn st = (Ret tt, with_map st m') /\
  readCoin (fun _ => Some burnt) (mkInput p) st
  = (Ret None, with_map (with_store st (store st ++ [burnt])) m').
Proof.
  intros st p m'.
  destruct (unspendable_add_installs_bucket st p eq_refl)
    as ((Hhas & _) & Hentry & Hout & _ & Hread).
  split; [exact Hhas|]. split; [apply Hentry; reflexivity|].
  split; [apply Hout; reflexivity|].
  apply Hread; reflexivity.
Defined.

End Witnesses.

(** ** What a view has cached *)

Section Cached.
Context `{Collaborators}.

Lemma getEntry_cached (input : Input) (st : State) (l : loc) :
  getEntry input st = obj l <-> cached st (prevout input) = Some l.
Proof.
  unfold getEntry, cached, view_get.
  destruct (view_map st !! hash (prevout input)) as [c|].
  - apply Coins_get_obj.
  - split; discriminate.
Qed.

Lemma getEntry_nothing (input : Input) (st : State) :
  truthy (getEntry input st) = false <-> cached st (prevout input) = None.
Proof.
  unfold getEntry, cached, view_get.
  destruct (view_map st !! hash (prevout input)) as [c|].
  - apply Coins_get_nothing.
  - split; reflexivity.
Qed.

Lemma hasEntry_cached (input : Input) (st : State) :
  hasEntry input st = bool_decide (is_Some (cached st (prevout input))).
Proof.
  unfold hasEntry, cached, view_get.
  destruct (view_map st !! hash (prevout input)) as [c|].
  - apply Coins_has_slot.
  - symmetry. apply bool_decide_eq_false. intros [x Hx]. discriminate.
Qed.

Lemma cached_in_store (st : State) (p : Outpoint) (l : loc) :
  view_in_store st -> cached st p = Some l -> (l < length (store st))%nat.
Proof.
  unfold cached. intros Hin Hc.
  destruct (view_map st !! hash p) as [c|] eqn:E; [|discriminate].
  exact (Hin _ _ E _ _ Hc).
Qed.

Lemma view_in_store_alloc (st : State) (e : CoinEntry) :
  view_in_store st -> view_in_store (with_store st (store st ++ [e])).
Proof.
  intros Hin h c Hc i l Hs. cbn [store with_store view_map] in *.
  rewrite length_app. specialize (Hin h c Hc i l Hs). lia.
Qed.

Lemma slot_Coins_new (i : nat) : slot Coins_new i = None.
Proof. unfold slot. cbn. rewrite lookup_nil. reflexivity. Qed.

(** [addEntry] with an outpoint and an entry of the store. *)
Lemma addEntry_spec (st : State) (p : Outpoint) (coin : loc) :
  view_in_store st -> (coin < length (store st))%nat ->
  exists r st',
    addEntry p coin st = (Ret r, st') /\
    store st' = store st /\ undo st' = undo st /\ view_in_store st' /\
    (forall q, q <> p -> cached st' q = cached st q) /\
    cached st' p
    = match cached st p with
      | Some l => Some l
      | None => if isUnspendable (script (output (deref (store st) coin)))
                then None else Some coin
      end /\
    match r with
    | Some c => view_map st' !! hash p = Some c /\
                isUnspendable (script (output (deref (store st) coin))) = false
    | None => isUnspendable (script (output (deref (store st) coin))) = true
    end.
Proof.
  intros Hin Hcoin. unfold addEntry, addEntry_js. cbn [key_of_hash].
  set (st1 := match view_get (hash p) st with
              | Some coins => (coins, st)
              | None => (Coins_new,
                         with_map st (<[hash p := Coins_new]> (view_map st)))
              end).
  assert (H1 : view_map (snd st1) !! hash p = Some (fst st1) /\
               store (snd st1) = store st /\ undo (snd st1) = undo st /\
               view_in_store (snd st1) /\
               forall q, cached (snd st1) q = cached st q).
  { subst st1. unfold view_get. destruct (view_map st !! hash p) as [c|] eqn:E.
    - cbn [fst snd]. auto.
    - cbn [fst snd view_map store undo with_map].
      split; [apply lookup_insert_eq|]. split; [reflexivity|].
      split; [reflexivity|]. split.
      + intros h c Hc. cbn [view_map store with_map] in *.
        destruct (decide (hash p = h)) as [<-|Hne].
        * rewrite lookup_insert_eq in Hc. injection Hc as <-.
          intros i l Hs. rewrite slot_Coins_new in Hs. discriminate.
        * rewrite lookup_insert_ne in Hc by exact Hne. exact (Hin h c Hc).
      + intros q. unfold cached. cbn [view_map with_map].
        destruct (decide (hash p = hash q)) as [Heq|Hne].
        * rewrite <- Heq, lookup_insert_eq, E. apply slot_Coins_new.
        * rewrite lookup_insert_ne by exact Hne. reflexivity. }
  destruct st1 as [coins st1]. cbn [fst snd] in H1.
  destruct H1 as (Hb & Hst & Hun & Hin1 & Hc1).
  assert (Hcp : cached st p = slot coins (index p)).
  { rewrite <- Hc1. unfold cached. rewrite Hb. reflexivity. }
  rewrite Hst.
  destruct (isUnspendable (script (output (deref (store st) coin)))) eqn:Eu.
  - exists None, st1. split; [reflexivity|]. split; [exact Hst|].
    split; [exact Hun|]. split; [exact Hin1|]. split; [intros q _; apply Hc1|].
    split; [|reflexivity]. rewrite Hc1. destruct (cached st p); reflexivity.
  - rewrite Coins_has_slot.
    destruct (slot coins (index p)) as [l|] eqn:Es.
    + rewrite bool_decide_eq_true_2 by eauto.
      exists (Some coins), st1. split; [reflexivity|]. split; [exact Hst|].
      split; [exact Hun|]. split; [exact Hin1|]. split; [intros q _; apply Hc1|].
      split; [|auto]. rewrite Hc1, Hcp. reflexivity.
    + rewrite bool_decide_eq_false_2 by (intros [x Hx]; discriminate).
      destruct (Coins_add_free (index p) coin coins Es) as (c' & Ha & _ & Hsl).
      rewrite Ha. eexists (Some c'), _. split; [reflexivity|].
      cbn [store undo view_map with_map].
      split; [exact Hst|]. split; [exact Hun|]. split; [|split; [|split]].
      * intros h c Hc. cbn [view_map store with_map] in *.
        destruct (decide (hash p = h)) as [<-|Hne].
        -- rewrite lookup_insert_eq in Hc. injection Hc as <-.
           intros i l Hs. rewrite Hsl in Hs. destruct (decide (i = index p)).
           ++ injection Hs as <-. rewrite Hst. exact Hcoin.
           ++ exact (Hin1 _ _ Hb i l Hs).
        -- rewrite lookup_insert_ne in Hc by exact Hne. exact (Hin1 h c Hc).
      * intros q Hq. rewrite <- Hc1. unfold cached. cbn [view_map with_map].
        destruct (decide (hash p = hash q)) as [Heq|Hne].
        -- rewrite <- Heq, lookup_insert_eq, Hb, Hsl.
           rewrite decide_False; [reflexivity|].
           intros Hi. apply Hq. destruct p, q; cbn in *; congruence.
        -- rewrite lookup_insert_ne by exact Hne. reflexivity.
      * unfold cached at 1. cbn [view_map with_map].
        rewrite lookup_insert_eq, Hsl, decide_True by reflexivity.
        rewrite Hcp. reflexivity.
      * split; [apply lookup_insert_eq|reflexivity].
Qed.

End Cached.

(** ** Spending the inputs of a transaction *)

Section SpendInputs.
Context `{Collaborators}.

Lemma extends_refl (st : State) : extends st st.
Proof. repeat split; auto. Qed.

Lemma extends_trans (st1 st2 st3 : State) :
  extends st1 st2 -> extends st2 st3 -> extends st1 st3.
Proof.
  intros (Hl1 & Hc1 & Hs1) (Hl2 & Hc2 & Hs2). split; [lia|]. split.
  - intros q l Hq. apply Hc2, Hc1, Hq.
  - intros l Hl Hs. apply Hs2; [lia|]. apply Hs1; assumption.
Qed.







End SpendInputs.

(** ** The fast form *)

Section Fast.
Context `{CollaboratorLaws}.

Lemma toWriter_app_any (e : CoinEntry) (bw : list byte) :
  toWriter e bw = bw ++ toWriter e [].
Proof.
  destruct (raw e) as [r|] eqn:Er.
  - unfold toWriter. rewrite Er. reflexivity.
  - assert (Hu : uncached e = e) by (destruct e; cbn in Er; subst; reflexivity).
    rewrite <- Hu. rewrite !toWriter_uncached. reflexivity.
Qed.

Lemma fast_chunk_eq (st : State) (input : Input) :
  fast_chunk st input
  = match getEntry input st with
    | obj coin => writeU8 1 [] ++ toWriter (deref (store st) coin) []
    | _ => writeU8 0 []
    end.
Proof.
  unfold fast_chunk. destruct (getEntry input st) as [| |l] eqn:Eg.
  - rewrite (proj1 (getEntry_nothing input st)) by (rewrite Eg; reflexivity).
    reflexivity.
  - rewrite (proj1 (getEntry_nothing input st)) by (rewrite Eg; reflexivity).
    reflexivity.
  - rewrite (proj1 (getEntry_cached input st l) Eg). reflexivity.
Qed.

Lemma toFast_loop_app (st : State) (ins : list Input) (bw : list byte) :
  toFast_loop ins st bw = bw ++ concat (fast_chunk st <$> ins).
Proof.
  revert bw. induction ins as [|input rest IH]; intros bw.
  - cbn. rewrite app_nil_r. reflexivity.
  - cbn [toFast_loop fmap list_fmap concat]. rewrite fast_chunk_eq.
    destruct (getEntry input st) as [| |l]; rewrite IH.
    1,2: unfold writeU8; cbn [app]; rewrite <- !app_assoc; reflexivity.
    rewrite toWriter_app_any. unfold writeU8. cbn [app].
    rewrite <- !app_assoc. reflexivity.
Qed.

Lemma fast_encodable_cons (st : State) (input : Input) (rest : list Input) :
  fast_encodable st (input :: rest) ->
  (forall l, getEntry input st = obj l ->
     serialisable (deref (store st) l) /\
     isUnspendable (script (output (deref (store st) l))) = false) /\
  fast_encodable st rest.
Proof.
  intros Henc. split.
  - intros l Hg. apply getEntry_cached in Hg.
    exact (Henc input l (list_elem_of_here _ _) Hg).
  - intros i l Hi Hg. exact (Henc i l (list_elem_of_further _ _ _ Hi) Hg).
Qed.

Lemma getFastSize_loop_length (st : State) (ins : list Input) (size : nat) :
  fast_encodable st ins ->
  (getFastSize_loop ins st size + length ins
   = size + length (concat (fast_chunk st <$> ins)))%nat.
Proof.
  revert size. induction ins as [|input rest IH]; intros size Henc.
  - cbn. lia.
  - destruct (fast_encodable_cons st input rest Henc) as [Hhead Hrest].
    cbn [getFastSize_loop fmap list_fmap concat length].
    rewrite length_app. rewrite fast_chunk_eq.
    destruct (getEntry input st) as [| |l] eqn:Eg.
    + specialize (IH size Hrest). cbn [writeU8 app length]. lia.
    + specialize (IH size Hrest). cbn [writeU8 app length]. lia.
    + destruct (Hhead l eq_refl) as [Hser _].
      specialize (IH (size + getSize (deref (store st) l))%nat Hrest).
      pose proof (getSize_toWriter _ Hser) as Hsz.
      rewrite length_app. cbn [writeU8 app length]. lia.
Qed.

Lemma cached_entry_alloc (st : State) (e : CoinEntry) (q : Outpoint) :
  view_in_store st ->
  cached_entry (with_store st (store st ++ [e])) q = cached_entry st q.
Proof.
  intros Hin. unfold cached_entry.
  change (cached (with_store st (store st ++ [e])) q) with (cached st q).
  destruct (cached st q) as [l|] eqn:Ec; [|reflexivity].
  cbn [fmap option_fmap option_map store with_store]. f_equal.
  apply deref_app_l. eapply cached_in_store; eassumption.
Qed.

Lemma fast_skip (st st' st'' : State) (input : Input) (ins : list Input) :
  cached_entry st (prevout input) = None ->
  (forall q, cached_entry st' q = None -> q ∈ prevout <$> ins ->
     cached_entry st'' q = decoded <$> cached_entry st q) ->
  (forall q, cached_entry st' q = None -> q ∉ prevout <$> ins ->
     cached_entry st'' q = None) ->
  (forall q, cached_entry st' q = None -> q ∈ prevout <$> (input :: ins) ->
     cached_entry st'' q = decoded <$> cached_entry st q) /\
  (forall q, cached_entry st' q = None -> q ∉ prevout <$> (input :: ins) ->
     cached_entry st'' q = None).
Proof.
  intros Hnone Hb Hc. split; intros q Hq Hmem.
  - destruct (decide (q ∈ prevout <$> ins)) as [Hi|Hni].
    + apply Hb; assumption.
    + cbn [fmap list_fmap] in Hmem.
      apply elem_of_cons in Hmem as [->|Hmem]; [|contradiction].
      rewrite Hnone. apply Hc; assumption.
  - apply Hc; [exact Hq|]. intros Hi. apply Hmem.
    cbn [fmap list_fmap]. apply list_elem_of_further. exact Hi.
Qed.

(** Decoding the chunks of [ins], written from [st], into [st']. *)
Lemma fromFast_loop_spec (st : State) (ins : list Input) :
  fast_encodable st ins ->
  forall (rest : list byte) (st' : State),
    view_in_store st' ->
    exists st'',
      fromFast_loop ins (concat (fast_chunk st <$> ins) ++ rest) st'
      = (Ret rest, st'') /\
      view_in_store st'' /\
      (forall q e, cached_entry st' q = Some e -> cached_entry st'' q = Some e) /\
      (forall q, cached_entry st' q = None -> q ∈ prevout <$> ins ->
         cached_entry st'' q = decoded <$> cached_entry st q) /\
      (forall q, cached_entry st' q = None -> q ∉ prevout <$> ins ->
         cached_entry st'' q = None).
Proof.
  induction ins as [|input ins IH]; intros Henc rest st' Hin.
  - exists st'. split; [reflexivity|]. split; [exact Hin|].
    split; [auto|]. split; [|auto].
    intros q _ Hq. apply elem_of_nil in Hq. destruct Hq.
  - destruct (fast_encodable_cons st input ins Henc) as [Hhead Hrest].
    cbn [fmap list_fmap concat fromFast_loop]. rewrite <- app_assoc.
    rewrite fast_chunk_eq.
    destruct (getEntry input st) as [| |l] eqn:Eg.
    1,2: (rewrite readU8_writeU8 by lia; cbn [Z.eqb];
          destruct (IH Hrest rest st' Hin) as (st'' & Hrun & Hin'' & Ha & Hb & Hc);
          exists st''; split; [exact Hrun|]; split; [exact Hin''|];
          split; [exact Ha|];
          apply (fast_skip st st' st'' input ins); [|exact Hb|exact Hc];
          unfold cached_entry;
          rewrite (proj1 (getEntry_nothing input st)) by (rewrite Eg; reflexivity);
          reflexivity).
    destruct (Hhead l eq_refl) as [Hser Hsp].
    set (e := deref (store st) l) in *.
    rewrite <- app_assoc. rewrite readU8_writeU8 by lia. cbn [Z.eqb].
    rewrite fromReader_toWriter by exact Hser.
    set (st1 := with_store st' (store st' ++ [decoded e])).
    assert (Hin1 : view_in_store st1) by (apply view_in_store_alloc; exact Hin).
    assert (Hl : (length (store st') < length (store st1))%nat).
    { subst st1. cbn [store with_store]. rewrite length_app. cbn. lia. }
    destruct (addEntry_spec st1 (prevout input) (length (store st')) Hin1 Hl)
      as (r & st2 & Hadd & Hst2 & _ & Hin2 & Hother & Hp & _).
    rewrite Hadd.
    assert (Hd : deref (store st1) (length (store st')) = decoded e)
      by apply deref_app_new.
    rewrite Hd in Hp. change (output (decoded e)) with (output e) in Hp.
    rewrite Hsp in Hp.
    assert (Hce1 : forall q, cached_entry st1 q = cached_entry st' q).
    { intros q. apply cached_entry_alloc. exact Hin. }
    assert (Hce2 : forall q, q <> prevout input ->
                     cached_entry st2 q = cached_entry st' q).
    { intros q Hq. rewrite <- Hce1. unfold cached_entry.
      rewrite Hother, Hst2 by exact Hq. reflexivity. }
    assert (Hce2p : cached_entry st2 (prevout input)
                    = match cached_entry st' (prevout input) with
                      | Some e0 => Some e0
                      | None => Some (decoded e)
                      end).
    { rewrite <- Hce1. unfold cached_entry. rewrite Hp, Hst2.
      destruct (cached st1 (prevout input));
        cbn [fmap option_fmap option_map]; [reflexivity|].
      rewrite Hd. reflexivity. }
    assert (Hsome : cached_entry st (prevout input) = Some e).
    { unfold cached_entry.
      rewrite (proj1 (getEntry_cached input st l) Eg). reflexivity. }
    destruct (IH Hrest rest st2 Hin2) as (st'' & Hrun & Hin'' & Ha & Hb & Hc).
    exists st''. split; [exact Hrun|]. split; [exact Hin''|].
    split; [|split].
    + intros q e0 Hq. apply Ha.
      destruct (decide (q = prevout input)) as [->|Hne].
      * rewrite Hce2p, Hq. reflexivity.
      * rewrite Hce2 by exact Hne. exact Hq.
    + intros q Hq Hmem. destruct (decide (q = prevout input)) as [->|Hne].
      * rewrite Hsome. cbn. apply Ha. rewrite Hce2p, Hq. reflexivity.
      * apply Hb; [rewrite Hce2 by exact Hne; exact Hq|].
        apply elem_of_cons in Hmem as [Hmem|Hmem]; [contradiction|exact Hmem].
    + intros q Hq Hmem.
      assert (Hne : q <> prevout input) by (intros ->; apply Hmem; left).
      apply Hc; [rewrite Hce2 by exact Hne; exact Hq|].
      intros Hi. apply Hmem. right. exact Hi.
Qed.

Lemma cached_Some (st : State) (p : Outpoint) (l : loc) :
  cached st p = Some l <->
  exists c, view_map st !! hash p = Some c /\
            c_outputs c !! index p = Some (Some l).
Proof.
  unfold cached, slot. split.
  - destruct (view_map st !! hash p) as [c|]; [|discriminate].
    destruct (c_outputs c !! index p) as [[l0|]|] eqn:E; cbn; try discriminate.
    intros [= ->]. eauto.
  - intros (c & -> & ->). reflexivity.
Qed.

(** C4.  [toFast] writes the layout of section 6: for each input of the
    transaction in order, the byte 0 when the map of the view holds no coin
    at the outpoint of the input, and the byte 1 and the record of the coin
    when it holds one; [getFastSize] is the number of these bytes.
    [fromFast] on these bytes and the same transaction reads them all and
    builds a view whose map holds, at the outpoint of each input that had a
    coin, an entry with the same version, height, coinbase flag and output
    (unspent and without cached bytes, the two fields the record does not
    carry), which [getEntry] returns; and holds nothing at the outpoint of
    an input that had none. *)
Theorem fast_form_roundtrip (st : State) (tx : TX) (s0 : list CoinEntry) :
  fast_encodable st (inputs tx) ->
  toFast [] tx st = fast_form_spec st tx /\
  getFastSize tx st = length (fast_form_spec st tx) /\
  exists st',
    CoinView_fromFast (toFast [] tx st) tx s0 = (Ret [], st') /\
    forall input, input ∈ inputs tx ->
      match cached st (prevout input) with
      | Some l =>
          getEntry input st = obj l /\
          exists c' l',
            view_map st' !! hash (prevout input) = Some c' /\
            c_outputs c' !! index (prevout input) = Some (Some l') /\
            getEntry input st' = obj l' /\
            store st' !! l' = Some (decoded (deref (store st) l))
      | None =>
          truthy (getEntry input st) = false /\
          cached st' (prevout input) = None /\
          truthy (getEntry input st') = false
      end.
Proof.
  intros Henc.
  assert (Hbytes : toFast [] tx st = fast_form_spec st tx).
  { unfold toFast. rewrite toFast_loop_app. reflexivity. }
  split; [exact Hbytes|]. split.
  - unfold getFastSize, fast_form_spec.
    pose proof (getFastSize_loop_length st (inputs tx)
                  (0 + length (inputs tx)) Henc). lia.
  - assert (Hin0 : view_in_store (CoinView_new s0)).
    { intros h c Hc. cbn in Hc. rewrite lookup_empty in Hc. discriminate. }
    destruct (fromFast_loop_spec st (inputs tx) Henc [] (CoinView_new s0) Hin0)
      as (st' & Hrun & Hin' & _ & Hb & _).
    exists st'. split.
    + unfold CoinView_fromFast, fromFast. rewrite Hbytes.
      unfold fast_form_spec. rewrite app_nil_r in Hrun. exact Hrun.
    + intros input Hmem.
      assert (Hp : prevout input ∈ prevout <$> inputs tx).
      { apply list_elem_of_fmap. exists input. auto. }
      assert (Hnew : cached_entry (CoinView_new s0) (prevout input) = None).
      { unfold cached_entry, cached. cbn [view_map CoinView_new].
        rewrite lookup_empty. reflexivity. }
      specialize (Hb (prevout input) Hnew Hp). unfold cached_entry in Hb.
      destruct (cached st (prevout input)) as [l|] eqn:Ec.
      * split; [apply getEntry_cached; exact Ec|].
        destruct (cached st' (prevout input)) as [l'|] eqn:Ec'; [|discriminate].
        destruct (proj1 (cached_Some st' (prevout input) l') Ec')
          as (c' & Hc' & Hl').
        exists c', l'. split; [exact Hc'|]. split; [exact Hl'|].
        split; [apply getEntry_cached; exact Ec'|].
        pose proof (cached_in_store st' _ _ Hin' Ec') as Hlt.
        destruct (lookup_lt_is_Some_2 (store st') l' Hlt) as [e' He'].
        cbn [fmap option_fmap option_map] in Hb.
        rewrite (deref_lookup _ _ _ He') in Hb.
        assert (Heq : e' = decoded (deref (store st) l)) by congruence.
        rewrite <- Heq. exact He'.
      * split; [apply getEntry_nothing; exact Ec|].
        assert (Ec' : cached st' (prevout input) = None)
          by (destruct (cached st' (prevout input)); [discriminate|reflexivity]).
        split; [exact Ec'|]. apply getEntry_nothing. exact Ec'.
Qed.

End Fast.

(** ** The theorems on the views of the scenario *)

Section ViewWitnesses.
Import Demo DemoLaws Scenario.
#[local] Existing Instance demo.
#[local] Existing Instance demo_laws.

Lemma view_a_in_store : view_in_store view_a.
Proof.
  intros h c Hc. cbn [view_map view_a] in Hc.
  apply lookup_singleton_Some in Hc as [_ <-].
  intros [|[|i]] l Hs; cbn in Hs; try discriminate;
    injection Hs as <-; cbn; lia.
Qed.

Lemma view_a_fast_encodable : fast_encodable view_a (inputs tx_c).
Proof.
  intros input l Hmem Hg. cbn [inputs tx_c] in Hmem.
  repeat (apply elem_of_cons in Hmem as [->|Hmem]);
    [| |  |apply elem_of_nil in Hmem; destruct Hmem];
    vm_compute in Hg; try discriminate Hg.
  injection Hg as <-. split; [|reflexivity].
  change (deref (store view_a) 1%nat)
    with {| version := 1; height := 1; coinbase := false; output := pay;
            spent := false; raw := None |}.
  unfold serialisable. cbn [height version output raw].
  split; [lia|]. split; [lia|]. split.
  - unfold encodable, demo, pay. cbn [value script length]. lia.
  - intros r Hr. discriminate Hr.
Qed.

(** The view [view_a] holds a coin at the first input of [tx_c] and none at
    the other two: the fast form is the byte 1, the record of that coin and
    two bytes 0, twenty bytes in all, and the view decoded from it holds
    that coin at the first input and nothing at the second. *)
Lemma fast_form_roundtrip_witness :
  cached view_a (mkOutpoint "aa" 1) = Some 1%nat /\
  cached view_a (mkOutpoint "zz" 0) = None /\
  toFast [] tx_c view_a
  = writeU8 1 [] ++ toWriter (deref store_a 1%nat) []
    ++ writeU8 0 [] ++ writeU8 0 [] /\
  getFastSize tx_c view_a = 20%nat /\
  exists st',
    CoinView_fromFast (toFast [] tx_c view_a) tx_c [] = (Ret [], st') /\
    (exists c' l',
       view_map st' !! "aa" = Some c' /\
       c_outputs c' !! 1%nat = Some (Some l') /\
       getEntry (mkInput (mkOutpoint "aa" 1)) st' = obj l' /\
       store st' !! l' = Some (decoded (deref store_a 1%nat))) /\
    cached st' (mkOutpoint "zz" 0) = None /\
    truthy (getEntry (mkInput (mkOutpoint "zz" 0)) st') = false.
Proof.
  destruct (fast_form_roundtrip view_a tx_c [] view_a_fast_encodable)
    as (Hbytes & Hsize & st' & Hrun & Hall).
  assert (H1 : cached view_a (mkOutpoint "aa" 1) = Some 1%nat)
    by (vm_compute; reflexivity).
  assert (H2 : cached view_a (mkOutpoint "zz" 0) = None)
    by (vm_compute; reflexivity).
  split; [exact H1|]. split; [exact H2|].
  split; [rewrite Hbytes; vm_compute; reflexivity|].
  split; [rewrite Hsize; vm_compute; reflexivity|].
  exists st'. split; [exact Hrun|].
  pose proof (Hall (mkInput (mkOutpoint "aa" 1)) (list_elem_of_here _ _)) as Ha.
  pose proof (Hall (mkInput (mkOutpoint "zz" 0))
                (list_elem_of_further _ _ _ (list_elem_of_here _ _))) as Hz.
  cbn [prevout] in Ha, Hz. rewrite H1 in Ha. rewrite H2 in Hz.
  destruct Ha as (_ & Ha). destruct Hz as (_ & Hz1 & Hz2).
  split; [exact Ha|]. split; [exact Hz1|exact Hz2].
Defined.


(** On that view the second input of [tx_c] cannot be resolved: the first
    one stays spent and its entry stays on the undo stack. *)
Lemma spendInputs_tx_c :
  exists st',
    spendInputs (fun _ => None) tx_c view_a = (Ret false, st') /\
    undo st' = [1%nat] /\
    Coins_isUnspent (store st') 1 bucket_a = false /\
    view_map st' = view_map view_a.
Proof. eexists. vm_compute. repeat split. Qed.

(** The fast form of that view for [tx_c], decoded: one bucket, with the
    coin of the first input at its index. *)
Lemma fromFast_tx_c :
  exists st',
    CoinView_fromFast (toFast [] tx_c view_a) tx_c [] = (Ret [], st') /\
    getEntry (mkInput (mkOutpoint "aa" 1)) st' = obj 0%nat /\
    getEntry (mkInput (mkOutpoint "aa" 0)) st' = null /\
    getEntry (mkInput (mkOutpoint "zz" 0)) st' = undefined /\
    store st' = [decoded (deref store_a 1%nat)].
Proof. eexists. vm_compute. repeat split. Qed.

End ViewWitnesses.

(** * Further properties *)

(** ** Entries read from bytes *)

Lemma unpack_height_range (w : Z) :
  -1 <= fst (unpack_height w) <= 2 ^ 29 - 2.
Proof.
  unfold unpack_height. cbn [fst].
  assert (Hr : 0 <= js_and w 0x1fffffff < 2 ^ 29).
  { unfold js_and. change (to_int32 0x1fffffff) with (Z.ones 29).
    rewrite Z.land_ones by lia.
    pose proof (Z.mod_pos_bound (to_int32 w) (2 ^ 29) ltac:(lia)) as Hm.
    rewrite to_int32_small by lia. exact Hm. }
  change 0x1fffffff with (2 ^ 29 - 1) in *.
  destruct (Z.eqb_spec (js_and w (2 ^ 29 - 1)) (2 ^ 29 - 1)); lia.
Qed.

Lemma to_int32_cong (x : Z) : to_int32 x mod 2 ^ 32 = x mod 2 ^ 32.
Proof.
  unfold to_int32.
  rewrite <- (Z.add_opp_r _ (2 ^ 31)), <- Z.add_mod_idemp_l by lia.
  rewrite Z.mod_mod by lia. rewrite Z.add_mod_idemp_l by lia.
  f_equal. lia.
Qed.

Lemma to_int32_range (x : Z) : - 2 ^ 31 <= to_int32 x < 2 ^ 31.
Proof.
  unfold to_int32.
  pose proof (Z.mod_pos_bound (x + 2 ^ 31) (2 ^ 32) ltac:(lia)). lia.
Qed.

Lemma to_int32_testbit (x n : Z) :
  0 <= n < 32 -> Z.testbit (to_int32 x) n = Z.testbit x n.
Proof.
  intros Hn.
  rewrite <- (Z.mod_pow2_bits_low (to_int32 x) 32 n) by lia.
  rewrite to_int32_cong. apply Z.mod_pow2_bits_low. lia.
Qed.

Lemma mod29_of_mod32 (a b : Z) :
  a mod 2 ^ 32 = b mod 2 ^ 32 -> a mod 2 ^ 29 = b mod 2 ^ 29.
Proof.
  intros Hab.
  assert (Hd : (2 ^ 29 | 2 ^ 32)) by (exists 8; reflexivity).
  rewrite <- (Z.mod_mod_divide a (2 ^ 32) (2 ^ 29) Hd).
  rewrite <- (Z.mod_mod_divide b (2 ^ 32) (2 ^ 29) Hd).
  rewrite Hab. reflexivity.
Qed.

(** The word of a record, read: the low 29 bits and bit 29. *)
Lemma unpack_height_word (w : Z) :
  unpack_height w
  = (if w mod 2 ^ 29 =? 2 ^ 29 - 1 then -1 else w mod 2 ^ 29,
     Z.testbit w 29).
Proof.
  unfold unpack_height.
  assert (Hlow : js_and w 0x1fffffff = w mod 2 ^ 29).
  { unfold js_and. change (to_int32 0x1fffffff) with (Z.ones 29).
    rewrite Z.land_ones by lia.
    rewrite to_int32_small
      by (pose proof (Z.mod_pos_bound (to_int32 w) (2 ^ 29) ltac:(lia)); lia).
    apply mod29_of_mod32. apply to_int32_cong. }
  assert (Hhigh : negb (js_and (js_ushr w 29) 1 =? 0) = Z.testbit w 29).
  { unfold js_ushr, to_uint32. change (29 mod 32) with 29.
    set (code := Z.shiftr (w mod 2 ^ 32) 29).
    assert (Hcode : 0 <= code < 8).
    { subst code. rewrite Z.shiftr_div_pow2 by lia.
      pose proof (Z.mod_pos_bound w (2 ^ 32) ltac:(lia)) as Hm. split.
      - apply Z.div_pos; lia.
      - apply Z.div_lt_upper_bound; lia. }
    unfold js_and. rewrite (to_int32_small code) by lia.
    change (to_int32 1) with (Z.ones 1). rewrite Z.land_ones by lia.
    change (2 ^ 1) with 2.
    pose proof (Z.mod_pos_bound code 2 ltac:(lia)) as Hm2.
    rewrite to_int32_small by lia.
    assert (Hb : Z.testbit code 0 = Z.testbit w 29).
    { subst code. rewrite Z.shiftr_spec by lia. cbn [Z.add].
      apply Z.mod_pow2_bits_low. lia. }
    rewrite <- Hb, Z.bit0_eqb.
    destruct (Z.eqb_spec (code mod 2) 0), (Z.eqb_spec (code mod 2) 1);
      cbn; try reflexivity; lia. }
  rewrite Hlow, Hhigh. change 0x1fffffff with (2 ^ 29 - 1). reflexivity.
Qed.

Section Decoded.
Context `{Collaborators}.

Lemma fromReader_inv (br : list byte) (e : CoinEntry) (rest : list byte) :
  fromReader br = Some (e, rest) ->
  exists v br1 w br2 o,
    readVarint br = Some (v, br1) /\ readU32 br1 = Some (w, br2) /\
    decompress_output br2 = Some (o, rest) /\
    e = {| version := v; height := fst (unpack_height w);
           coinbase := snd (unpack_height w); output := o;
           spent := false; raw := None |}.
Proof.
  rewrite fromReader_unpack. intros Hr.
  destruct (readVarint br) as [[v br1]|] eqn:E1; [|discriminate].
  cbn [mbind option_bind] in Hr.
  destruct (readU32 br1) as [[w br2]|] eqn:E2; [|discriminate].
  cbn [mbind option_bind] in Hr.
  destruct (decompress_output br2) as [[o br3]|] eqn:E3; [|discriminate].
  cbn [mbind option_bind] in Hr.
  exists v, br1, w, br2, o.
  split; [first [exact E1|reflexivity]|].
  split; [first [exact E2|reflexivity]|].
  split; [rewrite E3; f_equal; f_equal; congruence|congruence].
Qed.

Lemma fromReader_None (br : list byte) :
  fromReader br = None ->
  readVarint br = None \/
  exists v br1,
    readVarint br = Some (v, br1) /\
    (readU32 br1 = None \/
     exists w br2, readU32 br1 = Some (w, br2) /\ decompress_output br2 = None).
Proof.
  rewrite fromReader_unpack. intros Hr.
  destruct (readVarint br) as [[v br1]|] eqn:E1; [|left; reflexivity].
  right. exists v, br1. split; [reflexivity|].
  cbn [mbind option_bind] in Hr.
  destruct (readU32 br1) as [[w br2]|] eqn:E2; [|left; reflexivity].
  right. exists w, br2. split; [reflexivity|].
  cbn [mbind option_bind] in Hr.
  destruct (decompress_output br2) as [[o br3]|] eqn:E3; [|reflexivity].
  cbn [mbind option_bind] in Hr. discriminate Hr.
Qed.

(** X1.  [fromReader] fails exactly when the version, the 32-bit word or
    the output cannot be read.  The entry it builds otherwise has the
    version and the output read, the low 29 bits of the word as height
    (-1 when they are all set) and bit 29 of the word as coinbase flag; it
    is unspent, has no cached bytes, and its height is between -1 and
    2^29-2: no other height comes out of a record. *)
Theorem fromReader_entry_fresh (br : list byte) :
  match fromReader br with
  | Some (e, rest) =>
      spent e = false /\ raw e = None /\ -1 <= height e <= 2 ^ 29 - 2 /\
      exists br1 w br2,
        readVarint br = Some (version e, br1) /\
        readU32 br1 = Some (w, br2) /\
        decompress_output br2 = Some (output e, rest) /\
        height e = (if w mod 2 ^ 29 =? 2 ^ 29 - 1 then -1 else w mod 2 ^ 29) /\
        coinbase e = Z.testbit w 29
  | None =>
      readVarint br = None \/
      exists v br1,
        readVarint br = Some (v, br1) /\
        (readU32 br1 = None \/
         exists w br2,
           readU32 br1 = Some (w, br2) /\ decompress_output br2 = None)
  end.
Proof.
  destruct (fromReader br) as [[e rest]|] eqn:Hr.
  - destruct (fromReader_inv br e rest Hr)
      as (v & br1 & w & br2 & o & H1 & H2 & H3 & ->).
    cbn [spent raw height version output coinbase].
    split; [reflexivity|]. split; [reflexivity|].
    split; [apply unpack_height_range|].
    exists br1, w, br2. split; [exact H1|]. split; [exact H2|].
    split; [exact H3|]. rewrite unpack_height_word. split; reflexivity.
  - apply fromReader_None. exact Hr.
Qed.

End Decoded.

(** ** Heights outside the record format *)

Lemma readU32_writeU32_mod (v : Z) (rest : list byte) :
  readU32 (writeU32 v [] ++ rest) = Some (v mod 2 ^ 32, rest).
Proof.
  unfold writeU32, readU32. cbn [app].
  rewrite !Z_of_byte_of_Z, !Z.shiftr_div_pow2, !Z.shiftl_mul_pow2 by lia.
  f_equal. f_equal.
  change (2 ^ 8) with 256. change (2 ^ 16) with 65536.
  change (2 ^ 24) with 16777216. change (2 ^ 32) with 4294967296.
  Z.div_mod_to_equations. lia.
Qed.

(** The word read back, for any height but the sentinel. *)
Lemma unpack_pack_any (h : Z) (cb : bool) :
  h <> -1 ->
  unpack_height (pack_height h cb mod 2 ^ 32)
  = (if h mod 2 ^ 29 =? 2 ^ 29 - 1 then -1 else h mod 2 ^ 29,
     cb || Z.testbit h 29).
Proof.
  intros Hh. unfold pack_height.
  destruct (Z.eqb_spec h (-1)) as [|_]; [contradiction|].
  set (c := if cb then js_or 0 1 else 0).
  assert (Hc : js_shl c 29 = if cb then 2 ^ 29 else 0)
    by (subst c; destruct cb; reflexivity).
  rewrite Hc. clear c Hc. set (c29 := if cb then 2 ^ 29 else 0).
  set (w := js_or h c29).
  assert (Hbits : forall n, 0 <= n < 32 ->
            Z.testbit (w mod 2 ^ 32) n
            = Z.testbit h n || Z.testbit c29 n).
  { intros n Hn. rewrite Z.mod_pow2_bits_low by lia. subst w. unfold js_or.
    rewrite to_int32_testbit, Z.lor_spec, !to_int32_testbit by lia.
    reflexivity. }
  assert (Hc29 : forall n, 0 <= n -> Z.testbit c29 n = cb && (n =? 29)).
  { intros n Hn. subst c29. destruct cb.
    - rewrite Z.pow2_bits_eqb by lia. rewrite Z.eqb_sym. reflexivity.
    - apply Z.bits_0. }
  assert (Hlow : js_and (w mod 2 ^ 32) 0x1fffffff = h mod 2 ^ 29).
  { unfold js_and. change (to_int32 0x1fffffff) with (Z.ones 29).
    rewrite Z.land_ones by lia.
    rewrite to_int32_small
      by (pose proof (Z.mod_pos_bound (to_int32 (w mod 2 ^ 32)) (2 ^ 29)
                        ltac:(lia)); lia).
    rewrite (mod29_of_mod32 _ (w mod 2 ^ 32)) by apply to_int32_cong.
    apply Z.bits_inj'. intros n Hn.
    rewrite (Z.testbit_mod_pow2 (w mod 2 ^ 32)),
            (Z.testbit_mod_pow2 h) by lia.
    destruct (Z.ltb_spec n 29) as [Hlt|Hge]; [|reflexivity].
    cbn [andb]. rewrite Hbits, Hc29 by lia.
    destruct (Z.eqb_spec n 29); [lia|].
    rewrite andb_false_r, orb_false_r. reflexivity. }
  assert (Hhigh : negb (js_and (js_ushr (w mod 2 ^ 32) 29) 1 =? 0)
                  = cb || Z.testbit h 29).
  { unfold js_ushr, to_uint32. rewrite Z.mod_mod by lia.
    change (29 mod 32) with 29.
    set (code := Z.shiftr (w mod 2 ^ 32) 29).
    assert (Hcode : 0 <= code < 8).
    { subst code. rewrite Z.shiftr_div_pow2 by lia.
      pose proof (Z.mod_pos_bound w (2 ^ 32) ltac:(lia)) as Hm. split.
      - apply Z.div_pos; lia.
      - apply Z.div_lt_upper_bound; lia. }
    unfold js_and. rewrite (to_int32_small code) by lia.
    change (to_int32 1) with (Z.ones 1). rewrite Z.land_ones by lia.
    change (2 ^ 1) with 2.
    pose proof (Z.mod_pos_bound code 2 ltac:(lia)) as Hm2.
    rewrite to_int32_small by lia.
    assert (Hb : Z.testbit code 0 = cb || Z.testbit h 29).
    { subst code. rewrite Z.shiftr_spec by lia. cbn [Z.add].
      rewrite Hbits, Hc29 by lia. cbn [Z.eqb Pos.eqb].
      rewrite andb_true_r. apply orb_comm. }
    rewrite <- Hb, Z.bit0_eqb.
    destruct (Z.eqb_spec (code mod 2) 0), (Z.eqb_spec (code mod 2) 1);
      cbn; try reflexivity; lia. }
  unfold unpack_height. rewrite Hlow, Hhigh.
  change 0x1fffffff with (2 ^ 29 - 1). reflexivity.
Qed.

Section AnyHeight.
Context `{CollaboratorLaws}.

(** X2.  The record of an entry with any height other than -1, read back:
    the height comes back modulo 2^29 (as -1 when that is 2^29-1) and bit
    29 of the height is read as the coinbase flag.  So a height of 2^29-1
    or more never reads back as it was written. *)
Theorem record_of_any_height (e : CoinEntry) (rest : list byte) :
  raw e = None -> height e <> -1 ->
  0 <= version e < 2 ^ 32 -> encodable (output e) ->
  fromReader (toWriter e [] ++ rest)
  = Some ({| version := version e;
             height := if height e mod 2 ^ 29 =? 2 ^ 29 - 1 then -1
                       else height e mod 2 ^ 29;
             coinbase := coinbase e || Z.testbit (height e) 29;
             output := output e; spent := false; raw := None |}, rest).
Proof.
  intros Hraw Hh Hv Ho.
  assert (Hu : uncached e = e) by (destruct e; cbn in Hraw; subst; reflexivity).
  rewrite <- Hu at 1. rewrite toWriter_uncached. cbn [app].
  rewrite <- !app_assoc. rewrite fromReader_unpack.
  rewrite readVarint_writeVarint by exact Hv. cbn [mbind option_bind].
  rewrite readU32_writeU32_mod. cbn [mbind option_bind].
  rewrite decompress_compress by exact Ho. cbn [mbind option_bind].
  rewrite (unpack_pack_any (height e) (coinbase e) Hh). reflexivity.
Qed.

End AnyHeight.

(** ** Cached bytes *)

Section Reserialize.
Context `{CollaboratorLaws}.

Lemma toWriter_nil_serialisable (e : CoinEntry) :
  serialisable e -> toWriter e [] = toWriter (uncached e) [].
Proof. intros He. apply (toWriter_app e []). exact He. Qed.

Lemma toRaw_serialisable (e : CoinEntry) :
  serialisable e ->
  toRaw e = (toWriter e [],
             {| version := version e; height := height e;
                coinbase := coinbase e; output := output e;
                spent := spent e; raw := Some (toWriter e []) |}).
Proof.
  intros He. unfold toRaw. destruct (raw e) as [r|] eqn:Er; [|reflexivity].
  assert (Hr : toWriter e [] = r) by (unfold toWriter; rewrite Er; reflexivity).
  rewrite Hr. destruct e; cbn in *; subst; reflexivity.
Qed.

Lemma fromRaw_toWriter (e : CoinEntry) :
  serialisable e ->
  fromRaw (toWriter e [])
  = Some {| version := version e; height := height e;
            coinbase := coinbase e; output := output e;
            spent := false; raw := Some (toWriter e []) |}.
Proof.
  intros He. unfold fromRaw.
  rewrite <- (app_nil_r (toWriter e [])) at 1.
  rewrite fromReader_toWriter by exact He. reflexivity.
Qed.

(** X3.  The helper [reserialize] of the test suite, on an entry of the
    record format: it succeeds, the entry it was given now has its record as
    cached bytes and its other fields as before, and the entry it returns
    has the same version, height, coinbase flag and cached bytes
    ([deepCoinsEqual]), the same output, and is unspent. *)
Theorem reserialize_equal (e : CoinEntry) :
  serialisable e ->
  exists r e',
    reserialize e = Some (r, e') /\
    deepCoinsEqual e' r /\
    raw e' = Some (toWriter (uncached e) []) /\
    version e' = version e /\ height e' = height e /\
    coinbase e' = coinbase e /\ output e' = output e /\
    spent e' = spent e /\
    output r = output e /\ spent r = false /\
    getSize r = length (toWriter (uncached e) []).
Proof.
  intros He. unfold reserialize. rewrite (toRaw_serialisable e He).
  rewrite (fromRaw_toWriter e He). cbn [mbind option_bind].
  change (uncached _) with (decoded e) at 1.
  rewrite (toRaw_serialisable (decoded e) (serialisable_decoded e He)).
  rewrite (fromRaw_toWriter (decoded e) (serialisable_decoded e He)).
  cbn [mbind option_bind version height coinbase output decoded].
  rewrite toWriter_decoded. rewrite <- (toWriter_nil_serialisable e He).
  eexists _, _. split; [reflexivity|].
  unfold deepCoinsEqual, getSize. cbn [version height coinbase raw output spent].
  repeat split.
Qed.

End Reserialize.

(** ** The undo stack as bytes *)

Section UndoRaw.
Context `{CollaboratorLaws}.

Lemma UndoCoins_toRaw_loop_app (s : list CoinEntry) (items : list loc)
    (bw : list byte) :
  UndoCoins_toRaw_loop s items bw
  = bw ++ concat ((fun l => toWriter (deref s l) []) <$> items).
Proof.
  revert bw. induction items as [|l items IH]; intros bw.
  - cbn. rewrite app_nil_r. reflexivity.
  - cbn [UndoCoins_toRaw_loop fmap list_fmap concat]. rewrite IH.
    rewrite toWriter_app_any, <- app_assoc. reflexivity.
Qed.

Lemma UndoCoins_getSize_loop_length (s : list CoinEntry) (items : list loc)
    (size : nat) :
  Forall (fun l => serialisable (deref s l)) items ->
  UndoCoins_getSize_loop s items size
  = (size + length (concat ((fun l => toWriter (deref s l) []) <$> items)))%nat.
Proof.
  intros Hall. revert size. induction Hall as [|l items Hl Hall IH]; intros size.
  - cbn. lia.
  - cbn [UndoCoins_getSize_loop fmap list_fmap concat]. rewrite IH.
    rewrite length_app, (getSize_toWriter _ Hl). lia.
Qed.

Lemma UndoCoins_fromRaw_loop_spec (s : list CoinEntry) (items : list loc) :
  Forall (fun l => serialisable (deref s l)) items ->
  forall (rest : list byte) (acc : list loc) (s0 : list CoinEntry),
    UndoCoins_fromRaw_loop (length items)
      (concat ((fun l => toWriter (deref s l) []) <$> items) ++ rest) acc s0
    = (Ret (acc ++ seq (length s0) (length items)),
       s0 ++ ((fun l => decoded (deref s l)) <$> items)).
Proof.
  intros Hall. induction Hall as [|l items Hl Hall IH]; intros rest acc s0.
  - cbn. rewrite !app_nil_r. reflexivity.
  - cbn [length UndoCoins_fromRaw_loop fmap list_fmap concat seq].
    rewrite <- app_assoc. unfold RawCoin_fromReader.
    rewrite fromReader_toWriter by exact Hl.
    unfold UndoCoins_push. rewrite IH.
    rewrite length_app. cbn [length]. rewrite Nat.add_1_r.
    rewrite <- !app_assoc. reflexivity.
Qed.

Lemma UndoCoins_raw_facts (s : list CoinEntry) (items : list loc)
    (rest : list byte) (s0 : list CoinEntry) :
  Forall (fun l => serialisable (deref s l)) items ->
  Z.of_nat (length items) < 2 ^ 32 ->
  UndoCoins_getSize s items = length (UndoCoins_toRaw s items) /\
  UndoCoins_toRaw s items
  = writeU32 (Z.of_nat (length items)) []
    ++ concat ((fun l => toWriter (deref s l) []) <$> items) /\
  UndoCoins_fromRaw (UndoCoins_toRaw s items ++ rest) s0
  = (Ret (seq (length s0) (length items)),
     s0 ++ ((fun l => decoded (deref s l)) <$> items)).
Proof.
  intros Hall Hlen.
  assert (Hraw : UndoCoins_toRaw s items
                 = writeU32 (Z.of_nat (length items)) []
                   ++ concat ((fun l => toWriter (deref s l) []) <$> items)).
  { unfold UndoCoins_toRaw. apply UndoCoins_toRaw_loop_app. }
  split; [|split; [exact Hraw|]].
  - rewrite Hraw. unfold UndoCoins_getSize.
    rewrite (UndoCoins_getSize_loop_length s items _ Hall).
    rewrite length_app, writeU32_length. lia.
  - rewrite Hraw. unfold UndoCoins_fromRaw. rewrite <- app_assoc.
    rewrite readU32_writeU32 by lia. rewrite Nat2Z.id.
    rewrite (UndoCoins_fromRaw_loop_spec s items Hall). reflexivity.
Qed.

(** X4.  The blob of an undo stack whose entries are of the record format:
    [getSize] is its length; it is the 32-bit count followed by the records
    in stack order; and [fromRaw] reads from it, whatever bytes follow, as
    many new entries as were on the stack, in the same order, each with the
    version, height, coinbase flag and output of the one written, unspent
    and without cached bytes. *)
Theorem UndoCoins_raw_roundtrip (s : list CoinEntry) (items : list loc)
    (rest : list byte) (s0 : list CoinEntry) :
  Forall (fun l => serialisable (deref s l)) items ->
  Z.of_nat (length items) < 2 ^ 32 ->
  UndoCoins_getSize s items = length (UndoCoins_toRaw s items) /\
  UndoCoins_toRaw s items
  = writeU32 (Z.of_nat (length items)) []
    ++ concat ((fun l => toWriter (deref s l) []) <$> items) /\
  UndoCoins_fromRaw (UndoCoins_toRaw s items ++ rest) s0
  = (Ret (seq (length s0) (length items)),
     s0 ++ ((fun l => decoded (deref s l)) <$> items)).
Proof. apply UndoCoins_raw_facts. Qed.

(** X5.  [commit] on a view whose undo stack holds entries of the record
    format: it returns the blob of the stack and leaves the stack empty,
    the store and the map as they were; the blob reads back as the entries
    that were spent, oldest first. *)
Theorem undo_commit_roundtrip (st : State) (s0 : list CoinEntry) :
  Forall (fun l => serialisable (deref (store st) l)) (undo st) ->
  Z.of_nat (length (undo st)) < 2 ^ 32 ->
  exists raw st',
    undo_commit st = (Ret raw, st') /\
    undo st' = [] /\ UndoCoins_isEmpty (undo st') = true /\
    store st' = store st /\ view_map st' = view_map st /\
    length raw = UndoCoins_getSize (store st) (undo st) /\
    UndoCoins_fromRaw raw s0
    = (Ret (seq (length s0) (length (undo st))),
       s0 ++ ((fun l => decoded (deref (store st) l)) <$> undo st)).
Proof.
  intros Hall Hlen.
  destruct (UndoCoins_raw_facts (store st) (undo st) [] s0 Hall Hlen)
    as (Hsize & _ & Hread).
  rewrite app_nil_r in Hread.
  eexists _, _. split; [reflexivity|].
  cbn [undo store view_map with_undo].
  repeat split; [symmetry; exact Hsize | exact Hread].
Qed.

End UndoRaw.

(** ** Slots of a bucket: add, remove, cleanup *)

Section SlotOps.

Lemma cleanup_loop_le (outs : list (option loc)) (n : nat) :
  (cleanup_loop outs n <= n)%nat.
Proof.
  induction n as [|n IH]; cbn; [lia|].
  destruct (outs !! n) as [[l|]|]; lia.
Qed.

Lemma cleanup_loop_top (outs : list (option loc)) (n k : nat) :
  cleanup_loop outs n = S k -> exists l, outs !! k = Some (Some l).
Proof.
  induction n as [|n IH]; cbn; [discriminate|].
  destruct (outs !! n) as [[l|]|] eqn:E; try exact IH.
  intros [= <-]. eauto.
Qed.

Lemma cleanup_loop_above (outs : list (option loc)) (n j : nat) (l : loc) :
  (cleanup_loop outs n <= j < n)%nat -> outs !! j <> Some (Some l).
Proof.
  induction n as [|n IH]; cbn; [lia|].
  destruct (outs !! n) as [[l0|]|] eqn:E; try lia;
    intros Hj; (destruct (decide (j = n)) as [->|Hne];
                 [rewrite E; discriminate|apply IH; lia]).
Qed.

Lemma cleanup_loop_intro (outs : list (option loc)) (n m : nat) :
  (m <= n)%nat ->
  (forall k, m = S k -> exists l, outs !! k = Some (Some l)) ->
  (forall j l, (m <= j < n)%nat -> outs !! j <> Some (Some l)) ->
  cleanup_loop outs n = m.
Proof.
  intros Hle Htop Habove. induction n as [|n IH]; cbn; [lia|].
  destruct (decide (m = S n)) as [->|Hne].
  - destruct (Htop n eq_refl) as [l ->]. reflexivity.
  - destruct (outs !! n) as [[l|]|] eqn:E.
    + exfalso. apply (Habove n l); [lia|exact E].
    + apply IH; [lia|]. intros j l Hj. apply Habove. lia.
    + apply IH; [lia|]. intros j l Hj. apply Habove. lia.
Qed.

Lemma slot_entry (c : Coins) (i : nat) (l : loc) :
  slot c i = Some l <-> c_outputs c !! i = Some (Some l).
Proof.
  unfold slot. destruct (c_outputs c !! i) as [[l0|]|]; cbn;
    split; congruence.
Qed.

Lemma Coins_cleanup_facts (c : Coins) :
  c_hash (Coins_cleanup c) = c_hash c /\
  c_outputs (Coins_cleanup c) `prefix_of` c_outputs c /\
  (forall j, slot (Coins_cleanup c) j = slot c j) /\
  last (c_outputs (Coins_cleanup c)) <> Some None.
Proof.
  unfold Coins_cleanup. cbn [c_hash c_outputs].
  set (outs := c_outputs c). set (m := cleanup_loop outs (length outs)).
  pose proof (cleanup_loop_le outs (length outs)) as Hle. fold m in Hle.
  split; [reflexivity|]. split; [|split].
  - exists (drop m outs). symmetry. apply take_drop.
  - intros j. unfold slot. cbn [c_outputs]. fold outs.
    destruct (decide (j < m)%nat) as [Hj|Hj].
    + rewrite lookup_take_lt by exact Hj. reflexivity.
    + rewrite lookup_take_ge by lia.
      destruct (outs !! j) as [[l|]|] eqn:E; try reflexivity.
      exfalso. apply (cleanup_loop_above outs (length outs) j l); [|exact E].
      fold m. pose proof (lookup_lt_Some _ _ _ E). lia.
  - rewrite last_lookup. rewrite length_take, Nat.min_l by exact Hle.
    destruct m as [|k] eqn:Em.
    + cbn. rewrite take_0. discriminate.
    + cbn [Nat.pred]. rewrite lookup_take_lt by lia.
      destruct (cleanup_loop_top outs (length outs) k Em) as [l ->].
      discriminate.
Qed.

Lemma Coins_cleanup_id (c : Coins) :
  last (c_outputs c) <> Some None -> Coins_cleanup c = c.
Proof.
  intros Hlast. unfold Coins_cleanup.
  assert (Hm : cleanup_loop (c_outputs c) (length (c_outputs c))
               = length (c_outputs c)).
  { apply cleanup_loop_intro; [lia| |intros j l Hj; lia].
    intros k Hk. rewrite last_lookup, Hk in Hlast. cbn [Nat.pred] in Hlast.
    destruct (lookup_lt_is_Some_2 (c_outputs c) k ltac:(lia)) as [[l|] Hx].
    - eauto.
    - contradiction. }
  rewrite Hm, firstn_all. destruct c; reflexivity.
Qed.

Lemma Coins_cleanup_tail (c : Coins) :
  c_outputs c
  = c_outputs (Coins_cleanup c)
    ++ replicate (length (c_outputs c) - length (c_outputs (Coins_cleanup c)))
         None.
Proof.
  unfold Coins_cleanup. cbn [c_outputs].
  set (outs := c_outputs c). set (m := cleanup_loop outs (length outs)).
  pose proof (cleanup_loop_le outs (length outs)) as Hle. fold m in Hle.
  rewrite length_take, Nat.min_l by exact Hle.
  rewrite <- (take_drop m outs) at 1. f_equal.
  apply list_eq. intros j. rewrite lookup_drop.
  destruct (decide (j < length outs - m)%nat) as [Hj|Hj].
  - rewrite lookup_replicate_2 by exact Hj.
    destruct (lookup_lt_is_Some_2 outs (m + j) ltac:(lia)) as [[l|] Hx];
      [|exact Hx].
    exfalso. apply (cleanup_loop_above outs (length outs) (m + j) l);
      [fold m; lia|exact Hx].
  - rewrite lookup_ge_None_2 by lia.
    symmetry. apply lookup_ge_None_2. rewrite length_replicate. lia.
Qed.

(** X6.  [cleanup] keeps the hash and drops from the end of the outputs a
    run of [null] slots and nothing else: what is left does not end in
    [null], every index holds the entry it held, and a second [cleanup]
    changes nothing. *)
Theorem Coins_cleanup_spec (c : Coins) :
  c_hash (Coins_cleanup c) = c_hash c /\
  c_outputs c
  = c_outputs (Coins_cleanup c)
    ++ replicate (length (c_outputs c) - length (c_outputs (Coins_cleanup c)))
         None /\
  last (c_outputs (Coins_cleanup c)) <> Some None /\
  (forall j l, c_outputs (Coins_cleanup c) !! j = Some (Some l)
               <-> c_outputs c !! j = Some (Some l)) /\
  Coins_cleanup (Coins_cleanup c) = Coins_cleanup c.
Proof.
  destruct (Coins_cleanup_facts c) as (Hh & _ & Hs & Hl).
  split; [exact Hh|]. split; [apply Coins_cleanup_tail|].
  split; [exact Hl|]. split.
  - intros j l. rewrite <- !slot_entry, Hs. reflexivity.
  - apply Coins_cleanup_id. exact Hl.
Qed.

Lemma Coins_add_outputs (i : nat) (l : loc) (c : Coins) :
  (forall l0, c_outputs c !! i <> Some (Some l0)) ->
  Coins_add i l c
  = (Ret tt,
     {| c_hash := c_hash c;
        c_outputs := <[i := Some l]>
                       (c_outputs c
                        ++ replicate (S i - length (c_outputs c)) None) |}).
Proof.
  intros Hfree. unfold Coins_add.
  destruct ((c_outputs c ++ replicate (S i - length (c_outputs c)) None) !! i)
    as [[l0|]|] eqn:E; try reflexivity.
  exfalso. destruct (decide (i < length (c_outputs c))%nat) as [Hi|Hi].
  - rewrite lookup_app_l in E by exact Hi. exact (Hfree l0 E).
  - rewrite lookup_app_r in E by lia.
    apply lookup_replicate in E as [E _]. discriminate.
Qed.

(** X7.  [add(index, coin)] on a slot that holds an entry fails its
    assertion and leaves the bucket as it was.  On any other index it puts
    the entry there: the outputs grow to [index + 1] if they were shorter,
    the new slots below [index] are [null], the slots there were keep what
    they held, and [has] and [get] find the entry. *)
Theorem Coins_add_spec (i : nat) (l : loc) (c : Coins) :
  match c_outputs c !! i with
  | Some (Some _) => Coins_add i l c = (Throw AssertionError, c)
  | _ =>
      exists c',
        Coins_add i l c = (Ret tt, c') /\
        c_hash c' = c_hash c /\
        length (c_outputs c') = Nat.max (length (c_outputs c)) (S i) /\
        c_outputs c' !! i = Some (Some l) /\
        (forall j, j <> i -> (j < length (c_outputs c))%nat ->
           c_outputs c' !! j = c_outputs c !! j) /\
        (forall j, j <> i -> (length (c_outputs c) <= j < S i)%nat ->
           c_outputs c' !! j = Some None) /\
        Coins_has i c' = true /\ Coins_get i c' = obj l
  end.
Proof.
  destruct (c_outputs c !! i) as [[l0|]|] eqn:E.
  - unfold Coins_add. pose proof (lookup_lt_Some _ _ _ E) as Hi.
    replace (S i - length (c_outputs c))%nat with 0%nat by lia.
    cbn [replicate]. rewrite app_nil_r, E. destruct c; reflexivity.
  - assert (Hfree : forall l0, c_outputs c !! i <> Some (Some l0))
      by (intros l0; rewrite E; discriminate).
    rewrite (Coins_add_outputs i l c Hfree). eexists. split; [reflexivity|].
    cbn [c_hash c_outputs].
    set (outs := c_outputs c ++ replicate (S i - length (c_outputs c)) None).
    assert (Hlen : length outs = Nat.max (length (c_outputs c)) (S i)).
    { subst outs. rewrite length_app, length_replicate. lia. }
    assert (Hat : <[i := Some l]> outs !! i = Some (Some l))
      by (apply list_lookup_insert_eq; lia).
    split; [reflexivity|]. split; [rewrite length_insert; exact Hlen|].
    split; [exact Hat|]. split; [|split; [|split]].
    + intros j Hne Hj. rewrite list_lookup_insert_ne by congruence.
      subst outs. apply lookup_app_l. exact Hj.
    + intros j Hne Hj. rewrite list_lookup_insert_ne by congruence.
      subst outs. rewrite lookup_app_r by lia.
      apply lookup_replicate_2. lia.
    + unfold Coins_has. cbn [c_outputs]. rewrite length_insert.
      rewrite decide_False by lia. rewrite Hat. reflexivity.
    + unfold Coins_get. cbn [c_outputs]. rewrite length_insert.
      rewrite decide_False by lia. rewrite Hat. reflexivity.
  - assert (Hfree : forall l0, c_outputs c !! i <> Some (Some l0))
      by (intros l0; rewrite E; discriminate).
    rewrite (Coins_add_outputs i l c Hfree). eexists. split; [reflexivity|].
    cbn [c_hash c_outputs].
    set (outs := c_outputs c ++ replicate (S i - length (c_outputs c)) None).
    assert (Hlen : length outs = Nat.max (length (c_outputs c)) (S i)).
    { subst outs. rewrite length_app, length_replicate. lia. }
    assert (Hat : <[i := Some l]> outs !! i = Some (Some l))
      by (apply list_lookup_insert_eq; lia).
    split; [reflexivity|]. split; [rewrite length_insert; exact Hlen|].
    split; [exact Hat|]. split; [|split; [|split]].
    + intros j Hne Hj. rewrite list_lookup_insert_ne by congruence.
      subst outs. apply lookup_app_l. exact Hj.
    + intros j Hne Hj. rewrite list_lookup_insert_ne by congruence.
      subst outs. rewrite lookup_app_r by lia.
      apply lookup_replicate_2. lia.
    + unfold Coins_has. cbn [c_outputs]. rewrite length_insert.
      rewrite decide_False by lia. rewrite Hat. reflexivity.
    + unfold Coins_get. cbn [c_outputs]. rewrite length_insert.
      rewrite decide_False by lia. rewrite Hat. reflexivity.
Qed.

Lemma Coins_remove_entry (i : nat) (l : loc) (c : Coins) :
  c_outputs c !! i = Some (Some l) ->
  Coins_remove i c
  = (Some l,
     Coins_cleanup {| c_hash := c_hash c;
                      c_outputs := <[i := None]> (c_outputs c) |}).
Proof.
  intros Hs. unfold Coins_remove.
  rewrite (proj2 (Coins_get_obj i c l)) by (apply slot_entry; exact Hs).
  reflexivity.
Qed.

(** X8.  [remove(index)] on a slot that holds an entry returns the entry and
    leaves a bucket in which that index holds nothing, every other index
    holds what it held, and the outputs do not end in [null].  On an index
    past the end or on a [null] slot it returns false and leaves the bucket
    as it was. *)
Theorem Coins_remove_spec (i : nat) (c : Coins) :
  match c_outputs c !! i with
  | Some (Some l) =>
      exists c',
        Coins_remove i c = (Some l, c') /\
        c_hash c' = c_hash c /\
        (forall l', c_outputs c' !! i <> Some (Some l')) /\
        Coins_has i c' = false /\
        (forall j l', j <> i ->
           (c_outputs c' !! j = Some (Some l')
            <-> c_outputs c !! j = Some (Some l'))) /\
        last (c_outputs c') <> Some None /\
        (length (c_outputs c') <= length (c_outputs c))%nat
  | _ => Coins_remove i c = (None, c)
  end.
Proof.
  destruct (c_outputs c !! i) as [[l|]|] eqn:E.
  - rewrite (Coins_remove_entry i l c E). eexists. split; [reflexivity|].
    set (c1 := {| c_hash := c_hash c; c_outputs := <[i := None]> (c_outputs c) |}).
    destruct (Coins_cleanup_facts c1) as (Hh & Hp & Hs & Hl).
    pose proof (lookup_lt_Some _ _ _ E) as Hi.
    assert (H1 : forall j, slot c1 j = if decide (j = i) then None else slot c j).
    { intros j. unfold slot. cbn [c_outputs c1].
      destruct (decide (j = i)) as [->|Hne].
      - rewrite list_lookup_insert_eq by exact Hi. reflexivity.
      - rewrite list_lookup_insert_ne by congruence. reflexivity. }
    split; [exact Hh|]. split; [|split; [|split; [|split]]].
    + intros l' Hx. apply slot_entry in Hx. rewrite Hs, H1 in Hx.
      rewrite decide_True in Hx by reflexivity. discriminate.
    + rewrite Coins_has_slot, Hs, H1, decide_True by reflexivity.
      apply bool_decide_eq_false. intros [x Hx]. discriminate.
    + intros j l' Hne. rewrite <- !slot_entry, Hs, H1.
      rewrite decide_False by exact Hne. reflexivity.
    + exact Hl.
    + apply prefix_length in Hp. cbn [c_outputs c1] in Hp.
      rewrite length_insert in Hp. exact Hp.
  - unfold Coins_remove, Coins_get. pose proof (lookup_lt_Some _ _ _ E) as Hi.
    rewrite decide_False by lia. rewrite E. reflexivity.
  - unfold Coins_remove, Coins_get. apply lookup_ge_None_1 in E.
    rewrite decide_True by lia. reflexivity.
Qed.

Lemma trim_unique (a b : list (option loc)) (ka kb : nat) :
  a ++ replicate ka None = b ++ replicate kb None ->
  last a <> Some None -> last b <> Some None -> a = b.
Proof.
  revert a. induction b as [|x b IH]; intros a Htail Ha Hb.
  - destruct a as [|y a]; [reflexivity|].
    exfalso. assert (Hall : Forall (fun o => o = None) (y :: a)).
    { assert (Hf : Forall (fun o : option loc => o = None)
                     ((y :: a) ++ replicate ka None)).
      { rewrite Htail. cbn [app]. apply Forall_replicate. reflexivity. }
      apply Forall_app in Hf as [Hf _]. exact Hf. }
    rewrite last_lookup in Ha.
    destruct (lookup_lt_is_Some_2 (y :: a) (Nat.pred (length (y :: a)))
                ltac:(cbn; lia)) as [z Hz].
    rewrite Hz in Ha. rewrite Forall_lookup in Hall.
    rewrite (Hall _ _ Hz) in Ha. contradiction.
  - destruct a as [|y a].
    + exfalso.
      assert (Hall : Forall (fun o : option loc => o = None)
                       ((x :: b) ++ replicate kb None)).
      { rewrite <- Htail. cbn [app]. apply Forall_replicate. reflexivity. }
      apply Forall_app in Hall as [Hall _].
      rewrite last_lookup in Hb.
      destruct (lookup_lt_is_Some_2 (x :: b) (Nat.pred (length (x :: b)))
                  ltac:(cbn; lia)) as [z Hz].
      rewrite Hz in Hb. rewrite Forall_lookup in Hall.
      rewrite (Hall _ _ Hz) in Hb. contradiction.
    + cbn [app] in Htail. injection Htail as <- Htail.
      f_equal. apply (IH a Htail).
      * destruct a as [|y' a]; [cbn; discriminate|exact Ha].
      * destruct b as [|x' b]; [cbn; discriminate|exact Hb].
Qed.

(** X9.  On a bucket whose outputs do not end in [null], [add] on a free
    index followed by [remove] of that index gives back the entry and the
    bucket as it was before the [add]: the padding of [add] is trimmed
    again. *)
Theorem Coins_add_remove (i : nat) (l : loc) (c : Coins) :
  last (c_outputs c) <> Some None ->
  (forall l0, c_outputs c !! i <> Some (Some l0)) ->
  exists c1,
    Coins_add i l c = (Ret tt, c1) /\
    c_outputs c1 !! i = Some (Some l) /\
    Coins_remove i c1 = (Some l, c).
Proof.
  intros Hlast Hfree. rewrite (Coins_add_outputs i l c Hfree).
  eexists. split; [reflexivity|].
  set (outs := c_outputs c ++ replicate (S i - length (c_outputs c)) None).
  assert (Hlen : (i < length outs)%nat).
  { subst outs. rewrite length_app, length_replicate. lia. }
  assert (Hat : <[i := Some l]> outs !! i = Some (Some l))
    by (apply list_lookup_insert_eq; lia).
  cbn [c_outputs]. split; [exact Hat|].
  rewrite (Coins_remove_entry i l
             {| c_hash := c_hash c; c_outputs := <[i := Some l]> outs |} Hat).
  cbn [c_hash c_outputs].
  rewrite list_insert_insert_eq.
  assert (Hback : <[i := None]> outs = outs).
  { apply list_insert_id. subst outs.
    destruct (decide (i < length (c_outputs c))%nat) as [Hi|Hi].
    - rewrite lookup_app_l by exact Hi.
      destruct (lookup_lt_is_Some_2 (c_outputs c) i Hi) as [[l0|] Hx];
        [exfalso; exact (Hfree l0 Hx)|exact Hx].
    - rewrite lookup_app_r by lia. apply lookup_replicate_2. lia. }
  rewrite Hback.
  set (c2 := {| c_hash := c_hash c; c_outputs := outs |}).
  pose proof (Coins_cleanup_tail c2) as Htail.
  destruct (Coins_cleanup_facts c2) as (Hh & _ & _ & Hl2).
  cbn [c_outputs c2] in Htail.
  assert (Hout : c_outputs (Coins_cleanup c2) = c_outputs c).
  { subst outs. symmetry in Htail.
    exact (trim_unique _ _ _ _ Htail Hl2 Hlast). }
  destruct (Coins_cleanup c2) as [h2 o2] eqn:E2. cbn in Hh, Hout.
  destruct c as [h o]. cbn in *. subst. reflexivity.
Qed.

End SlotOps.

(** ** Buckets built from a transaction *)

Section FromTX.
Context `{Collaborators}.

(** The entry [RawCoin.fromTX] builds for an output of [tx]. *)
Lemma fromTX_loop_spec (tx : TX) (h : Z) (outs : list Output) :
  forall (i : nat) (c : Coins) (s : list CoinEntry),
    (forall k o, outs !! k = Some o -> outputs tx !! (i + k)%nat = Some o) ->
    length (c_outputs c) = i ->
    exists c' new,
      fromTX_loop tx h outs i c s = (Ret c', s ++ new) /\
      c_hash c' = c_hash c /\
      length (c_outputs c') = (i + length outs)%nat /\
      (forall j, (j < i)%nat -> c_outputs c' !! j = c_outputs c !! j) /\
      (forall k o, outs !! k = Some o ->
         if isUnspendable (script o)
         then c_outputs c' !! (i + k)%nat = Some None
         else exists l,
             c_outputs c' !! (i + k)%nat = Some (Some l) /\
             (length s <= l)%nat /\
             (s ++ new) !! l
             = Some {| version := tx_version tx; height := h;
                       coinbase := tx_coinbase tx; output := o;
                       spent := false; raw := None |}) /\
      (forall j j' l, (i <= j)%nat -> (i <= j')%nat ->
         c_outputs c' !! j = Some (Some l) ->
         c_outputs c' !! j' = Some (Some l) -> j = j').
Proof.
  induction outs as [|o rest IH]; intros i c s Htx Hlen.
  - exists c, []. rewrite app_nil_r. cbn [fromTX_loop length].
    split; [reflexivity|]. split; [reflexivity|]. split; [lia|].
    split; [reflexivity|]. split.
    + intros k o Hk. rewrite lookup_nil in Hk. discriminate.
    + intros j j' l Hj Hj' Hx. apply lookup_lt_Some in Hx. lia.
  - assert (Htx' : forall k o', rest !! k = Some o' ->
                     outputs tx !! (S i + k)%nat = Some o').
    { intros k o' Hk. replace (S i + k)%nat with (i + S k)%nat by lia.
      apply Htx. exact Hk. }
    assert (Hrange : forall (c' : Coins) (s1 new : list CoinEntry) j l,
              length (c_outputs c') = (S i + length rest)%nat ->
              (forall k o', rest !! k = Some o' ->
                 if isUnspendable (script o')
                 then c_outputs c' !! (S i + k)%nat = Some None
                 else exists l,
                     c_outputs c' !! (S i + k)%nat = Some (Some l) /\
                     (length s1 <= l)%nat /\
                     (s1 ++ new) !! l
                     = Some {| version := tx_version tx; height := h;
                               coinbase := tx_coinbase tx; output := o';
                               spent := false; raw := None |}) ->
              (S i <= j)%nat -> c_outputs c' !! j = Some (Some l) ->
              (length s1 <= l)%nat).
    { intros c' s1 new j l Hl Hch Hj Hx.
      pose proof (lookup_lt_Some _ _ _ Hx) as Hjl.
      assert (Hjr : (j - S i < length rest)%nat) by (unfold loc in *; lia).
      destruct (lookup_lt_is_Some_2 rest (j - S i)%nat Hjr) as [o' Ho'].
      specialize (Hch _ _ Ho').
      replace (S i + (j - S i))%nat with j in Hch by lia.
      destruct (isUnspendable (script o')).
      - unfold loc in *. congruence.
      - destruct Hch as (l' & Hl' & Hge & _). unfold loc in *. congruence. }
    cbn [fromTX_loop]. destruct (isUnspendable (script o)) eqn:Eu.
    + destruct (IH (S i) (Coins_push c None) s Htx')
        as (c' & new & Hrun & Hh & Hl & Hpre & Hch & Hinj).
      { unfold Coins_push. cbn [c_outputs]. rewrite length_app. cbn. lia. }
      assert (Hi : c_outputs c' !! i = Some None).
      { rewrite Hpre by lia. unfold Coins_push. cbn [c_outputs].
        rewrite lookup_app_r by lia. rewrite Hlen, Nat.sub_diag. reflexivity. }
      exists c', new. split; [exact Hrun|]. split; [exact Hh|].
      split; [cbn [length]; lia|]. split; [|split].
      * intros j Hj. rewrite Hpre by lia. unfold Coins_push. cbn [c_outputs].
        apply lookup_app_l. lia.
      * intros [|k] o' Hk.
        -- cbn in Hk. injection Hk as <-. rewrite Eu, Nat.add_0_r. exact Hi.
        -- cbn in Hk. replace (i + S k)%nat with (S i + k)%nat by lia.
           exact (Hch k o' Hk).
      * intros j j' l Hj Hj' Hx Hx'.
        destruct (decide (j = i)) as [->|Hne]; [congruence|].
        destruct (decide (j' = i)) as [->|Hne']; [congruence|].
        apply (Hinj j j' l); [lia|lia|exact Hx|exact Hx'].
    + unfold RawCoin_fromTX, CoinEntry_fromTX.
      pose proof (Htx 0%nat o eq_refl) as Ho. rewrite Nat.add_0_r in Ho.
      rewrite Ho.
      set (e := {| version := tx_version tx; height := h;
                   coinbase := tx_coinbase tx; output := o;
                   spent := false; raw := None |}).
      destruct (IH (S i) (Coins_push c (Some (length s))) (s ++ [e]) Htx')
        as (c' & new & Hrun & Hh & Hl & Hpre & Hch & Hinj).
      { unfold Coins_push. cbn [c_outputs]. rewrite length_app. cbn. lia. }
      assert (Hi : c_outputs c' !! i = Some (Some (length s))).
      { rewrite Hpre by lia. unfold Coins_push. cbn [c_outputs].
        rewrite lookup_app_r by lia. rewrite Hlen, Nat.sub_diag. reflexivity. }
      exists c', ([e] ++ new). rewrite app_assoc.
      split; [exact Hrun|]. split; [exact Hh|].
      split; [cbn [length]; lia|]. split; [|split].
      * intros j Hj. rewrite Hpre by lia. unfold Coins_push. cbn [c_outputs].
        apply lookup_app_l. lia.
      * intros [|k] o' Hk.
        -- cbn in Hk. injection Hk as <-. rewrite Eu, Nat.add_0_r.
           exists (length s). split; [exact Hi|]. split; [lia|].
           rewrite lookup_app_l by (rewrite length_app; cbn; lia).
           rewrite lookup_app_r by lia. rewrite Nat.sub_diag. reflexivity.
        -- cbn in Hk. replace (i + S k)%nat with (S i + k)%nat by lia.
           specialize (Hch k o' Hk). destruct (isUnspendable (script o')).
           ++ exact Hch.
           ++ destruct Hch as (l & Hl1 & Hl2 & Hl3).
              exists l. split; [exact Hl1|]. split; [|exact Hl3].
              rewrite length_app in Hl2. lia.
      * intros j j' l Hj Hj' Hx Hx'.
        assert (Hnew : forall j0 l0, (S i <= j0)%nat ->
                  c_outputs c' !! j0 = Some (Some l0) ->
                  (length (s ++ [e]) <= l0)%nat).
        { intros j0 l0. apply (Hrange c' (s ++ [e]) new j0 l0 Hl Hch). }
        rewrite length_app in Hnew. cbn [length] in Hnew.
        destruct (decide (j = i)) as [->|Hne];
          destruct (decide (j' = i)) as [->|Hne']; [reflexivity| | |].
        -- exfalso. assert (Hle : (S i <= j')%nat) by lia.
           assert (l = length s) by (unfold loc in *; congruence). subst l.
           specialize (Hnew j' _ Hle Hx'). lia.
        -- exfalso. assert (Hle : (S i <= j)%nat) by lia.
           assert (l = length s) by (unfold loc in *; congruence). subst l.
           specialize (Hnew j _ Hle Hx). lia.
        -- apply (Hinj j j' l); [lia|lia|exact Hx|exact Hx'].
Qed.

Lemma Coins_fromTX_facts (tx : TX) (h : Z) (s : list CoinEntry) :
  exists c new,
    Coins_fromTX tx h s = (Ret c, s ++ new) /\
    c_hash c = tx_hash tx /\
    (length (c_outputs c) <= length (outputs tx))%nat /\
    last (c_outputs c) <> Some None /\
    (forall i,
       match outputs tx !! i with
       | Some o =>
           if isUnspendable (script o)
           then forall l, c_outputs c !! i <> Some (Some l)
           else exists l,
               c_outputs c !! i = Some (Some l) /\
               (length s <= l)%nat /\
               (s ++ new) !! l
               = Some {| version := tx_version tx; height := h;
                         coinbase := tx_coinbase tx; output := o;
                         spent := false; raw := None |}
       | None => c_outputs c !! i = None
       end) /\
    (forall i j l, c_outputs c !! i = Some (Some l) ->
                   c_outputs c !! j = Some (Some l) -> i = j).
Proof.
  unfold Coins_fromTX.
  set (c0 := {| c_hash := tx_hash tx; c_outputs := c_outputs Coins_new |}).
  destruct (fromTX_loop_spec tx h (outputs tx) 0 c0 s)
    as (c1 & new & Hrun & Hh & Hl & _ & Hch & Hinj);
    [intros k o Hk; exact Hk|reflexivity|].
  rewrite Hrun. exists (Coins_cleanup c1), new.
  destruct (Coins_cleanup_facts c1) as (Hh' & Hp & Hs & Hlast).
  split; [reflexivity|]. split; [rewrite Hh', Hh; reflexivity|].
  split; [apply prefix_length in Hp; cbn [Nat.add] in Hl; lia|].
  split; [exact Hlast|]. split.
  - intros i. destruct (outputs tx !! i) as [o|] eqn:Eo.
    + specialize (Hch i o Eo). cbn [Nat.add] in Hch.
      destruct (isUnspendable (script o)).
      * intros l Hx. apply slot_entry in Hx. rewrite Hs in Hx.
        apply slot_entry in Hx. congruence.
      * destruct Hch as (l & Hl1 & Hl2 & Hl3). exists l.
        split; [|split; [exact Hl2|exact Hl3]].
        apply slot_entry. rewrite Hs. apply slot_entry. exact Hl1.
    + apply lookup_ge_None_2. apply lookup_ge_None_1 in Eo.
      apply prefix_length in Hp. cbn [Nat.add] in Hl. lia.
  - intros i j l Hi Hj. apply slot_entry in Hi, Hj. rewrite Hs in Hi, Hj.
    apply slot_entry in Hi, Hj. apply (Hinj i j l); [lia|lia|exact Hi|exact Hj].
Qed.

(** X10.  [Coins.fromTX(tx, height)] never throws.  The bucket has the hash
    of [tx]; slot [i] holds an entry exactly when output [i] of [tx] can be
    spent, and that entry is a new, unspent one with the version and
    coinbase flag of [tx], the height given and that output; no entry is in
    two slots; the outputs do not end in [null], so they are shorter than
    those of [tx] when its last outputs cannot be spent; and the entries
    there were are untouched. *)
Theorem Coins_fromTX_spec (tx : TX) (h : Z) (s : list CoinEntry) :
  exists c new,
    Coins_fromTX tx h s = (Ret c, s ++ new) /\
    c_hash c = tx_hash tx /\
    (length (c_outputs c) <= length (outputs tx))%nat /\
    last (c_outputs c) <> Some None /\
    (forall i,
       match outputs tx !! i with
       | Some o =>
           if isUnspendable (script o)
           then forall l, c_outputs c !! i <> Some (Some l)
           else exists l,
               c_outputs c !! i = Some (Some l) /\
               (length s <= l)%nat /\
               (s ++ new) !! l
               = Some {| version := tx_version tx; height := h;
                         coinbase := tx_coinbase tx; output := o;
                         spent := false; raw := None |}
       | None => c_outputs c !! i = None
       end) /\
    (forall i j l, c_outputs c !! i = Some (Some l) ->
                   c_outputs c !! j = Some (Some l) -> i = j).
Proof. apply Coins_fromTX_facts. Qed.

End FromTX.

(** ** The view after [addTX], and spending twice *)

Section ViewOps.
Context `{Collaborators}.

(** X11.  [addTX(tx, height)] never throws: it installs the bucket of
    [Coins.fromTX] under the hash of [tx], in place of any bucket there was,
    and touches no other key, no entry there was and not the undo stack.
    For an input that refers to output [i] of [tx]: when that output can be
    spent, [hasEntry] is true, [getHeight] is the height given, [isCoinbase]
    is the flag of [tx], [getOutput] is that output and the entry is
    unspent; when it cannot be spent, or [tx] has no such output, [hasEntry]
    is false, [getHeight] is -1 and [isCoinbase] is false. *)
Theorem addTX_accessors (tx : TX) (h : Z) (st : State) :
  exists c new,
    addTX tx h st
    = (Ret c, {| store := store st ++ new;
                 view_map := <[tx_hash tx := c]> (view_map st);
                 undo := undo st |}) /\
    forall i st',
      st' = {| store := store st ++ new;
               view_map := <[tx_hash tx := c]> (view_map st);
               undo := undo st |} ->
      let input := mkInput (mkOutpoint (tx_hash tx) i) in
      match outputs tx !! i with
      | Some o =>
          if isUnspendable (script o)
          then hasEntry input st' = false /\ getHeight input st' = -1 /\
               isCoinbase input st' = false
          else hasEntry input st' = true /\ getHeight input st' = h /\
               isCoinbase input st' = tx_coinbase tx /\
               getOutput input st' = Ret (Some o) /\
               Coins_isUnspent (store st') i c = true
      | None =>
          hasEntry input st' = false /\ getHeight input st' = -1 /\
          isCoinbase input st' = false /\ getEntry input st' = undefined /\
          getOutput input st' = Ret None
      end.
Proof.
  destruct (Coins_fromTX_facts tx h (store st))
    as (c & new & Hrun & Hh & Hlen & Hlast & Hch & Hinj).
  exists c, new. split.
  - unfold addTX. rewrite Hrun. reflexivity.
  - intros i st' -> input. subst input.
    unfold hasEntry, getHeight, isCoinbase, getOutput, getEntry, view_get.
    cbn [prevout hash index view_map store]. rewrite !lookup_insert_eq.
    specialize (Hch i). destruct (outputs tx !! i) as [o|] eqn:Eo.
    + destruct (isUnspendable (script o)).
      * assert (Hs : slot c i = None).
        { destruct (slot c i) as [l|] eqn:Es; [|reflexivity].
          apply slot_entry in Es. destruct (Hch l Es). }
        rewrite Coins_has_slot, Coins_get_slot, Hs.
        split; [reflexivity|]. destruct (decide _); split; reflexivity.
      * destruct Hch as (l & Hl & _ & He).
        destruct (Coins_read_entry (store st ++ new) c i l Hl) as (Hg & Ho & _).
        rewrite Coins_has_slot, Hg, Ho, Coins_isUnspent_slot.
        rewrite (proj2 (slot_entry c i l) Hl).
        rewrite (deref_lookup _ _ _ He). cbn. repeat split.
    + assert (Hge : (length (c_outputs c) <= i)%nat)
        by (apply lookup_ge_None_1; exact Hch).
      destruct (Coins_read_past_end (store st ++ new) c i Hge) as (Hg & Ho & _).
      rewrite Coins_has_slot, Hg, Ho, (slot_ge c i Hge). repeat split.
Qed.

(** X12.  [spendOutput] on an outpoint whose entry is cached and unspent
    returns true, marks that entry spent and puts it on the undo stack, and
    leaves the map as it was; a second [spendOutput] on the same outpoint
    returns false and changes nothing: an entry gets on the undo stack
    once.  On an outpoint whose hash has no bucket it returns false and
    changes nothing. *)
Theorem spendOutput_twice (st : State) (p : Outpoint) (c : Coins) (l : loc)
    (e : CoinEntry) :
  view_map st !! hash p = Some c ->
  c_outputs c !! index p = Some (Some l) ->
  store st !! l = Some e -> spent e = false ->
  let st1 := {| store := <[l := set_spent e]> (store st);
                view_map := view_map st;
                undo := undo st ++ [l] |} in
  spendOutput p st = (Ret true, st1) /\
  spendOutput p st1 = (Ret false, st1) /\
  hasEntry (mkInput p) st1 = true /\
  forall q, view_map st !! hash q = None -> spendOutput q st = (Ret false, st).
Proof.
  intros Hc Hs He Hu st1.
  assert (Hslot : slot c (index p) = Some l) by (apply slot_entry; exact Hs).
  assert (Hd : deref (store st) l = e) by (apply deref_lookup; exact He).
  assert (Hl : (l < length (store st))%nat) by (eapply lookup_lt_Some; exact He).
  split; [|split; [|split]].
  - unfold spendOutput, view_get. rewrite Hc. unfold spendFrom.
    rewrite (Coins_spend_unspent (store st) (index p) c l Hslot)
      by (rewrite Hd; exact Hu).
    rewrite Hd. reflexivity.
  - unfold spendOutput, view_get. subst st1. cbn [view_map]. rewrite Hc.
    unfold spendFrom. cbn [store].
    rewrite Coins_spend_fail.
    + destruct st; reflexivity.
    + rewrite Coins_isUnspent_slot, Hslot.
      rewrite deref_insert_eq by exact Hl. reflexivity.
  - unfold hasEntry, view_get. subst st1. cbn [view_map prevout]. rewrite Hc.
    rewrite Coins_has_slot, Hslot. reflexivity.
  - intros q Hq. unfold spendOutput, view_get. rewrite Hq. reflexivity.
Qed.

(** The record of an entry does not carry its [spent] flag. *)
Lemma toWriter_set_spent (e : CoinEntry) (bw : list byte) :
  toWriter (set_spent e) bw = toWriter e bw.
Proof. reflexivity. Qed.

Lemma getSize_set_spent (e : CoinEntry) : getSize (set_spent e) = getSize e.
Proof. reflexivity. Qed.

Lemma toFast_loop_spend (l : loc) (st : State)
    (ins : list Input) (bw : list byte) (size : nat) :
  let st1 := {| store := <[l := set_spent (deref (store st) l)]> (store st);
                view_map := view_map st;
                undo := undo st ++ [l] |} in
  toFast_loop ins st1 bw = toFast_loop ins st bw /\
  getFastSize_loop ins st1 size = getFastSize_loop ins st size.
Proof.
  intros st1.
  assert (Hg : forall input, getEntry input st1 = getEntry input st)
    by reflexivity.
  assert (Hw : forall l' bw', toWriter (deref (store st1) l') bw'
                              = toWriter (deref (store st) l') bw').
  { intros l' bw'. subst st1. cbn [store].
    destruct (decide (l = l')) as [<-|Hne].
    - destruct (decide (l < length (store st))%nat) as [Hl|Hl].
      + rewrite deref_insert_eq by exact Hl. reflexivity.
      + rewrite list_insert_ge by lia. reflexivity.
    - rewrite deref_insert_ne by exact Hne. reflexivity. }
  assert (Hz : forall l', getSize (deref (store st1) l')
                          = getSize (deref (store st) l')).
  { intros l'. subst st1. cbn [store].
    destruct (decide (l = l')) as [<-|Hne].
    - destruct (decide (l < length (store st))%nat) as [Hl|Hl].
      + rewrite deref_insert_eq by exact Hl. reflexivity.
      + rewrite list_insert_ge by lia. reflexivity.
    - rewrite deref_insert_ne by exact Hne. reflexivity. }
  clearbody st1. revert bw size.
  induction ins as [|input rest IH]; intros bw size; [split; reflexivity|].
  cbn [toFast_loop getFastSize_loop]. rewrite Hg.
  destruct (getEntry input st) as [| |l'].
  - apply IH.
  - apply IH.
  - rewrite Hw, Hz. apply IH.
Qed.

End ViewOps.

Section SpendFast.
Context `{CollaboratorLaws}.

(** X13.  Spending leaves no trace in the fast form.  After a
    [spendOutput] that returns true the entry at the outpoint has gone from
    unspent to spent and onto the undo stack, and [toFast] still writes,
    for every transaction, the flag 1 and the record of each coin the map
    held before, and the flag 0 elsewhere: the bytes it wrote before.
    [getFastSize] is what it was, the number of those bytes when the coins
    are of the record format.  The record has no field for [spent], so a
    view decoded from the fast form holds the spent coin as unspent. *)
Theorem spend_keeps_fast_form (st st' : State) (p : Outpoint) (tx : TX)
    (bw : list byte) :
  view_in_store st ->
  spendOutput p st = (Ret true, st') ->
  toFast bw tx st' = bw ++ fast_form_spec st tx /\
  toFast bw tx st' = toFast bw tx st /\
  getFastSize tx st' = getFastSize tx st /\
  (fast_encodable st (inputs tx) ->
   getFastSize tx st' = length (fast_form_spec st tx)) /\
  exists c l,
    view_map st !! hash p = Some c /\
    c_outputs c !! index p = Some (Some l) /\
    view_map st' = view_map st /\
    spent (deref (store st) l) = false /\
    store st' = <[l := set_spent (deref (store st) l)]> (store st) /\
    spent (deref (store st') l) = true /\
    undo st' = undo st ++ [l].
Proof.
  intros Hin. unfold spendOutput, view_get.
  destruct (view_map st !! hash p) as [c|] eqn:Ec; [|discriminate].
  unfold spendFrom, Coins_spend.
  destruct (Coins_get (index p) c) as [| |l] eqn:Eg; try discriminate.
  destruct (spent (deref (store st) l)) eqn:Es; [discriminate|].
  intros Hrun. injection Hrun as <-.
  unfold with_undo, with_store. cbn [store view_map undo].
  destruct (toFast_loop_spend l st (inputs tx) bw
              (0 + length (inputs tx))) as [Hw Hz].
  cbv zeta in Hw, Hz.
  assert (Hslot : slot c (index p) = Some l) by (apply Coins_get_obj; exact Eg).
  assert (Hl : (l < length (store st))%nat) by exact (Hin _ _ Ec (index p) l Hslot).
  split; [|split; [exact Hw|split; [exact Hz|split]]].
  - unfold toFast in *. rewrite Hw. apply toFast_loop_app.
  - intros Henc. unfold getFastSize in *. rewrite Hz.
    pose proof (getFastSize_loop_length st (inputs tx)
                  (0 + length (inputs tx)) Henc) as Hlen.
    unfold fast_form_spec. lia.
  - exists c, l. split; [reflexivity|].
    split; [apply slot_entry; exact Hslot|]. split; [reflexivity|].
    split; [exact Es|]. split; [reflexivity|]. split; [|reflexivity].
    rewrite deref_insert_eq by exact Hl. reflexivity.
Qed.

End SpendFast.

(** ** Reading coins from the backing store *)

Section ReadCoin.
Context `{Collaborators}.

Lemma readCoin_cached_spec (db : ChainDB) (input : Input) (st : State) :
  view_in_store st ->
  exists r st',
    readCoin db input st = (Ret r, st') /\
    view_in_store st' /\ undo st' = undo st /\ extends st st' /\
    (forall q, cached st' q
               = match cached st q with
                 | Some l => Some l
                 | None => if decide (q = prevout input)
                           then if db_spendable db q
                                then Some (length (store st)) else None
                           else None
                 end) /\
    (r = None <-> cached st' (prevout input) = None) /\
    (forall c, r = Some c -> view_map st' !! hash (prevout input) = Some c) /\
    (is_Some (cached st (prevout input)) -> st' = st).
Proof.
  intros Hin. unfold readCoin. rewrite hasEntry_cached.
  destruct (cached st (prevout input)) as [l|] eqn:Ec.
  - rewrite bool_decide_eq_true_2 by eauto.
    unfold view_get. pose proof Ec as Ec'. unfold cached in Ec'.
    destruct (view_map st !! hash (prevout input)) as [c|] eqn:Eb; [|discriminate].
    exists (Some c), st. split; [reflexivity|]. split; [exact Hin|].
    split; [reflexivity|]. split; [apply extends_refl|].
    split; [|split; [|split]].
    + intros q. destruct (cached st q) as [l'|] eqn:Eq; [reflexivity|].
      destruct (decide (q = prevout input)) as [->|Hne]; [congruence|reflexivity].
    + rewrite Ec. split; discriminate.
    + intros c' Hc'. congruence.
    + reflexivity.
  - rewrite bool_decide_eq_false_2 by (intros [x Hx]; discriminate).
    unfold db_spendable.
    destruct (db (prevout input)) as [e|] eqn:Edb.
    + set (st1 := with_store st (store st ++ [e])).
      assert (Hin1 : view_in_store st1) by (apply view_in_store_alloc; exact Hin).
      assert (Hl : (length (store st) < length (store st1))%nat).
      { subst st1. cbn [store with_store]. rewrite length_app. cbn. lia. }
      destruct (addEntry_spec st1 (prevout input) (length (store st)) Hin1 Hl)
        as (r & st' & Hrun & Hst & Hun & Hin' & Hother & Hp & Hr).
      assert (Hc1 : forall q, cached st1 q = cached st q) by reflexivity.
      assert (Hd : deref (store st1) (length (store st)) = e)
        by apply deref_app_new.
      rewrite Hd in Hp, Hr. rewrite Hc1, Ec in Hp.
      assert (Hcq : forall q, cached st' q
                 = match cached st q with
                   | Some l => Some l
                   | None => if decide (q = prevout input)
                             then if negb (isUnspendable (script (output e)))
                                  then Some (length (store st)) else None
                             else None
                   end).
      { intros q. destruct (decide (q = prevout input)) as [->|Hne].
        - rewrite Hp, Ec. destruct (isUnspendable _); reflexivity.
        - rewrite Hother by exact Hne. rewrite Hc1.
          destruct (cached st q); reflexivity. }
      exists r, st'. split; [exact Hrun|]. split; [exact Hin'|].
      split; [rewrite Hun; reflexivity|]. split; [|split; [|split; [|split]]].
      * split; [rewrite Hst; lia|]. split.
        -- intros q l Hq. rewrite Hcq, Hq. reflexivity.
        -- intros l Hlt Hs. rewrite Hst. subst st1. cbn [store with_store].
           rewrite deref_app_l by exact Hlt. exact Hs.
      * intros q. rewrite Hcq. destruct (cached st q); [reflexivity|].
        destruct (decide (q = prevout input)) as [->|Hne]; [|reflexivity].
        rewrite Edb. reflexivity.
      * rewrite Hp. destruct r as [c|].
        -- destruct Hr as [_ Hu]. rewrite Hu. split; discriminate.
        -- rewrite Hr. split; reflexivity.
      * intros c ->. exact (proj1 Hr).
      * intros [x Hx]. discriminate.
    + exists None, st. split; [reflexivity|]. split; [exact Hin|].
      split; [reflexivity|]. split; [apply extends_refl|].
      split; [|split; [|split]].
      * intros q. destruct (cached st q) as [l'|] eqn:Eq; [reflexivity|].
        destruct (decide (q = prevout input)) as [->|Hne]; [|reflexivity].
        rewrite Edb. reflexivity.
      * rewrite Ec. split; reflexivity.
      * intros c Hc. discriminate.
      * reflexivity.
Qed.

(** X14.  [readCoin] asks the backing store only on a miss.  When the map
    holds the coin of the input it returns the bucket of the view and
    leaves the view as it is, whatever the backing store holds.  On a miss
    it returns nothing and changes nothing when the backing store has no
    coin, and when the backing store has one that can be spent it stores
    that coin as a new entry at the outpoint and returns the bucket.  After
    a [readCoin] that returned a bucket the map holds the coin, and a
    second one on the same input returns that bucket again and changes
    nothing, from any backing store. *)
Theorem readCoin_cache_hit (db : ChainDB) (input : Input) (st : State) :
  view_in_store st ->
  (forall c l,
     view_map st !! hash (prevout input) = Some c ->
     c_outputs c !! index (prevout input) = Some (Some l) ->
     hasEntry input st = true /\
     forall db', readCoin db' input st = (Ret (Some c), st)) /\
  (cached st (prevout input) = None ->
   match db (prevout input) with
   | None => readCoin db input st = (Ret None, st)
   | Some e =>
       isUnspendable (script (output e)) = false ->
       exists c st',
         readCoin db input st = (Ret (Some c), st') /\
         store st' = store st ++ [e] /\ undo st' = undo st /\
         view_map st' !! hash (prevout input) = Some c /\
         c_outputs c !! index (prevout input) = Some (Some (length (store st)))
   end) /\
  (forall c st', readCoin db input st = (Ret (Some c), st') ->
     view_map st' !! hash (prevout input) = Some c /\
     (exists l, c_outputs c !! index (prevout input) = Some (Some l)) /\
     hasEntry input st' = true /\
     forall db', readCoin db' input st' = (Ret (Some c), st')).
Proof.
  intros Hin.
  assert (Hhit : forall st0 c0,
            hasEntry input st0 = true ->
            view_map st0 !! hash (prevout input) = Some c0 ->
            forall db', readCoin db' input st0 = (Ret (Some c0), st0)).
  { intros st0 c0 Hh Hc db'. unfold readCoin. rewrite Hh.
    unfold view_get. rewrite Hc. reflexivity. }
  split; [|split].
  - intros c l Hc Hs.
    assert (Hh : hasEntry input st = true).
    { unfold hasEntry, view_get. rewrite Hc, Coins_has_slot.
      rewrite (proj2 (slot_entry c _ l) Hs).
      apply bool_decide_eq_true_2. eauto. }
    split; [exact Hh|]. apply Hhit; assumption.
  - intros Hmiss.
    assert (Hh : hasEntry input st = false).
    { rewrite hasEntry_cached, Hmiss. apply bool_decide_eq_false_2.
      intros [x Hx]. discriminate. }
    destruct (db (prevout input)) as [e|] eqn:Edb.
    + intros Hu.
      destruct (readCoin_cached_spec db input st Hin)
        as (r & st' & Hrun & _ & Hun & _ & Hc & Hnone & Hsome & _).
      specialize (Hc (prevout input)).
      rewrite Hmiss, decide_True in Hc by reflexivity.
      unfold db_spendable in Hc. rewrite Edb, Hu in Hc. cbn [negb] in Hc.
      destruct r as [c|];
        [|rewrite (proj1 Hnone eq_refl) in Hc; discriminate Hc].
      specialize (Hsome c eq_refl).
      exists c, st'. split; [exact Hrun|].
      assert (Hst : store st' = store st ++ [e]).
      { revert Hrun. unfold readCoin. rewrite Hh, Edb.
        intros Hrun.
        destruct (addEntry_spec (with_store st (store st ++ [e]))
                    (prevout input) (length (store st)))
          as (r2 & st2 & Hrun2 & Hst2 & _);
          [apply view_in_store_alloc; exact Hin
          |cbn [store with_store]; rewrite length_app; cbn; lia|].
        rewrite Hrun2 in Hrun. injection Hrun as _ <-. exact Hst2. }
      split; [exact Hst|]. split; [exact Hun|]. split; [exact Hsome|].
      apply slot_entry. unfold cached in Hc. rewrite Hsome in Hc. exact Hc.
    + unfold readCoin. rewrite Hh, Edb. reflexivity.
  - intros c st' Hrun.
    destruct (readCoin_cached_spec db input st Hin)
      as (r & st1 & Hrun1 & _ & _ & _ & _ & Hnone & Hsome & _).
    rewrite Hrun in Hrun1. injection Hrun1 as <- <-.
    specialize (Hsome c eq_refl).
    destruct (cached st' (prevout input)) as [l|] eqn:E;
      [|pose proof (proj2 Hnone eq_refl) as Hx; discriminate Hx].
    assert (Hh : hasEntry input st' = true).
    { rewrite hasEntry_cached, E. apply bool_decide_eq_true_2. eauto. }
    split; [exact Hsome|]. split.
    { exists l. apply slot_entry. unfold cached in E.
      rewrite Hsome in E. exact E. }
    split; [exact Hh|]. apply Hhit; [exact Hh|exact Hsome].
Qed.

Lemma resolvable_after (db : ChainDB) (input : Input) (st st1 : State) :
  (forall q, cached st1 q
             = match cached st q with
               | Some l => Some l
               | None => if decide (q = prevout input)
                         then if db_spendable db q
                              then Some (length (store st)) else None
                         else None
               end) ->
  forall i, resolvable db st1 i = resolvable db st i.
Proof.
  intros Hc i. unfold resolvable. rewrite Hc.
  destruct (cached st (prevout i)) as [l|]; [reflexivity|].
  destruct (decide (prevout i = prevout input)) as [Heq|Hne].
  - destruct (db_spendable db (prevout i)) eqn:Ed.
    + rewrite bool_decide_eq_true_2 by eauto. reflexivity.
    + reflexivity.
  - reflexivity.
Qed.

Lemma forallb_same {A} (f g : A -> bool) (l : list A) :
  (forall x, f x = g x) -> forallb f l = forallb g l.
Proof.
  intros Hfg. induction l as [|x l IH]; [reflexivity|].
  cbn [forallb]. rewrite Hfg, IH. reflexivity.
Qed.

Lemma ensureInputs_loop_spec (db : ChainDB) (ins : list Input) :
  forall (found : bool) (st : State),
    view_in_store st ->
    exists st',
      ensureInputs_loop db ins found st
      = (Ret (found && forallb (resolvable db st) ins), st') /\
      view_in_store st' /\ undo st' = undo st /\ extends st st' /\
      (forall q, is_Some (cached st' q)
                 <-> is_Some (cached st q)
                     \/ (q ∈ prevout <$> ins /\ db_spendable db q = true)).
Proof.
  induction ins as [|input rest IH]; intros found st Hin.
  - exists st. cbn [ensureInputs_loop forallb]. rewrite andb_true_r.
    split; [reflexivity|]. split; [exact Hin|]. split; [reflexivity|].
    split; [apply extends_refl|].
    intros q. split; [auto|]. intros [Hq|[Hq _]]; [exact Hq|].
    cbn in Hq. apply elem_of_nil in Hq. destruct Hq.
  - destruct (readCoin_cached_spec db input st Hin)
      as (r & st1 & Hrun & Hin1 & Hun1 & Hext1 & Hc1 & Hnone & _ & _).
    destruct (IH (if r is Some _ then found else false) st1 Hin1)
      as (st' & Hrun' & Hin' & Hun' & Hext' & Hc').
    exists st'. split; [|split; [exact Hin'|split; [congruence|split]]].
    + cbn [ensureInputs_loop forallb].
      unfold mbind, M_bind, bind. rewrite Hrun, Hrun'. f_equal. f_equal.
      rewrite (forallb_same _ _ rest (resolvable_after db input st st1 Hc1)).
      assert (Hr : (if r is Some _ then true else false)
                   = resolvable db st input).
      { unfold resolvable. specialize (Hc1 (prevout input)).
        destruct (cached st (prevout input)) as [l|] eqn:Ec.
        - rewrite bool_decide_eq_true_2 by eauto. cbn.
          destruct r; [reflexivity|].
          rewrite (proj1 Hnone eq_refl) in Hc1. discriminate.
        - rewrite bool_decide_eq_false_2 by (intros [x Hx]; discriminate).
          cbn. rewrite decide_True in Hc1 by reflexivity.
          destruct (db_spendable db (prevout input)).
          + destruct r; [reflexivity|].
            rewrite (proj1 Hnone eq_refl) in Hc1. discriminate.
          + destruct r as [c|]; [|reflexivity].
            discriminate (proj2 Hnone Hc1). }
      rewrite <- Hr. destruct r, found; reflexivity.
    + eapply extends_trans; eassumption.
    + intros q. rewrite Hc'. rewrite (Hc1 q). cbn [fmap list_fmap].
      rewrite elem_of_cons.
      destruct (cached st q) as [l|] eqn:Eq.
      * split; [intros _; left; eauto|intros _; left; eauto].
      * destruct (decide (q = prevout input)) as [->|Hne].
        -- destruct (db_spendable db (prevout input)) eqn:Ed.
           ++ split; [intros _; right; auto|intros _; left; eauto].
           ++ split.
              ** intros [[x Hx]|[Hm Hd]]; [discriminate|congruence].
              ** intros [[x Hx]|[_ Hd]]; [discriminate|congruence].
        -- split.
           ++ intros [[x Hx]|[Hm Hd]]; [discriminate|]. right. auto.
           ++ intros [[x Hx]|[[Hm|Hm] Hd]]; [discriminate|contradiction|].
              right. auto.
Qed.

Lemma forallb_elem {A} (f : A -> bool) (l : list A) :
  forallb f l = true <-> forall x, x ∈ l -> f x = true.
Proof.
  rewrite forallb_forall. split; intros Hf x Hx; apply Hf.
  - apply list_elem_of_In. exact Hx.
  - apply list_elem_of_In. exact Hx.
Qed.

(** X15.  [ensureInputs] never throws and never stops early: it reads every
    input, so afterwards [hasEntry] is true of exactly the inputs whose coin
    was cached or is in the backing store with a script that can be spent,
    and the value returned is true exactly when that is all of them.  It
    leaves the undo stack alone, and what was cached or spent stays so. *)
Theorem ensureInputs_spec (db : ChainDB) (tx : TX) (st : State) :
  view_in_store st ->
  exists st',
    ensureInputs db tx st
    = (Ret (forallb (resolvable db st) (inputs tx)), st') /\
    view_in_store st' /\ undo st' = undo st /\ extends st st' /\
    (forall input, input ∈ inputs tx ->
       (is_Some (cached st' (prevout input))
        <-> is_Some (cached st (prevout input))
            \/ exists e, db (prevout input) = Some e /\
                         isUnspendable (script (output e)) = false) /\
       hasEntry input st'
       = (hasEntry input st
          || match db (prevout input) with
             | Some e => negb (isUnspendable (script (output e)))
             | None => false
             end)) /\
    (forall q, q ∉ prevout <$> inputs tx ->
       (is_Some (cached st' q) <-> is_Some (cached st q))) /\
    (forallb (resolvable db st) (inputs tx) = true
     <-> forall input, input ∈ inputs tx ->
           is_Some (cached st' (prevout input))).
Proof.
  intros Hin. unfold ensureInputs.
  destruct (ensureInputs_loop_spec db (inputs tx) true st Hin)
    as (st' & Hrun & Hin' & Hun & Hext & Hc).
  cbn [andb] in Hrun.
  assert (Hhas : forall input, input ∈ inputs tx ->
            hasEntry input st' = resolvable db st input).
  { intros input Hmem. rewrite hasEntry_cached. unfold resolvable.
    specialize (Hc (prevout input)).
    destruct (cached st (prevout input)) as [l|] eqn:Ec.
    - rewrite (bool_decide_eq_true_2 (is_Some (Some l))) by eauto.
      apply bool_decide_eq_true_2. apply Hc. left. eauto.
    - rewrite (bool_decide_eq_false_2 (is_Some None))
        by (intros [x Hx]; discriminate).
      cbn [orb]. destruct (db_spendable db (prevout input)) eqn:Ed.
      + apply bool_decide_eq_true_2. apply Hc. right. split; [|reflexivity].
        apply list_elem_of_fmap. exists input. auto.
      + apply bool_decide_eq_false_2. intros Hs. apply Hc in Hs.
        destruct Hs as [[x Hx]|[_ Hd]]; discriminate. }
  assert (Hsp : forall q, db_spendable db q = true
                  <-> exists e, db q = Some e /\
                                isUnspendable (script (output e)) = false).
  { intros q. unfold db_spendable. destruct (db q) as [e|].
    - rewrite negb_true_iff. split; [eauto|].
      intros (e' & He & Hu). congruence.
    - split; [discriminate|]. intros (e' & He & _). discriminate. }
  exists st'. split; [exact Hrun|]. split; [exact Hin'|].
  split; [exact Hun|]. split; [exact Hext|]. split; [|split].
  - intros input Hmem. split.
    + rewrite Hc, <- Hsp. split.
      * intros [Hs|[_ Hd]]; [left; exact Hs|right; exact Hd].
      * intros [Hs|Hd]; [left; exact Hs|right].
        split; [|exact Hd]. apply list_elem_of_fmap. exists input. auto.
    + rewrite (Hhas input Hmem). unfold resolvable.
      rewrite hasEntry_cached. reflexivity.
  - intros q Hq. rewrite Hc. split; [|auto].
    intros [Hs|[Hm _]]; [exact Hs|contradiction].
  - rewrite forallb_elem. split; intros Hall input Hmem.
    + specialize (Hall input Hmem). rewrite <- (Hhas input Hmem) in Hall.
      rewrite hasEntry_cached in Hall.
      apply bool_decide_eq_true_1 in Hall. exact Hall.
    + rewrite <- (Hhas input Hmem). rewrite hasEntry_cached.
      apply bool_decide_eq_true_2. apply Hall. exact Hmem.
Qed.

End ReadCoin.

(** ** The map of the view, and the fast form of a view without coins *)

Section ViewMap.
Context `{Collaborators}.

Lemma toFast_loop_nothing (st : State) (ins : list Input) (bw : list byte)
    (size : nat) :
  (forall input, input ∈ ins -> cached st (prevout input) = None) ->
  toFast_loop ins st bw = bw ++ replicate (length ins) Byte.x00 /\
  getFastSize_loop ins st size = size.
Proof.
  revert bw size. induction ins as [|input rest IH]; intros bw size Hnone.
  - cbn. rewrite app_nil_r. auto.
  - assert (Hg : truthy (getEntry input st) = false).
    { apply getEntry_nothing. apply Hnone. apply list_elem_of_here. }
    assert (Hrest : forall i, i ∈ rest -> cached st (prevout i) = None).
    { intros i Hi. apply Hnone. apply list_elem_of_further. exact Hi. }
    cbn [toFast_loop getFastSize_loop length replicate].
    destruct (getEntry input st) as [| |l]; try discriminate Hg.
    + destruct (IH (writeU8 0 bw) size Hrest) as [-> ->].
      unfold writeU8. rewrite <- app_assoc. auto.
    + destruct (IH (writeU8 0 bw) size Hrest) as [-> ->].
      unfold writeU8. rewrite <- app_assoc. auto.
Qed.

Lemma fromFast_loop_zeros (ins : list Input) (rest : list byte) (st : State) :
  fromFast_loop ins (replicate (length ins) Byte.x00 ++ rest) st
  = (Ret rest, st).
Proof.
  induction ins as [|input ins IH]; [reflexivity|].
  cbn [length replicate app fromFast_loop readU8]. exact IH.
Qed.

Lemma fromFast_loop_short (ins : list Input) (k : nat) (st : State) :
  (k < length ins)%nat ->
  fromFast_loop ins (replicate k Byte.x00) st = (Throw DecodeError, st).
Proof.
  revert k. induction ins as [|input ins IH]; intros k Hk; [cbn in Hk; lia|].
  destruct k as [|k]; [reflexivity|].
  cbn [length replicate app fromFast_loop readU8]. apply IH.
  cbn [length] in Hk. lia.
Qed.

(** X16.  A view that holds no coin for any input of [tx] has as fast form
    one zero byte per input, and [getFastSize] is the number of inputs.
    [fromFast] reads those bytes back without touching the view it fills
    and stops right after them; given fewer bytes than [tx] has inputs, it
    fails with a read past the end. *)
Theorem fast_form_without_coins (tx : TX) (st : State) :
  (forall input, input ∈ inputs tx -> cached st (prevout input) = None) ->
  toFast [] tx st = replicate (length (inputs tx)) Byte.x00 /\
  getFastSize tx st = length (inputs tx) /\
  (forall rest st0,
     fromFast (toFast [] tx st ++ rest) tx st0 = (Ret rest, st0)) /\
  (forall k st0, (k < length (inputs tx))%nat ->
     fromFast (take k (toFast [] tx st)) tx st0 = (Throw DecodeError, st0)).
Proof.
  intros Hnone. unfold toFast, getFastSize, fromFast.
  destruct (toFast_loop_nothing st (inputs tx) [] (0 + length (inputs tx)) Hnone)
    as [Hw Hz].
  rewrite Hw, Hz. cbn [app Nat.add].
  split; [reflexivity|]. split; [reflexivity|]. split.
  - intros rest st0. apply fromFast_loop_zeros.
  - intros k st0 Hk. rewrite take_replicate, Nat.min_l by lia.
    apply fromFast_loop_short. exact Hk.
Qed.

(** X17.  [add(hash, coins)] puts the bucket under the hash, where [get] and
    [has] find it, and touches no other key; [remove(hash)] then returns
    true and leaves a view without that key, on which a second [remove]
    returns false and changes nothing.  When the key was not there before
    the [add], the view is back as it was. *)
Theorem view_add_remove (h : string) (c : Coins) (st : State) :
  let st1 := with_map st (<[h := c]> (view_map st)) in
  let st2 := with_map st (delete h (view_map st)) in
  view_add h c st = (Ret c, st1) /\
  view_get h st1 = Some c /\ view_has h st1 = true /\
  (forall h', h' <> h -> view_get h' st1 = view_get h' st) /\
  view_remove h st1 = (Ret true, st2) /\
  view_get h st2 = None /\ view_has h st2 = false /\
  (forall h', h' <> h -> view_get h' st2 = view_get h' st) /\
  view_remove h st2 = (Ret false, st2) /\
  (view_map st !! h = None -> st2 = st).
Proof.
  intros st1 st2. subst st1 st2.
  unfold view_add, view_remove, view_get, view_has.
  cbn [view_map with_map store undo].
  rewrite !lookup_insert_eq, !lookup_delete_eq.
  split; [reflexivity|]. split; [reflexivity|].
  split; [apply bool_decide_eq_true_2; eauto|].
  split; [intros h' Hne; apply lookup_insert_ne; congruence|].
  split; [unfold with_map; cbn [view_map store undo];
          rewrite delete_insert_eq; reflexivity|].
  split; [reflexivity|].
  split; [apply bool_decide_eq_false_2; intros [x Hx]; discriminate|].
  split; [intros h' Hne; apply lookup_delete_ne; congruence|].
  split; [reflexivity|].
  intros Hn. rewrite delete_id by exact Hn. destruct st; reflexivity.
Qed.

(** X18.  [addEntry] on an outpoint that has a coin changes nothing, so a
    coin is replaced only after [removeOutput]: that returns the entry there
    was, leaves the slot without one and the entry itself, the other slots
    of the bucket, the store and the undo stack as they were; [addEntry]
    then puts the new entry there. *)
Theorem removeOutput_then_addEntry (st : State) (p : Outpoint) (c : Coins)
    (l coin : loc) :
  view_in_store st -> (coin < length (store st))%nat ->
  view_map st !! hash p = Some c ->
  c_outputs c !! index p = Some (Some l) ->
  isUnspendable (script (output (deref (store st) coin))) = false ->
  addEntry p coin st = (Ret (Some c), st) /\
  exists st1 r st2,
    removeOutput p st = (Ret (Some l), st1) /\
    store st1 = store st /\ undo st1 = undo st /\
    cached st1 p = None /\ hasEntry (mkInput p) st1 = false /\
    (forall q, q <> p -> cached st1 q = cached st q) /\
    addEntry p coin st1 = (Ret (Some r), st2) /\
    cached st2 p = Some coin /\ getEntry (mkInput p) st2 = obj coin /\
    store st2 = store st /\
    (forall q, q <> p -> cached st2 q = cached st q).
Proof.
  intros Hin Hcoin Hc Hs Hu.
  assert (Hslot : slot c (index p) = Some l) by (apply slot_entry; exact Hs).
  split.
  - apply addEntry_occupied; [exact Hc| |exact Hu].
    rewrite Coins_has_slot, Hslot. apply bool_decide_eq_true_2. eauto.
  - set (c1 := Coins_cleanup {| c_hash := c_hash c;
                               c_outputs := <[index p := None]> (c_outputs c) |}).
    set (st1 := with_map st (<[hash p := c1]> (view_map st))).
    assert (Hrun1 : removeOutput p st = (Ret (Some l), st1)).
    { unfold removeOutput, view_get. rewrite Hc.
      rewrite (Coins_remove_entry (index p) l c Hs). reflexivity. }
    assert (Hs1 : forall j, slot c1 j
                            = if decide (j = index p) then None else slot c j).
    { intros j. subst c1.
      destruct (Coins_cleanup_facts
                  {| c_hash := c_hash c;
                     c_outputs := <[index p := None]> (c_outputs c) |})
        as (_ & _ & Hsl & _).
      rewrite Hsl. unfold slot. cbn [c_outputs].
      pose proof (lookup_lt_Some _ _ _ Hs) as Hi.
      destruct (decide (j = index p)) as [->|Hne].
      - rewrite list_lookup_insert_eq by exact Hi. reflexivity.
      - rewrite list_lookup_insert_ne by congruence. reflexivity. }
    assert (Hc1 : forall q, cached st1 q
                            = if decide (q = p) then None else cached st q).
    { intros q. unfold cached. subst st1. cbn [view_map with_map].
      destruct (decide (hash q = hash p)) as [Hh|Hh].
      - rewrite Hh, lookup_insert_eq, Hc, Hs1.
        destruct (decide (index q = index p)) as [Hi|Hi].
        + rewrite decide_True; [reflexivity|].
          destruct q, p; cbn in *; congruence.
        + rewrite decide_False; [reflexivity|]. intros ->. contradiction.
      - rewrite lookup_insert_ne by congruence.
        rewrite decide_False; [reflexivity|]. intros ->. contradiction. }
    assert (Hin1 : view_in_store st1).
    { intros h0 c0 Hc0 i l0 Hl0. subst st1. cbn [view_map with_map store] in *.
      destruct (decide (h0 = hash p)) as [->|Hne].
      - rewrite lookup_insert_eq in Hc0. injection Hc0 as <-.
        rewrite Hs1 in Hl0. destruct (decide (i = index p)); [discriminate|].
        exact (Hin _ _ Hc i l0 Hl0).
      - rewrite lookup_insert_ne in Hc0 by congruence.
        exact (Hin _ _ Hc0 i l0 Hl0). }
    destruct (addEntry_spec st1 p coin Hin1 Hcoin)
      as (r & st2 & Hrun2 & Hst2 & Hun2 & Hin2 & Hother & Hp & Hr).
    assert (Hp1 : cached st1 p = None)
      by (rewrite Hc1, decide_True by reflexivity; reflexivity).
    rewrite Hp1 in Hp. change (store st1) with (store st) in Hp, Hr.
    rewrite Hu in Hp, Hr. destruct r as [r|]; [|discriminate Hr].
    exists st1, r, st2. split; [exact Hrun1|]. split; [reflexivity|].
    split; [reflexivity|]. split; [exact Hp1|]. split.
    { rewrite hasEntry_cached. cbn [prevout]. rewrite Hp1.
      apply bool_decide_eq_false_2. intros [x Hx]. discriminate. }
    split.
    { intros q Hne. rewrite Hc1, decide_False by exact Hne. reflexivity. }
    split; [exact Hrun2|]. split; [exact Hp|]. split.
    { apply getEntry_cached. exact Hp. }
    split; [exact Hst2|].
    intros q Hne. rewrite Hother by exact Hne.
    rewrite Hc1, decide_False by exact Hne. reflexivity.
Qed.

(** X19.  [addOutput] with an output that can be spent, on an outpoint that
    has no coin: it stores a new entry built from the output alone, with
    version 1, height -1 and no coinbase flag, so [getHeight] of that input
    is -1 as if there were no coin.  A bucket it had to create keeps the
    hash of [new Coins()], the null hash, not the hash of the outpoint.  On
    an outpoint that has a coin it changes nothing. *)
Theorem addOutput_spec (st : State) (p : Outpoint) (o : Output) :
  isUnspendable (script o) = false ->
  match cached st p with
  | Some l => addOutput p o st = (Ret tt, st)
  | None =>
      exists st',
        addOutput p o st = (Ret tt, st') /\
        store st' = store st ++ [{| version := 1; height := -1;
                                    coinbase := false; output := o;
                                    spent := false; raw := None |}] /\
        undo st' = undo st /\
        cached st' p = Some (length (store st)) /\
        (forall q, q <> p -> cached st' q = cached st q) /\
        hasEntry (mkInput p) st' = true /\
        getHeight (mkInput p) st' = -1 /\
        isCoinbase (mkInput p) st' = false /\
        getOutput (mkInput p) st' = Ret (Some o) /\
        exists c', view_map st' !! hash p = Some c' /\
                   c_hash c' = match view_map st !! hash p with
                               | Some c => c_hash c
                               | None => NULL_HASH
                               end
  end.
Proof.
  intros Hu. destruct (cached st p) as [l|] eqn:Ec.
  - unfold cached in Ec. unfold addOutput, view_get.
    destruct (view_map st !! hash p) as [c|] eqn:Eb; [|discriminate].
    rewrite Hu. rewrite Coins_has_slot, Ec.
    rewrite bool_decide_eq_true_2 by eauto. reflexivity.
  - set (c0 := match view_map st !! hash p with
               | Some c => c
               | None => Coins_new
               end).
    assert (Hfree : slot c0 (index p) = None).
    { subst c0. unfold cached in Ec.
      destruct (view_map st !! hash p) as [c|]; [exact Ec|].
      apply slot_Coins_new. }
    destruct (Coins_add_free (index p) (length (store st)) c0 Hfree)
      as (c' & Hadd & Hh' & Hs').
    set (e := {| version := 1; height := -1; coinbase := false; output := o;
                 spent := false; raw := None |}).
    set (st' := {| store := store st ++ [e];
                   view_map := <[hash p := c']> (view_map st);
                   undo := undo st |}).
    assert (Hrun : addOutput p o st = (Ret tt, st')).
    { unfold addOutput, view_get. subst c0.
      destruct (view_map st !! hash p) as [c|] eqn:Eb.
      - rewrite Hu. rewrite Coins_has_slot, Hfree.
        rewrite bool_decide_eq_false_2 by (intros [x Hx]; discriminate).
        unfold Coins_addOutput. rewrite Hu, Hadd. reflexivity.
      - rewrite Hu. rewrite Coins_has_slot, Hfree.
        rewrite bool_decide_eq_false_2 by (intros [x Hx]; discriminate).
        unfold Coins_addOutput. cbn [with_store with_map store view_map undo].
        rewrite Hu, Hadd.
        subst st'. unfold with_store, with_map. cbn [store view_map undo].
        rewrite insert_insert_eq. reflexivity. }
    assert (Hc' : forall q, cached st' q
                   = if decide (q = p) then Some (length (store st))
                     else cached st q).
    { intros q. unfold cached. subst st'. cbn [view_map].
      destruct (decide (hash q = hash p)) as [Hh|Hh].
      - rewrite Hh, lookup_insert_eq, Hs'.
        destruct (decide (index q = index p)) as [Hi|Hi].
        + rewrite decide_True; [reflexivity|].
          destruct q, p; cbn in *; congruence.
        + rewrite decide_False by (intros ->; contradiction).
          subst c0. destruct (view_map st !! hash p); [reflexivity|].
          apply slot_Coins_new.
      - rewrite lookup_insert_ne by congruence.
        rewrite decide_False by (intros ->; contradiction). reflexivity. }
    assert (Hp : cached st' p = Some (length (store st)))
      by (rewrite Hc', decide_True by reflexivity; reflexivity).
    assert (Hg : getEntry (mkInput p) st' = obj (length (store st)))
      by (apply getEntry_cached; exact Hp).
    assert (Hd : deref (store st') (length (store st)) = e)
      by apply deref_app_new.
    exists st'. split; [exact Hrun|]. split; [reflexivity|].
    split; [reflexivity|]. split; [exact Hp|]. split.
    { intros q Hne. rewrite Hc', decide_False by exact Hne. reflexivity. }
    split.
    { rewrite hasEntry_cached. cbn [prevout]. rewrite Hp.
      apply bool_decide_eq_true_2. eauto. }
    split; [unfold getHeight; rewrite Hg, Hd; reflexivity|].
    split; [unfold isCoinbase; rewrite Hg, Hd; reflexivity|].
    split.
    { unfold getOutput, view_get. subst st'. cbn [prevout view_map store].
      rewrite lookup_insert_eq.
      assert (Hx : c_outputs c' !! index p = Some (Some (length (store st)))).
      { apply slot_entry. rewrite Hs', decide_True by reflexivity. reflexivity. }
      destruct (Coins_read_entry (store st ++ [e]) c' _ _ Hx) as (_ & -> & _).
      rewrite deref_app_new. reflexivity. }
    exists c'. split; [subst st'; cbn [view_map]; apply lookup_insert_eq|].
    rewrite Hh'. subst c0. destruct (view_map st !! hash p); reflexivity.
Qed.

End ViewMap.

(** ** The properties above on the views of [Scenario] *)

Section MoreExamples.
Import Demo DemoLaws Scenario.
#[local] Existing Instance demo.
#[local] Existing Instance demo_laws.

Lemma pay_encodable : encodable pay.
Proof. unfold encodable, demo, pay. cbn [value script length]. lia. Qed.

Lemma plain_entry_serialisable (v h : Z) (cb sp : bool) :
  0 <= v < 2 ^ 32 -> -1 <= h <= 2 ^ 29 - 2 ->
  serialisable {| version := v; height := h; coinbase := cb; output := pay;
                  spent := sp; raw := None |}.
Proof.
  intros Hv Hh. unfold serialisable. cbn [height version output raw].
  split; [exact Hh|]. split; [exact Hv|]. split; [exact pay_encodable|].
  intros r Hr. discriminate Hr.
Qed.

Lemma store_a_serialisable (items : list loc) :
  Forall (fun l => serialisable (deref store_a l)) items.
Proof.
  apply Forall_forall. intros l _.
  destruct l as [|[|l]].
  - exact (plain_entry_serialisable 1 1 false false ltac:(lia) ltac:(lia)).
  - exact (plain_entry_serialisable 1 1 false false ltac:(lia) ltac:(lia)).
  - vm_compute. repeat split; intros; discriminate.
Qed.

Lemma tx_c_uncached (s : list CoinEntry) (input : Input) :
  input ∈ inputs tx_c -> cached (CoinView_new s) (prevout input) = None.
Proof.
  intros Hmem. cbn [inputs tx_c] in Hmem.
  repeat (apply elem_of_cons in Hmem as [->|Hmem]);
    [| | |apply elem_of_nil in Hmem; destruct Hmem]; reflexivity.
Qed.

(** The record of [entry1] followed by one byte: the entry read is unspent,
    without cached bytes, at height 100; and nothing is read from three
    bytes. *)
Lemma fromReader_entry_fresh_witness :
  fromReader (toWriter entry1 [] ++ [Byte.x07])
  = Some (decoded entry1, [Byte.x07]) /\
  (spent (decoded entry1) = false /\ raw (decoded entry1) = None /\
   -1 <= height (decoded entry1) <= 2 ^ 29 - 2) /\
  fromReader [Byte.x01; Byte.x00; Byte.x00] = None /\
  readVarint [Byte.x01; Byte.x00; Byte.x00] = None.
Proof.
  assert (Hr : fromReader (toWriter entry1 [] ++ [Byte.x07])
               = Some (decoded entry1, [Byte.x07]))
    by (vm_compute; reflexivity).
  pose proof (fromReader_entry_fresh (toWriter entry1 [] ++ [Byte.x07])) as Hok.
  rewrite Hr in Hok. destruct Hok as (H1 & H2 & H3 & _).
  split; [exact Hr|]. split; [auto|]. split; reflexivity.
Defined.

(** A height of 2^29 + 5 on an entry that is no coinbase: it reads back as
    height 5 of a coinbase. *)
Lemma record_of_any_height_witness :
  fromReader
    (toWriter {| version := 1; height := 2 ^ 29 + 5; coinbase := false;
                 output := pay; spent := false; raw := None |} [] ++ [])
  = Some ({| version := 1; height := 5; coinbase := true; output := pay;
             spent := false; raw := None |}, []).
Proof.
  rewrite (record_of_any_height
             {| version := 1; height := 2 ^ 29 + 5; coinbase := false;
                output := pay; spent := false; raw := None |} []
             eq_refl ltac:(cbn; lia) ltac:(cbn; lia) pay_encodable).
  vm_compute. reflexivity.
Defined.

(** [reserialize] on [entry1]: the record has seventeen bytes. *)
Lemma reserialize_equal_witness :
  serialisable entry1 /\
  exists r e',
    reserialize entry1 = Some (r, e') /\ deepCoinsEqual e' r /\
    raw e' = Some (toWriter entry1 []) /\ spent r = false /\
    getSize r = 17%nat.
Proof.
  split; [exact entry1_serialisable|].
  destruct (reserialize_equal entry1 entry1_serialisable)
    as (r & e' & Hrun & Heq & Hraw & _ & _ & _ & _ & _ & _ & Hsp & Hsz).
  exists r, e'. split; [exact Hrun|]. split; [exact Heq|].
  split; [exact Hraw|]. split; [exact Hsp|].
  rewrite Hsz. vm_compute. reflexivity.
Defined.

(** The undo stack that holds the two entries of [store_a], the second one
    first: a blob of 38 bytes that reads back as two entries in that
    order. *)
Lemma UndoCoins_raw_roundtrip_witness :
  UndoCoins_getSize store_a [1; 0]%nat = 38%nat /\
  length (UndoCoins_toRaw store_a [1; 0]%nat) = 38%nat /\
  UndoCoins_fromRaw (UndoCoins_toRaw store_a [1; 0]%nat ++ [Byte.x07]) []
  = (Ret [0; 1]%nat,
     [decoded (deref store_a 1%nat); decoded (deref store_a 0%nat)]).
Proof.
  destruct (UndoCoins_raw_roundtrip store_a [1; 0]%nat [Byte.x07] []
              (store_a_serialisable _) ltac:(cbn; lia))
    as (Hsize & _ & Hread).
  split; [rewrite Hsize; vm_compute; reflexivity|].
  split; [vm_compute; reflexivity|]. exact Hread.
Defined.

(** [commit] after the second coin of [view_a] was spent. *)
Lemma undo_commit_roundtrip_witness :
  exists raw st',
    undo_commit (with_undo view_a [1%nat]) = (Ret raw, st') /\
    undo st' = [] /\ view_map st' = view_map view_a /\
    length raw = 21%nat /\
    UndoCoins_fromRaw raw [] = (Ret [0%nat], [decoded (deref store_a 1%nat)]).
Proof.
  destruct (undo_commit_roundtrip (with_undo view_a [1%nat]) []
              (store_a_serialisable _) ltac:(cbn; lia))
    as (raw & st' & Hrun & Hun & _ & _ & Hmap & Hlen & Hread).
  exists raw, st'. split; [exact Hrun|]. split; [exact Hun|].
  split; [exact Hmap|]. split; [rewrite Hlen; vm_compute; reflexivity|].
  exact Hread.
Defined.

(** [add] on the bucket [Some 0; null; Some 1]: index 0 is taken, the hole
    at index 1 and index 5 past the end are free. *)
Lemma Coins_add_spec_witness :
  Coins_add 0 7%nat bucket_d = (Throw AssertionError, bucket_d) /\
  (exists c', Coins_add 1 7%nat bucket_d = (Ret tt, c') /\
              c_outputs c' = [Some 0; Some 7; Some 1]%nat) /\
  (exists c', Coins_add 5 7%nat bucket_d = (Ret tt, c') /\
              length (c_outputs c') = 6%nat /\
              c_outputs c' !! 5%nat = Some (Some 7%nat) /\
              c_outputs c' !! 4%nat = Some None).
Proof.
  split; [exact (Coins_add_spec 0 7%nat bucket_d)|]. split.
  - destruct (Coins_add_spec 1 7%nat bucket_d) as (c' & Hrun & _).
    exists c'. split; [exact Hrun|].
    vm_compute in Hrun. injection Hrun as <-. reflexivity.
  - destruct (Coins_add_spec 5 7%nat bucket_d)
      as (c' & Hrun & _ & Hlen & Hat & _ & Hpad & _).
    exists c'. split; [exact Hrun|]. split; [exact Hlen|].
    split; [exact Hat|]. apply Hpad; cbn; lia.
Defined.

(** [remove] on that bucket: the last entry goes and the hole below it is
    trimmed; the hole and an index past the end give false. *)
Lemma Coins_remove_spec_witness :
  (exists c', Coins_remove 2 bucket_d = (Some 1%nat, c') /\
              c_outputs c' = [Some 0%nat] /\
              last (c_outputs c') <> Some None) /\
  Coins_remove 1 bucket_d = (None, bucket_d) /\
  Coins_remove 9 bucket_d = (None, bucket_d).
Proof.
  split; [|split].
  - destruct (Coins_remove_spec 2 bucket_d)
      as (c' & Hrun & _ & _ & _ & _ & Hlast & _).
    exists c'. split; [exact Hrun|]. split; [|exact Hlast].
    vm_compute in Hrun. injection Hrun as <-. reflexivity.
  - exact (Coins_remove_spec 1 bucket_d).
  - exact (Coins_remove_spec 9 bucket_d).
Defined.

(** [add] at index 5 of that bucket, then [remove]: the bucket is back. *)
Lemma Coins_add_remove_witness :
  last (c_outputs bucket_d) <> Some None /\
  exists c1,
    Coins_add 5 7%nat bucket_d = (Ret tt, c1) /\
    c_outputs c1 !! 5%nat = Some (Some 7%nat) /\
    Coins_remove 5 c1 = (Some 7%nat, bucket_d).
Proof.
  assert (Hlast : last (c_outputs bucket_d) <> Some None)
    by (cbn; discriminate).
  split; [exact Hlast|].
  apply (Coins_add_remove 5 7%nat bucket_d Hlast).
  intros l0 Hx. cbn in Hx. discriminate Hx.
Defined.

(** [Coins.fromTX] on [tx_d], whose second output cannot be spent. *)
Lemma Coins_fromTX_spec_witness :
  Coins_fromTX tx_d 1 [] = (Ret bucket_d, store_d) /\
  (exists l, c_outputs bucket_d !! 2%nat = Some (Some l) /\
             store_d !! l
             = Some {| version := 1; height := 1; coinbase := false;
                       output := pay; spent := false; raw := None |}) /\
  (forall l, c_outputs bucket_d !! 1%nat <> Some (Some l)) /\
  c_outputs bucket_d !! 3%nat = None.
Proof.
  destruct (Coins_fromTX_spec tx_d 1 [])
    as (c & new & Hrun & _ & _ & _ & Hch & _).
  assert (Hev : Coins_fromTX tx_d 1 [] = (Ret bucket_d, store_d))
    by (vm_compute; reflexivity).
  rewrite Hev in Hrun. injection Hrun as <- <-.
  split; [reflexivity|]. split; [|split].
  - destruct (Hch 2%nat) as (l & Hl & _ & He). exists l. split; assumption.
  - exact (Hch 1%nat).
  - exact (Hch 3%nat).
Defined.

(** [addTX(tx_d, 1)] on a new view, read through the accessors. *)
Lemma addTX_accessors_witness :
  exists c st',
    addTX tx_d 1 (CoinView_new []) = (Ret c, st') /\
    hasEntry (mkInput (mkOutpoint "dd" 2)) st' = true /\
    getHeight (mkInput (mkOutpoint "dd" 2)) st' = 1 /\
    getOutput (mkInput (mkOutpoint "dd" 2)) st' = Ret (Some pay) /\
    hasEntry (mkInput (mkOutpoint "dd" 1)) st' = false /\
    getHeight (mkInput (mkOutpoint "dd" 1)) st' = -1 /\
    getEntry (mkInput (mkOutpoint "dd" 3)) st' = undefined.
Proof.
  destruct (addTX_accessors tx_d 1 (CoinView_new []))
    as (c & new & Hrun & Hacc).
  eexists c, _. split; [exact Hrun|].
  destruct (Hacc 2%nat _ eq_refl) as (H1 & H2 & _ & H3 & _).
  destruct (Hacc 1%nat _ eq_refl) as (H4 & H5 & _).
  destruct (Hacc 3%nat _ eq_refl) as (_ & _ & _ & H6 & _).
  repeat split; assumption.
Defined.

(** Spending the first coin of [view_a], twice. *)
Lemma spendOutput_twice_witness :
  exists st1,
    spendOutput (mkOutpoint "aa" 0) view_a = (Ret true, st1) /\
    undo st1 = [0%nat] /\
    spendOutput (mkOutpoint "aa" 0) st1 = (Ret false, st1) /\
    spendOutput (mkOutpoint "zz" 0) view_a = (Ret false, view_a).
Proof.
  destruct (spendOutput_twice view_a (mkOutpoint "aa" 0) bucket_a 0%nat
              {| version := 1; height := 1; coinbase := false; output := pay;
                 spent := false; raw := None |}
              eq_refl eq_refl eq_refl eq_refl)
    as (H1 & H2 & _ & H3).
  eexists. split; [exact H1|]. split; [reflexivity|]. split; [exact H2|].
  apply H3. reflexivity.
Defined.

(** The fast form of [view_a] for [tx_c], before and after the coin of the
    first input is spent: the same twenty bytes. *)
Lemma spend_keeps_fast_form_witness :
  exists st',
    spendOutput (mkOutpoint "aa" 1) view_a = (Ret true, st') /\
    Coins_isUnspent (store view_a) 1 bucket_a = true /\
    Coins_isUnspent (store st') 1 bucket_a = false /\
    toFast [] tx_c st'
    = writeU8 1 [] ++ toWriter (deref store_a 1%nat) []
      ++ writeU8 0 [] ++ writeU8 0 [] /\
    toFast [] tx_c st' = toFast [] tx_c view_a /\
    getFastSize tx_c st' = 20%nat.
Proof.
  assert (Hrun : spendOutput (mkOutpoint "aa" 1) view_a
                 = (Ret true,
                    {| store := <[1%nat := set_spent (deref store_a 1%nat)]> store_a;
                       view_map := view_map view_a; undo := [1%nat] |}))
    by reflexivity.
  destruct (spend_keeps_fast_form view_a _ (mkOutpoint "aa" 1) tx_c []
              view_a_in_store Hrun) as (Hspec & Hw & _ & Hz & _).
  eexists. split; [exact Hrun|]. split; [reflexivity|]. split; [reflexivity|].
  split; [rewrite Hspec; vm_compute; reflexivity|].
  split; [exact Hw|].
  rewrite (Hz view_a_fast_encodable). vm_compute. reflexivity.
Defined.

(** [readCoin] on [view_a]: a hit on the coin of the first input of [tx_c],
    a miss on the second that the backing store cannot resolve, and one
    that it resolves. *)
Lemma readCoin_cache_hit_witness :
  (forall db', readCoin db' (mkInput (mkOutpoint "aa" 1)) view_a
               = (Ret (Some bucket_a), view_a)) /\
  readCoin (fun _ => None) (mkInput (mkOutpoint "zz" 0)) view_a
  = (Ret None, view_a) /\
  exists c st',
    readCoin (fun _ => Some entry1) (mkInput (mkOutpoint "zz" 0)) view_a
    = (Ret (Some c), st') /\
    store st' = store_a ++ [entry1] /\
    c_outputs c !! 0%nat = Some (Some 2%nat) /\
    hasEntry (mkInput (mkOutpoint "zz" 0)) st' = true /\
    forall db', readCoin db' (mkInput (mkOutpoint "zz" 0)) st'
                = (Ret (Some c), st').
Proof.
  split; [|split].
  - destruct (readCoin_cache_hit (fun _ => None)
                (mkInput (mkOutpoint "aa" 1)) view_a view_a_in_store)
      as (Hhit & _ & _).
    exact (proj2 (Hhit bucket_a 1%nat eq_refl eq_refl)).
  - destruct (readCoin_cache_hit (fun _ => None)
                (mkInput (mkOutpoint "zz" 0)) view_a view_a_in_store)
      as (_ & Hmiss & _).
    exact (Hmiss eq_refl).
  - destruct (readCoin_cache_hit (fun _ => Some entry1)
                (mkInput (mkOutpoint "zz" 0)) view_a view_a_in_store)
      as (_ & Hmiss & Hagain).
    destruct (Hmiss eq_refl eq_refl) as (c & st' & Hrun & Hst & _ & _ & Hs).
    destruct (Hagain c st' Hrun) as (_ & _ & Hh & Hall).
    exists c, st'. repeat split; assumption.
Defined.

(** [ensureInputs] for [tx_c] on [view_a], with a backing store that has
    the coin of the third input only: the second input cannot be resolved,
    false is returned, and the third input has been read all the same. *)
Lemma ensureInputs_spec_witness :
  let db : ChainDB :=
    fun q => if decide (q = mkOutpoint "bb" 1) then Some entry1 else None in
  exists st',
    ensureInputs db tx_c view_a = (Ret false, st') /\
    undo st' = [] /\
    hasEntry (mkInput (mkOutpoint "aa" 1)) st' = true /\
    hasEntry (mkInput (mkOutpoint "zz" 0)) st' = false /\
    hasEntry (mkInput (mkOutpoint "bb" 1)) st' = true.
Proof.
  intros db.
  destruct (ensureInputs_spec db tx_c view_a view_a_in_store)
    as (st' & Hrun & _ & Hun & _ & Hhas & _).
  assert (H1 : mkInput (mkOutpoint "aa" 1) ∈ inputs tx_c)
    by (cbn [inputs tx_c]; apply list_elem_of_here).
  assert (H2 : mkInput (mkOutpoint "zz" 0) ∈ inputs tx_c)
    by (cbn [inputs tx_c]; apply list_elem_of_further, list_elem_of_here).
  assert (H3 : mkInput (mkOutpoint "bb" 1) ∈ inputs tx_c)
    by (cbn [inputs tx_c];
        apply list_elem_of_further, list_elem_of_further, list_elem_of_here).
  exists st'. split; [exact Hrun|]. split; [exact Hun|].
  split; [|split].
  - rewrite (proj2 (Hhas _ H1)). reflexivity.
  - rewrite (proj2 (Hhas _ H2)). reflexivity.
  - rewrite (proj2 (Hhas _ H3)). reflexivity.
Defined.

(** The fast form of a new view for [tx_c]: three zero bytes. *)
Lemma fast_form_without_coins_witness :
  toFast [] tx_c (CoinView_new []) = [Byte.x00; Byte.x00; Byte.x00] /\
  getFastSize tx_c (CoinView_new []) = 3%nat /\
  fromFast ([Byte.x00; Byte.x00; Byte.x00] ++ [Byte.x07]) tx_c view_a
  = (Ret [Byte.x07], view_a) /\
  fromFast [Byte.x00; Byte.x00] tx_c view_a = (Throw DecodeError, view_a).
Proof.
  destruct (fast_form_without_coins tx_c (CoinView_new []) (tx_c_uncached []))
    as (Hw & Hz & Hback & Hshort).
  split; [exact Hw|]. split; [exact Hz|]. split.
  - exact (Hback [Byte.x07] view_a).
  - exact (Hshort 2%nat view_a ltac:(cbn; lia)).
Defined.

(** [add] and [remove] of the bucket of [tx_a] on a new view. *)
Lemma view_add_remove_witness :
  view_add "aa" bucket_a (CoinView_new store_a) = (Ret bucket_a, view_a) /\
  view_has "aa" view_a = true /\
  view_remove "aa" view_a = (Ret true, CoinView_new store_a) /\
  view_remove "aa" (CoinView_new store_a) = (Ret false, CoinView_new store_a).
Proof.
  destruct (view_add_remove "aa" bucket_a (CoinView_new store_a))
    as (H1 & _ & H2 & _ & H3 & _ & _ & _ & H4 & _).
  split; [exact H1|]. split; [exact H2|]. split; [exact H3|exact H4].
Defined.

(** Replacing the first coin of [view_a]. *)
Lemma removeOutput_then_addEntry_witness :
  addEntry (mkOutpoint "aa" 0) 1%nat view_a = (Ret (Some bucket_a), view_a) /\
  exists st1 r st2,
    removeOutput (mkOutpoint "aa" 0) view_a = (Ret (Some 0%nat), st1) /\
    hasEntry (mkInput (mkOutpoint "aa" 0)) st1 = false /\
    addEntry (mkOutpoint "aa" 0) 1%nat st1 = (Ret (Some r), st2) /\
    getEntry (mkInput (mkOutpoint "aa" 0)) st2 = obj 1%nat.
Proof.
  destruct (removeOutput_then_addEntry view_a (mkOutpoint "aa" 0) bucket_a
              0%nat 1%nat view_a_in_store ltac:(cbn; lia)
              eq_refl eq_refl eq_refl)
    as (Hocc & st1 & r & st2 & H1 & _ & _ & _ & H2 & _ & H3 & _ & H4 & _).
  split; [exact Hocc|]. exists st1, r, st2. repeat split; assumption.
Defined.

(** [addOutput] on [view_a]: a free index of the bucket there is, an
    outpoint that has a coin, and an outpoint whose bucket is made. *)
Lemma addOutput_spec_witness :
  (exists st',
     addOutput (mkOutpoint "aa" 3) pay view_a = (Ret tt, st') /\
     getHeight (mkInput (mkOutpoint "aa" 3)) st' = -1 /\
     getOutput (mkInput (mkOutpoint "aa" 3)) st' = Ret (Some pay)) /\
  addOutput (mkOutpoint "aa" 0) pay view_a = (Ret tt, view_a) /\
  (exists st' c',
     addOutput (mkOutpoint "zz" 0) pay view_a = (Ret tt, st') /\
     view_map st' !! "zz" = Some c' /\ c_hash c' = NULL_HASH).
Proof.
  assert (Hpay : isUnspendable (script pay) = false) by reflexivity.
  split; [|split].
  - destruct (addOutput_spec view_a (mkOutpoint "aa" 3) pay Hpay)
      as (st' & Hrun & _ & _ & _ & _ & _ & Hh & _ & Ho & _).
    exists st'. repeat split; assumption.
  - exact (addOutput_spec view_a (mkOutpoint "aa" 0) pay Hpay).
  - destruct (addOutput_spec view_a (mkOutpoint "zz" 0) pay Hpay)
      as (st' & Hrun & _ & _ & _ & _ & _ & _ & _ & _ & c' & Hc & Hh).
    exists st', c'. repeat split; assumption.
Defined.

End MoreExamples.
